(** * CA-RD server: print-job queue, input sessions and the structured-content
    generator.

    A shallow embedding of the server module of the repository (the file that
    defines [printQueue], [inputSessions], [cleanupQueue], [generateCardData],
    and the Express route handlers), followed by the properties the
    specification states about it and by further properties of the code.

    Conventions of the embedding:
    - a JavaScript string is the list of its UTF-16 code units ([jsstring]);
    - a JavaScript number is [NaN], an infinity, or a finite value held as a
      canonical rational ([Qc]); every finite double is such a rational, and
      the functions modelled here only test numbers for integrality and
      compare them with integer constants, so no rounding is involved;
    - time stamps ([Date.now()]) are integers ([Z]); every call of
      [Date.now()] a handler makes is a separate argument of its model;
    - the built-ins whose results depend on the engine's text formats
      ([JSON.parse], number-to-string and string-to-number conversion, the
      message of a TypeError) are the fields of the class [Platform];
    - a conversion that can throw ([String(v)], [Number(v)]) returns an
      [option], [None] standing for the TypeError; a function that can both
      throw and return [null] returns an [option (option _)], the outer
      [None] standing for the throw and [Some None] for [null];
    - logging ([log(...)]) has no effect on the modelled state and is left
      out; socket broadcasts ([io.emit]) are returned as a list of events. *)

From Stdlib Require Import ZArith QArith Qcanon List Ascii String Lia.
From Stdlib Require Import DecimalString.
From stdpp Require Import base decidable option numbers list gmap.

Set Warnings "-register-all".

Local Open Scope nat_scope.

(* ================================================================= *)
(** ** JavaScript strings *)

Abbreviation jsstring := (list N).

(** A literal: one code unit per character of an ASCII string. *)
Definition str (s : string) : jsstring :=
  map N_of_ascii (list_ascii_of_string s).

(** Code units that [String.prototype.trim] strips: ECMAScript WhiteSpace and
    LineTerminator. *)
Definition is_space (c : N) : bool :=
  ((9 <=? c) && (c <=? 13) || (c =? 32) || (c =? 160) || (c =? 5760)
   || (8192 <=? c) && (c <=? 8202) || (c =? 8232) || (c =? 8233)
   || (c =? 8239) || (c =? 8287) || (c =? 12288) || (c =? 65279))%N.

Fixpoint trimStart (s : jsstring) : jsstring :=
  match s with
  | [] => []
  | c :: r => if is_space c then trimStart r else s
  end.

Definition trimEnd (s : jsstring) : jsstring := rev (trimStart (rev s)).

Definition trim (s : jsstring) : jsstring := trimEnd (trimStart s).

(** [s.indexOf(c)] and [s.lastIndexOf(c)] for a one-unit needle; -1 when the
    unit does not occur. *)
Fixpoint indexOf_from (c : N) (s : jsstring) (i : Z) : Z :=
  match s with
  | [] => (-1)%Z
  | x :: r => if (x =? c)%N then i else indexOf_from c r (i + 1)%Z
  end.

Definition indexOf (s : jsstring) (c : N) : Z := indexOf_from c s 0.

Fixpoint lastIndexOf_from (c : N) (s : jsstring) (i : Z) (found : Z) : Z :=
  match s with
  | [] => found
  | x :: r => lastIndexOf_from c r (i + 1)%Z (if (x =? c)%N then i else found)
  end.

Definition lastIndexOf (s : jsstring) (c : N) : Z := lastIndexOf_from c s 0 (-1).

(** [s.slice(a, b)] for [0 <= a], [0 <= b] (the only way the server calls it). *)
Definition slice (s : jsstring) (a b : Z) : jsstring :=
  take (Z.to_nat (b - a)) (drop (Z.to_nat a) s).

Definition is_empty (s : jsstring) : bool :=
  match s with [] => true | _ => false end.

(* ================================================================= *)
(** ** JavaScript numbers and values *)

Inductive jsnum :=
  | NaN
  | Infinity (negative : bool)
  | Finite (q : Qc).

Definition num_of_Z (z : Z) : jsnum := Finite (Qc_of_Z z).

(** [Number.isInteger]. A canonical rational is an integer exactly when its
    denominator is 1. *)
Definition isInteger (n : jsnum) : bool :=
  match n with
  | Finite q => Pos.eqb (Qden (this q)) 1
  | _ => false
  end.

(** [a < b] on numbers (false whenever an operand is NaN). *)
Definition num_ltb (a b : jsnum) : bool :=
  match a, b with
  | NaN, _ | _, NaN => false
  | Infinity true, Infinity true => false
  | Infinity true, _ => true
  | _, Infinity true => false
  | Infinity false, _ => false
  | _, Infinity false => true
  | Finite x, Finite y => bool_decide (x < y)%Qc
  end.

Inductive jsval :=
  | JUndefined
  | JNull
  | JBool (b : bool)
  | JNumber (n : jsnum)
  | JString (s : jsstring)
  | JArray (elems : list jsval)
  | JObject (props : list (jsstring * jsval)).

(** The engine built-ins the server relies on. [JSON_parse] returns the
    message of the SyntaxError it throws, or the parsed value;
    [TypeErrorMessage] is the message of the TypeError that the conversion of
    an object to a primitive throws. *)
Class Platform := {
  JSON_parse : jsstring -> jsstring + jsval;
  NumberToString : jsnum -> jsstring;
  StringToNumber : jsstring -> jsnum;
  TypeErrorMessage : jsstring
}.

(** Truthiness ([!v], [if (v)], [Boolean(v)]). *)
Definition truthy (v : jsval) : bool :=
  match v with
  | JUndefined | JNull => false
  | JBool b => b
  | JNumber NaN => false
  | JNumber (Infinity _) => true
  | JNumber (Finite q) => negb (bool_decide (q = Qc_of_Z 0))
  | JString s => negb (is_empty s)
  | JArray _ | JObject _ => true
  end.

(** [typeof v === "object"] (which holds of [null] too). *)
Definition typeof_object (v : jsval) : bool :=
  match v with
  | JNull | JArray _ | JObject _ => true
  | _ => false
  end.

(** [v === s] for a string literal [s]. *)
Definition is_string (v : jsval) (s : jsstring) : bool :=
  match v with JString x => bool_decide (x = s) | _ => false end.

(** [a ?? b]. *)
Definition nullish (a b : jsval) : jsval :=
  match a with JUndefined | JNull => b | _ => a end.

(** The object has a property of its own under the key [k]. *)
Definition has_own (k : jsstring) (props : list (jsstring * jsval)) : bool :=
  existsb (fun kv => bool_decide (kv.1 = k)) props.

Fixpoint assoc (k : jsstring) (props : list (jsstring * jsval)) : jsval :=
  match props with
  | [] => JUndefined
  | (k', v) :: r => if decide (k' = k) then v else assoc k r
  end.

(** [v.name] for an identifier [name]. The server reads only the identifiers
    name, class, skill, description, stats, sense, logic, luck, charm, vibe,
    questions, session_id, id, text, answers, status and message, none of
    which an array or a primitive has, [length] apart. *)
Definition get (v : jsval) (k : jsstring) : jsval :=
  match v with
  | JObject props => assoc k props
  | JArray l =>
      if decide (k = str "length") then JNumber (num_of_Z (Z.of_nat (length l)))
      else JUndefined
  | _ => JUndefined
  end.

Section WithPlatform.
Context {platform : Platform}.

(** [v[n]] for a number [n]: the property named by the number's string form;
    on an array, the element at that index. *)
Definition get_idx (v : jsval) (n : jsnum) : jsval :=
  match v with
  | JObject props => assoc (NumberToString n) props
  | JArray l =>
      match n with
      | Finite q =>
          if isInteger n && bool_decide (0 <= Qnum (this q))%Z
          then default JUndefined (l !! Z.to_nat (Qnum (this q)))
          else JUndefined
      | _ => JUndefined
      end
  | _ => JUndefined
  end.

Fixpoint join_comma (parts : list jsstring) : jsstring :=
  match parts with
  | [] => []
  | [p] => p
  | p :: r => p ++ str "," ++ join_comma r
  end.

(** [String(v)]. An array is joined with commas, its [null] and [undefined]
    elements printing as the empty string. An object whose [toString] is
    the inherited one prints as [[object Object]]. An object with a property
    of its own under the key [toString] has a value there that cannot be
    called (the values here are those of JSON), and neither its own [valueOf]
    nor the inherited one gives a primitive: the conversion throws a
    TypeError, which is [None]. *)
Fixpoint ToString (v : jsval) : option jsstring :=
  match v with
  | JUndefined => Some (str "undefined")
  | JNull => Some (str "null")
  | JBool true => Some (str "true")
  | JBool false => Some (str "false")
  | JNumber n => Some (NumberToString n)
  | JString s => Some s
  | JArray l =>
      join_comma <$>
        ((fix each (l : list jsval) : option (list jsstring) :=
            match l with
            | [] => Some []
            | e :: r =>
                match match e with
                      | JUndefined | JNull => Some []
                      | _ => ToString e
                      end, each r with
                | Some part, Some parts => Some (part :: parts)
                | _, _ => None
                end
            end) l)
  | JObject props =>
      if has_own (str "toString") props then None
      else Some (str "[object Object]")
  end.

(** [Number(v)]. An object or an array is converted to a primitive first,
    which ends in its [toString] and throws where [String(v)] throws. *)
Definition ToNumber (v : jsval) : option jsnum :=
  match v with
  | JUndefined => Some NaN
  | JNull => Some (num_of_Z 0)
  | JBool true => Some (num_of_Z 1)
  | JBool false => Some (num_of_Z 0)
  | JNumber n => Some n
  | JString s => Some (StringToNumber s)
  | JArray _ | JObject _ => StringToNumber <$> ToString v
  end.

(** What [clampText] makes of the text [String(value ?? "")]: it trims the
    text and cuts it to [maxLen] units. *)
Definition clamp (maxLen : nat) (s : jsstring) : jsstring :=
  let str := trim s in
  if decide (maxLen < length str) then take maxLen str else str.

(** [clampText(label, value, maxLen)]; the label only feeds the log. *)
Definition clampText (value : jsval) (maxLen : nat) : option jsstring :=
  clamp maxLen <$> ToString (nullish value (JString [])).

End WithPlatform.

(* ================================================================= *)
(** ** Structured-content generator *)

Record Error := mkError { message : jsstring }.

Record CardStats := mkCardStats {
  sense : jsnum; logic : jsnum; luck : jsnum; charm : jsnum; vibe : jsnum
}.

Record CardData := mkCardData {
  name : jsstring;
  class : jsstring;
  stats : CardStats;
  skill : jsstring;
  description : jsstring
}.

Module Question.
Record t := mk { id : jsnum; text : jsstring }.
End Question.

Record QuestionSet := mkQuestionSet {
  sessionId : jsstring;
  questions : list Question.t
}.

(** The chat endpoint as [callOllamaChat] sees it: a request either throws
    (network failure, abort on timeout, a status that is not ok, a body that
    is not JSON) or yields the parsed response body. *)
Inductive Reply :=
  | Thrown (e : Error)
  | Body (data : jsval).

(** Computations that may call the backend and may throw: the state is the
    number of requests made so far. *)
Definition Gen (A : Type) : Type := nat -> (Error + A) * nat.

Definition ret {A} (a : A) : Gen A := fun n => (inr a, n).
Definition throw {A} (e : Error) : Gen A := fun n => (inl e, n).
Definition bind {A B} (m : Gen A) (k : A -> Gen B) : Gen B :=
  fun n => match m n with
           | (inl e, n') => (inl e, n')
           | (inr a, n') => k a n'
           end.
Definition try_catch {A} (m : Gen A) (handler : Error -> Gen A) : Gen A :=
  fun n => match m n with
           | (inl e, n') => handler e n'
           | (inr a, n') => (inr a, n')
           end.
Definition lift {A} (r : Error + A) : Gen A := fun n => (r, n).

Section Generator.
Context {platform : Platform}.

(** The stat test of [normalizeCardData]'s loop. *)
Definition stat_ok (val : jsnum) : bool :=
  negb (negb (isInteger val) || num_ltb val (num_of_Z 1)
        || num_ltb (num_of_Z 100) val).

(** The four texts are converted before any is tested, the five stats
    after the tests of the texts and of [raw.stats]. *)
Definition normalizeCardData (raw : jsval) : option (option CardData) :=
  if negb (truthy raw) || negb (typeof_object raw) then Some None else
  name ← clampText (get raw (str "name")) 12;
  klass ← clampText (get raw (str "class")) 15;
  skill ← clampText (get raw (str "skill")) 20;
  description ← clampText (get raw (str "description")) 60;
  if is_empty name || is_empty klass || is_empty skill || is_empty description
  then Some None else
  let raw_stats := get raw (str "stats") in
  if negb (truthy raw_stats) || negb (typeof_object raw_stats) then Some None else
  sense ← ToNumber (get raw_stats (str "sense"));
  logic ← ToNumber (get raw_stats (str "logic"));
  luck ← ToNumber (get raw_stats (str "luck"));
  charm ← ToNumber (get raw_stats (str "charm"));
  vibe ← ToNumber (get raw_stats (str "vibe"));
  let stats := {| sense := sense; logic := logic; luck := luck;
                  charm := charm; vibe := vibe |} in
  if forallb stat_ok [sense; logic; luck; charm; vibe]
  then Some (Some {| name := name; class := klass; stats := stats;
                     skill := skill; description := description |})
  else Some None.

(** The callback [normalizeQuestions] maps over [raw.questions]. *)
Definition normalizeQuestion (q : jsval) : option (option Question.t) :=
  if negb (truthy q) || negb (typeof_object q) then Some None else
  id ← ToNumber (get q (str "id"));
  text ← clampText (get q (str "text")) 30;
  if negb (isInteger id) || num_ltb id (num_of_Z 1) || is_empty text
  then Some None
  else Some (Some {| Question.id := id; Question.text := text |}).

(** [raw.questions.map(...)] stops at the first entry whose callback throws. *)
Definition normalizeQuestions (raw : jsval) : option (option QuestionSet) :=
  if negb (truthy raw) || negb (typeof_object raw) then Some None else
  match get raw (str "questions") with
  | JArray qs =>
      if bool_decide (length qs < 4) || bool_decide (5 < length qs)
      then Some None else
      sessionId ← clampText (get raw (str "session_id")) 64;
      if is_empty sessionId then Some None else
      normalized ← mapM normalizeQuestion qs;
      if existsb (fun q => match q with None => true | Some _ => false end) normalized
      then Some None
      else Some (Some {| sessionId := sessionId; questions := omap id normalized |})
  | _ => Some None
  end.

Definition extractJsonObject (text : jsstring) : jsval :=
  if is_empty text then JNull else
  let start := indexOf text 123 (* "{" *) in
  let end_ := lastIndexOf text 125 (* "}" *) in
  if bool_decide (start = -1)%Z || bool_decide (end_ = -1)%Z
     || bool_decide (end_ <= start)%Z
  then JNull else
  let candidate := slice text start (end_ + 1) in
  match JSON_parse candidate with
  | inr v => v
  | inl _ => JNull
  end.

(** The body of one attempt of [generateCardData] once the backend has
    answered with [rawText]: parse, fall back to the brace span, validate.
    A TypeError that the validation throws is caught as any other error of
    the attempt. *)
Definition cardFromText (rawText : jsstring) : Error + CardData :=
  let trimmedRaw := trim rawText in
  if is_empty trimmedRaw
  then inl (mkError (str "JSON parse failed: empty response")) else
  let parsed :=
    match JSON_parse rawText with
    | inr v => inr v
    | inl err_message =>
        let extracted := extractJsonObject trimmedRaw in
        if truthy extracted then inr extracted
        else inl (mkError (str "JSON parse failed: " ++ err_message))
    end in
  match parsed with
  | inl e => inl e
  | inr parsed =>
      match normalizeCardData parsed with
      | None => inl (mkError TypeErrorMessage)
      | Some None => inl (mkError (str "Schema validation failed"))
      | Some (Some normalized) => inr normalized
      end
  end.

(** The same for [generateQuestions], which parses the trimmed text. *)
Definition questionsFromText (rawText : jsstring) : Error + QuestionSet :=
  let trimmedRaw := trim rawText in
  if is_empty trimmedRaw
  then inl (mkError (str "Question JSON parse failed: empty response")) else
  let parsed :=
    match JSON_parse trimmedRaw with
    | inr v => inr v
    | inl err_message =>
        let extracted := extractJsonObject trimmedRaw in
        if truthy extracted then inr extracted
        else inl (mkError (str "Question JSON parse failed: " ++ err_message))
    end in
  match parsed with
  | inl e => inl e
  | inr parsed =>
      match normalizeQuestions parsed with
      | None => inl (mkError TypeErrorMessage)
      | Some None => inl (mkError (str "Question schema validation failed"))
      | Some (Some normalized) => inr normalized
      end
  end.

(** [backend k] is the outcome of the request with index [k]. The prompts of
    a generation call are the same at every attempt, so they are not an
    argument. *)
Variable backend : nat -> Reply.

Definition callOllamaChat : Gen jsstring := fun n =>
  match backend n with
  | Thrown e => (inl e, S n)
  | Body data =>
      let msg := get data (str "message") in
      match get msg (str "content") with
      | JString content =>
          if negb (truthy data) || negb (truthy msg)
          then (inl (mkError (str "Invalid Ollama response")), S n)
          else (inr content, S n)
      | _ => (inl (mkError (str "Invalid Ollama response")), S n)
      end
  end.

(** [for (let attempt = 1; attempt <= 3; attempt += 1) { try { return body }
    catch (err) { lastError = err } } throw lastError || new Error(fallback)],
    by recursion on the number of attempts that remain. *)
Fixpoint attempt_loop {A} (body : Gen A) (fallback : jsstring)
    (remaining : nat) (lastError : option Error) : Gen A :=
  match remaining with
  | O => throw (default (mkError fallback) lastError)
  | S k =>
      try_catch body (fun err => attempt_loop body fallback k (Some err))
  end.

(** The [try] block of one attempt: a request, then the work on its text. *)
Definition cardAttempt : Gen CardData :=
  bind callOllamaChat (fun rawText => lift (cardFromText rawText)).

Definition questionsAttempt : Gen QuestionSet :=
  bind callOllamaChat (fun rawText => lift (questionsFromText rawText)).

Definition generateCardData : Gen CardData :=
  attempt_loop cardAttempt (str "AI failed") 3 None.

Definition generateQuestions : Gen QuestionSet :=
  attempt_loop questionsAttempt (str "Question generation failed") 3 None.

End Generator.

(* ================================================================= *)
(** ** Server state: configuration, sessions, print jobs *)

(** The entries of [CONFIG] the two stores read (milliseconds). *)
Record Config := mkConfig {
  PRINT_JOB_TTL_MS : Z;
  PRINT_CLAIM_TTL_MS : Z;
  INPUT_SESSION_TTL_MS : Z
}.

Definition MAX_FAILS : Z := 3.

(** A time-stamp field that starts as [null]: [None] is [null]. The server
    tests such a field by truthiness ([if (session.answeredAt)],
    [!job.claimedAt]), which takes the time stamp 0 for unset too. *)
Definition time_set (t : option Z) : bool :=
  match t with
  | None => false
  | Some t => negb (t =? 0)%Z
  end.

Module Session.
Record t := mk {
  token : jsstring;
  createdAt : Z;
  sessionId : jsstring;
  questions : list Question.t;
  answeredAt : option Z;
  keywords : option (list jsstring)
}.
End Session.

Module Job.
Record t := mk {
  id : jsstring;
  imageBase64 : jsstring;
  meta : jsval;
  createdAt : Z;
  claimedAt : option Z;
  claimedBy : option jsstring;
  failCount : Z
}.
End Job.

(** [io.emit(name, payload)]. *)
Inductive Event :=
  | print_new_job (jobId : jsstring)
  | print_queue_update (pendingCount : nat).

Inductive ErrorCode :=
  | NOT_FOUND | ALREADY_USED | INVALID_INPUT | INVALID_STATUS | AI_FAILED.

(** What a route handler sends. [RespUncaught e]: the handler threw [e] and
    has no [catch] for it, so Express answers with the status 500. *)
Inductive Response :=
  | RespError (status : nat) (code : ErrorCode)
  | RespUncaught (e : Error)
  | RespOk
  | RespNoContent
  | RespSession (token : jsstring) (expiresAt : Z)
  | RespJobId (jobId : jsstring)
  | RespJob (jobId : jsstring) (imageBase64 : jsstring) (meta : jsval).

#[global] Instance jsnum_eq_dec : EqDecision jsnum.
Proof. solve_decision. Defined.

(** The object [answers] that [normalizeInputAnswers] fills, keyed by the
    question ids. (JavaScript keys it by the ids' string forms; different
    numbers have different string forms.) *)
Abbreviation Answers := (list (jsnum * jsstring)).

Fixpoint answers_set (k : jsnum) (v : jsstring) (o : Answers) : Answers :=
  match o with
  | [] => [(k, v)]
  | (k', v') :: r =>
      if decide (k' = k) then (k, v) :: r else (k', v') :: answers_set k v r
  end.

Fixpoint answers_get (k : jsnum) (o : Answers) : option jsstring :=
  match o with
  | [] => None
  | (k', v') :: r => if decide (k' = k) then Some v' else answers_get k r
  end.

Section Server.
Context {platform : Platform} (CONFIG : Config).

(* ----------------------------------------------------------------- *)
(** *** Input sessions *)

Definition getInputSession (now : Z) (token : jsstring)
    (inputSessions : gmap jsstring Session.t)
    : option Session.t * gmap jsstring Session.t :=
  match inputSessions !! token with
  | None => (None, inputSessions)
  | Some session =>
      if decide (now - Session.createdAt session > INPUT_SESSION_TTL_MS CONFIG)%Z
      then (None, delete token inputSessions)
      else (Some session, inputSessions)
  end.

(** POST /api/input/session. [calls] counts the backend requests made so
    far; [token] is the value [uuidv4()] returns. *)
Definition startSession (backend : nat -> Reply) (calls : nat) (token : jsstring)
    (createdAt : Z) (inputSessions : gmap jsstring Session.t)
    : Response * gmap jsstring Session.t * nat :=
  match generateQuestions backend calls with
  | (inr payload, calls) =>
      (RespSession token (createdAt + INPUT_SESSION_TTL_MS CONFIG)%Z,
       <[token := {| Session.token := token;
                     Session.createdAt := createdAt;
                     Session.sessionId := sessionId payload;
                     Session.questions := questions payload;
                     Session.answeredAt := None;
                     Session.keywords := None |}]> inputSessions,
       calls)
  | (inl _, calls) => (RespError 500 AI_FAILED, inputSessions, calls)
  end.

(** The sweep visits every entry of the map and deletes the expired ones,
    counting them. *)
Definition cleanupInputSessions (now : Z)
    (inputSessions : gmap jsstring Session.t)
    : nat * gmap jsstring Session.t :=
  map_fold
    (fun token session '(removed, sessions) =>
       if decide (now - Session.createdAt session > INPUT_SESSION_TTL_MS CONFIG)%Z
       then (removed + 1, delete token sessions)
       else (removed, sessions))
    (0, inputSessions) inputSessions.

(** The loop of [normalizeInputAnswers] over [session.questions]. Both
    [rawAnswers[q.id]] and [rawAnswers[String(q.id)]] read the property named
    by the string form of [q.id]. The loop ends at the first question whose
    answer cannot be converted (it throws) or is empty (it returns [null]). *)
Fixpoint collectAnswers (rawAnswers : jsval) (qs : list Question.t)
    (answers : Answers) : option (option Answers) :=
  match qs with
  | [] => Some (Some answers)
  | q :: rest =>
      let raw := nullish (get_idx rawAnswers (Question.id q))
                         (get_idx rawAnswers (Question.id q)) in
      text ← clampText raw 200;
      if is_empty text then Some None
      else collectAnswers rawAnswers rest (answers_set (Question.id q) text answers)
  end.

Definition normalizeInputAnswers (session : Session.t) (payload : jsval)
    : option (option (jsstring * Answers)) :=
  if negb (truthy payload) || negb (typeof_object payload) then Some None else
  name ← clampText (get payload (str "name")) 12;
  if is_empty name then Some None else
  let rawAnswers := get payload (str "answers") in
  if negb (truthy rawAnswers) || negb (typeof_object rawAnswers)
  then Some None else
  answers ← collectAnswers rawAnswers (Session.questions session) [];
  Some (match answers with
        | None => None
        | Some answers => Some (name, answers)
        end).

(** The keyword list the answers handler builds, before [filter(Boolean)]. *)
Definition keywordMarkers (session : Session.t) (name : jsstring)
    (answers : Answers) : list jsstring :=
  [str "session:" ++ Session.sessionId session; str "name:" ++ name]
  ++ map (fun q =>
            trim (str "q" ++ NumberToString (Question.id q) ++ str ":"
                  ++ default (str "undefined") (answers_get (Question.id q) answers)))
         (Session.questions session).

(** [session.answeredAt = now; session.keywords = keywords]. *)
Definition answered (session : Session.t) (now : Z) (keywords : list jsstring)
    : Session.t :=
  {| Session.token := Session.token session;
     Session.createdAt := Session.createdAt session;
     Session.sessionId := Session.sessionId session;
     Session.questions := Session.questions session;
     Session.answeredAt := Some now;
     Session.keywords := Some keywords |}.

(** POST /api/input/session/:token/answers. [now_lookup] is the clock read
    inside [getInputSession], [now_answer] the one stored in [answeredAt].
    The handler has no [catch]: a TypeError of [normalizeInputAnswers] ends
    it before anything is stored. *)
Definition submitAnswers (now_lookup now_answer : Z) (token : jsstring)
    (body : jsval) (inputSessions : gmap jsstring Session.t)
    : Response * gmap jsstring Session.t :=
  match getInputSession now_lookup token inputSessions with
  | (None, sessions) => (RespError 404 NOT_FOUND, sessions)
  | (Some session, sessions) =>
      if time_set (Session.answeredAt session)
      then (RespError 409 ALREADY_USED, sessions) else
      match normalizeInputAnswers session body with
      | None => (RespUncaught (mkError TypeErrorMessage), sessions)
      | Some None => (RespError 400 INVALID_INPUT, sessions)
      | Some (Some (name, answers)) =>
          let keywords :=
            filter (fun k => negb (is_empty k) = true)
                   (keywordMarkers session name answers) in
          if decide (length keywords = 0)
          then (RespError 400 INVALID_INPUT, sessions) else
          (RespOk, <[token := answered session now_answer keywords]> sessions)
      end
  end.

(* ----------------------------------------------------------------- *)
(** *** Print queue *)

(** [job.claimedAt = null; job.claimedBy = null]. *)
Definition release (job : Job.t) : Job.t :=
  {| Job.id := Job.id job; Job.imageBase64 := Job.imageBase64 job;
     Job.meta := Job.meta job; Job.createdAt := Job.createdAt job;
     Job.claimedAt := None; Job.claimedBy := None;
     Job.failCount := Job.failCount job |}.

(** [job.claimedAt && now - job.claimedAt > CONFIG.PRINT_CLAIM_TTL_MS]. *)
Definition claim_stale (now : Z) (job : Job.t) : bool :=
  match Job.claimedAt job with
  | Some t => time_set (Some t) && bool_decide (now - t > PRINT_CLAIM_TTL_MS CONFIG)%Z
  | None => false
  end.

(** [now - job.createdAt > CONFIG.PRINT_JOB_TTL_MS || job.failCount >= MAX_FAILS]. *)
Definition evictable (now : Z) (job : Job.t) : bool :=
  bool_decide (now - Job.createdAt job > PRINT_JOB_TTL_MS CONFIG)%Z
  || bool_decide (Job.failCount job >= MAX_FAILS)%Z.

(** The loop of [cleanupQueue]: [n] indices remain, the next one visited is
    [n - 1]; the state is the queue and the flag [changed]. The index is
    always in range (see [cleanupQueue_loop_spec]). *)
Fixpoint cleanupQueue_loop (now : Z) (n : nat) (printQueue : list Job.t)
    (changed : bool) : list Job.t * bool :=
  match n with
  | O => (printQueue, changed)
  | S i =>
      match printQueue !! i with
      | None => (printQueue, changed)
      | Some job =>
          let stale := claim_stale now job in
          let job := if stale then release job else job in
          let printQueue := if stale then <[i := job]> printQueue else printQueue in
          let changed := changed || stale in
          if evictable now job
          then cleanupQueue_loop now i (delete i printQueue) true
          else cleanupQueue_loop now i printQueue changed
      end
  end.

Definition cleanupQueue (now : Z) (printQueue : list Job.t) : list Job.t * bool :=
  cleanupQueue_loop now (length printQueue) printQueue false.

Definition unclaimed (job : Job.t) : Prop := time_set (Job.claimedAt job) = false.

Definition pendingCount (printQueue : list Job.t) : nat :=
  length (filter unclaimed printQueue).

Definition emitQueueUpdate (printQueue : list Job.t) : list Event :=
  [print_queue_update (pendingCount printQueue)].

(** [enqueuePrintJob]; [jobId] is the value [uuidv4()] returns. *)
Definition enqueuePrintJob (jobId : jsstring) (now : Z) (imageBase64 : jsstring)
    (meta : jsval) (printQueue : list Job.t) : jsstring * list Job.t * list Event :=
  let printQueue :=
    printQueue ++ [ {| Job.id := jobId; Job.imageBase64 := imageBase64;
                       Job.meta := meta; Job.createdAt := now;
                       Job.claimedAt := None; Job.claimedBy := None;
                       Job.failCount := 0 |} ] in
  (jobId, printQueue, print_new_job jobId :: emitQueueUpdate printQueue).

(** POST /api/print. *)
Definition enqueue (jobId : jsstring) (now : Z) (body : jsval)
    (printQueue : list Job.t) : Response * list Job.t * list Event :=
  match get body (str "image") with
  | JString image =>
      if is_empty image then (RespError 400 INVALID_INPUT, printQueue, []) else
      let m := get body (str "meta") in
      let meta := if truthy m && typeof_object m then m else JObject [] in
      let '(jobId, printQueue, events) :=
        enqueuePrintJob jobId now image meta printQueue in
      (RespJobId jobId, printQueue, events)
  | _ => (RespError 400 INVALID_INPUT, printQueue, [])
  end.

(** [String(req.query.clientId || "unknown")]. The query parser of Express
    gives a string, an array or an object, so this conversion can throw. *)
Definition clientId_of (clientIdParam : jsval) : option jsstring :=
  ToString (if truthy clientIdParam then clientIdParam
            else JString (str "unknown")).

(** [nextJob.claimedAt = now; nextJob.claimedBy = clientId]. *)
Definition with_claim (job : Job.t) (now : Z) (clientId : jsstring) : Job.t :=
  {| Job.id := Job.id job; Job.imageBase64 := Job.imageBase64 job;
     Job.meta := Job.meta job; Job.createdAt := Job.createdAt job;
     Job.claimedAt := Some now; Job.claimedBy := Some clientId;
     Job.failCount := Job.failCount job |}.

(** [{ jobId: job.id, imageBase64: job.imageBase64, meta: job.meta || {} }]. *)
Definition job_response (job : Job.t) : Response :=
  RespJob (Job.id job) (Job.imageBase64 job)
          (if truthy (Job.meta job) then Job.meta job else JObject []).

(** GET /api/print/next. [now_gc] is the clock read inside [cleanupQueue],
    [now_claim] the one stored in [claimedAt]; [clientIdParam] is
    [req.query.clientId]. The handler has no [catch]: when the conversion of
    the client id throws, the pass has been made and no job is claimed. *)
Definition claimNext (now_gc now_claim : Z) (clientIdParam : jsval)
    (printQueue : list Job.t) : Response * list Job.t * list Event :=
  let '(printQueue, cleaned) := cleanupQueue now_gc printQueue in
  let events := if cleaned then emitQueueUpdate printQueue else [] in
  match clientId_of clientIdParam with
  | None => (RespUncaught (mkError TypeErrorMessage), printQueue, events)
  | Some clientId =>
      match list_find unclaimed printQueue with
      | None => (RespNoContent, printQueue, events)
      | Some (i, nextJob) =>
          let printQueue :=
            <[i := with_claim nextJob now_claim clientId]> printQueue in
          (job_response nextJob, printQueue, events ++ emitQueueUpdate printQueue)
      end
  end.

(** [job.failCount += 1; job.claimedAt = null; job.claimedBy = null]. *)
Definition record_failure (job : Job.t) : Job.t :=
  {| Job.id := Job.id job; Job.imageBase64 := Job.imageBase64 job;
     Job.meta := Job.meta job; Job.createdAt := Job.createdAt job;
     Job.claimedAt := None; Job.claimedBy := None;
     Job.failCount := (Job.failCount job + 1)%Z |}.

(** POST /api/print/:jobId/done. [status] is [req.body?.status]; the handler
    reads nothing else of the request but [message], which it only logs. *)
Definition reportOutcome (jobId : jsstring) (status : jsval)
    (printQueue : list Job.t) : Response * list Job.t * list Event :=
  match list_find (fun job => Job.id job = jobId) printQueue with
  | None => (RespError 404 NOT_FOUND, printQueue, [])
  | Some (jobIndex, job) =>
      if is_string status (str "printed") then
        let printQueue := delete jobIndex printQueue in
        (RespOk, printQueue, emitQueueUpdate printQueue)
      else if is_string status (str "failed") then
        let job := record_failure job in
        let printQueue := <[jobIndex := job]> printQueue in
        let printQueue :=
          if decide (Job.failCount job >= MAX_FAILS)%Z
          then delete jobIndex printQueue else printQueue in
        (RespOk, printQueue, emitQueueUpdate printQueue)
      else (RespError 400 INVALID_STATUS, printQueue, [])
  end.

(** The body of the 10-second timer. *)
Definition tick (now_queue now_sessions : Z) (printQueue : list Job.t)
    (inputSessions : gmap jsstring Session.t)
    : list Job.t * gmap jsstring Session.t * list Event :=
  let '(printQueue, cleaned) := cleanupQueue now_queue printQueue in
  (printQueue, (cleanupInputSessions now_sessions inputSessions).2,
   if cleaned then emitQueueUpdate printQueue else []).

End Server.

(* ================================================================= *)
(** ** Card text: escaping and line wrapping *)

(** [s.replace(/c/g, replacement)] for a pattern that is one literal unit and
    a replacement that has no [$] in it. *)
Definition replaceAll (c : N) (replacement s : jsstring) : jsstring :=
  flat_map (fun x => if (x =? c)%N then replacement else [x]) s.

(** [s.split(/\s+/)]: the pieces of [s] between its maximal runs of white
    space ([\s] is the set of units [trim] strips). [current] is the piece
    being read; [in_run] tells that the unit before was white space. *)
Fixpoint split_spaces_from (s current : jsstring) (in_run : bool)
    : list jsstring :=
  match s with
  | [] => [current]
  | c :: r =>
      if is_space c
      then if in_run then split_spaces_from r current true
           else current :: split_spaces_from r [] true
      else split_spaces_from r (current ++ [c]) false
  end.

Definition split_spaces (s : jsstring) : list jsstring :=
  split_spaces_from s [] false.

(** The loop of [wrapText] over the words that remain; [break] ends it. *)
Fixpoint wrapText_loop (words : list jsstring) (maxCharsPerLine maxLines : nat)
    (lines : list jsstring) (current : jsstring) : list jsstring * jsstring :=
  match words with
  | [] => (lines, current)
  | word :: rest =>
      let next :=
        if is_empty current then word else current ++ str " " ++ word in
      let '(lines, current) :=
        if decide (length next <= maxCharsPerLine) then (lines, next)
        else (if is_empty current then lines else lines ++ [current], word) in
      if decide (maxLines <= length lines) then (lines, current)
      else wrapText_loop rest maxCharsPerLine maxLines lines current
  end.

Section Rendering.
Context {platform : Platform}.

Definition escapeXml (value : jsval) : option jsstring :=
  text ← ToString value;
  Some (replaceAll 39 (str "&apos;")
          (replaceAll 34 (str "&quot;")
             (replaceAll 62 (str "&gt;")
                (replaceAll 60 (str "&lt;")
                   (replaceAll 38 (str "&amp;") text))))).

(** [wrapText(text, maxCharsPerLine, maxLines)] for limits that are natural
    numbers (the server calls it with 28 and 3). Like [escapeXml] it begins
    with a conversion to a string, and throws where that throws. *)
Definition wrapText (text : jsval) (maxCharsPerLine maxLines : nat)
    : option (list jsstring) :=
  converted ← ToString (nullish text (JString []));
  let clean := trim converted in
  if is_empty clean then Some [] else
  let words := split_spaces clean in
  let '(lines, current) :=
    wrapText_loop words maxCharsPerLine maxLines [] [] in
  let lines :=
    if bool_decide (length lines < maxLines) && negb (is_empty current)
    then lines ++ [current] else lines in
  Some (take maxLines lines).

End Rendering.

(* ================================================================= *)
(** ** The remaining routes *)

(** What GET /api/input/session/:token sends. *)
Inductive QuestionsReply :=
  | QuestionsError (status : nat) (code : ErrorCode)
  | QuestionsOk (sessionId : jsstring) (questions : list Question.t).

(** What GET /api/input/session/:token/status sends. *)
Inductive StatusReply :=
  | StatusError (status : nat) (code : ErrorCode)
  | StatusAnswered (keywords : list jsstring)
  | StatusPending.

(** What POST /api/generate sends. *)
Inductive GenerateReply :=
  | GenerateError (status : nat) (code : ErrorCode)
  | GenerateOk (cardId : jsstring) (cardData : CardData)
               (cardImageBase64 : jsstring).

Section Routes.
Context {platform : Platform} (CONFIG : Config).

(** GET /api/input/session/:token. *)
Definition sessionQuestions (now : Z) (token : jsstring)
    (inputSessions : gmap jsstring Session.t)
    : QuestionsReply * gmap jsstring Session.t :=
  match getInputSession CONFIG now token inputSessions with
  | (None, sessions) => (QuestionsError 404 NOT_FOUND, sessions)
  | (Some session, sessions) =>
      if time_set (Session.answeredAt session)
      then (QuestionsError 409 ALREADY_USED, sessions)
      else (QuestionsOk (Session.sessionId session) (Session.questions session),
            sessions)
  end.

(** GET /api/input/session/:token/status; [session.keywords || []]. *)
Definition sessionStatus (now : Z) (token : jsstring)
    (inputSessions : gmap jsstring Session.t)
    : StatusReply * gmap jsstring Session.t :=
  match getInputSession CONFIG now token inputSessions with
  | (None, sessions) => (StatusError 404 NOT_FOUND, sessions)
  | (Some session, sessions) =>
      if time_set (Session.answeredAt session)
      then (StatusAnswered (default [] (Session.keywords session)), sessions)
      else (StatusPending, sessions)
  end.

(** The keywords POST /api/generate works with: the entries of
    [req.body?.keywords] as trimmed strings, the empty ones dropped; none
    when the field is not an array. The [map] stops at the first entry
    that [String(k)] throws on. *)
Definition requestKeywords (body : jsval) : option (list jsstring) :=
  match get body (str "keywords") with
  | JArray ks =>
      texts ← mapM (fun k => trim <$> ToString k) ks;
      Some (filter (fun k => negb (is_empty k) = true) texts)
  | _ => Some []
  end.

(** POST /api/generate. [buildCardImageBase64] renders a card to a PNG with
    an image library and may throw; [cardId] is the value [uuidv4()] returns;
    [calls] counts the backend requests made so far. The whole handler is in
    a [try] whose [catch] answers AI_FAILED, also for a TypeError of the
    keywords. *)
Definition generateCard (buildCardImageBase64 : CardData -> Error + jsstring)
    (backend : nat -> Reply) (calls : nat) (cardId : jsstring) (body : jsval)
    : GenerateReply * nat :=
  match requestKeywords body with
  | None => (GenerateError 500 AI_FAILED, calls)
  | Some keywords =>
      if decide (length keywords = 0)
      then (GenerateError 400 INVALID_INPUT, calls) else
      match generateCardData backend calls with
      | (inl _, calls) => (GenerateError 500 AI_FAILED, calls)
      | (inr cardData, calls) =>
          match buildCardImageBase64 cardData with
          | inl _ => (GenerateError 500 AI_FAILED, calls)
          | inr cardImageBase64 =>
              (GenerateOk cardId cardData cardImageBase64, calls)
          end
      end
  end.

End Routes.

(* ================================================================= *)
(** ** A reference platform

    An executable instance of [Platform] for the examples: a JSON reader for
    objects, arrays, strings with the two-character escapes, the three
    literals, and decimal numbers without exponent; decimal printing of
    integers; reading of numeric strings written in plain decimal. It agrees
    with a JavaScript engine on every text the examples feed it; the theorems
    hold for every platform and do not depend on it. *)

Module Ref.

Definition is_json_ws (c : N) : bool :=
  ((c =? 32) || (c =? 9) || (c =? 10) || (c =? 13))%N.

Fixpoint skip_ws (s : jsstring) : jsstring :=
  match s with
  | c :: r => if is_json_ws c then skip_ws r else s
  | [] => []
  end.

Definition is_digit (c : N) : bool := ((48 <=? c) && (c <=? 57))%N.

(** Leading digits of [s]: their value, their number, and the rest. *)
Fixpoint digits (s : jsstring) (acc : Z) (count : nat) : Z * nat * jsstring :=
  match s with
  | c :: r =>
      if is_digit c then digits r (10 * acc + Z.of_N (c - 48))%Z (S count)
      else (acc, count, s)
  | [] => (acc, count, [])
  end.

(** [-? digits (. digits)?]; in JSON the integer part has no leading zero
    unless it is the single digit 0. *)
Definition number (json : bool) (s : jsstring) : option (jsnum * jsstring) :=
  let '(negative, s) :=
    match s with
    | 45 :: r => (true, r)
    | _ => (false, s)
    end%N in
  let leading_zero := match s with 48 :: _ => true | _ => false end%N in
  let '(int_part, int_count, s) := digits s 0 0 in
  if decide (int_count = 0) then None else
  if json && leading_zero && bool_decide (1 < int_count) then None else
  let sign (z : Z) := if negative : bool then (- z)%Z else z in
  match s with
  | 46%N :: r =>
      let '(frac_part, frac_count, s) := digits r 0 0 in
      if decide (frac_count = 0) then None else
      let den := (10 ^ Z.of_nat frac_count)%Z in
      Some (Finite (Q2Qc (Qmake (sign (int_part * den + frac_part)%Z)
                                (Z.to_pos den))), s)
  | _ => Some (num_of_Z (sign int_part), s)
  end.

(** The characters of a string literal after its opening quote. *)
Fixpoint string_body (s : jsstring) (acc : jsstring) : option (jsstring * jsstring) :=
  match s with
  | [] => None
  | 34%N :: r => Some (rev acc, r)
  | 92%N :: e :: r =>
      let unescaped :=
        (if e =? 34 then Some 34 else if e =? 92 then Some 92
         else if e =? 47 then Some 47 else if e =? 98 then Some 8
         else if e =? 102 then Some 12 else if e =? 110 then Some 10
         else if e =? 114 then Some 13 else if e =? 116 then Some 9
         else None)%N in
      match unescaped with
      | Some c => string_body r (c :: acc)
      | None => None
      end
  | c :: r => if (c <? 32)%N then None else string_body r (c :: acc)
  end.

Fixpoint props_set (k : jsstring) (v : jsval) (props : list (jsstring * jsval))
    : list (jsstring * jsval) :=
  match props with
  | [] => [(k, v)]
  | (k', v') :: r =>
      if decide (k' = k) then (k, v) :: r else (k', v') :: props_set k v r
  end.

Definition starts_with (lit s : jsstring) : option jsstring :=
  if decide (take (length lit) s = lit) then Some (drop (length lit) s) else None.

Fixpoint value (fuel : nat) (s : jsstring) : option (jsval * jsstring) :=
  match fuel with
  | O => None
  | S fuel =>
      match skip_ws s with
      | 123%N :: r =>
          match skip_ws r with
          | 125%N :: r => Some (JObject [], r)
          | r => members fuel r []
          end
      | 91%N :: r =>
          match skip_ws r with
          | 93%N :: r => Some (JArray [], r)
          | r => elements fuel r []
          end
      | 34%N :: r =>
          match string_body r [] with
          | Some (x, r) => Some (JString x, r)
          | None => None
          end
      | s =>
          match starts_with (str "true") s, starts_with (str "false") s,
                starts_with (str "null") s with
          | Some r, _, _ => Some (JBool true, r)
          | _, Some r, _ => Some (JBool false, r)
          | _, _, Some r => Some (JNull, r)
          | _, _, _ =>
              match number true s with
              | Some (n, r) => Some (JNumber n, r)
              | None => None
              end
          end
      end
  end
with members (fuel : nat) (s : jsstring) (acc : list (jsstring * jsval))
    : option (jsval * jsstring) :=
  match fuel with
  | O => None
  | S fuel =>
      match skip_ws s with
      | 34%N :: r =>
          match string_body r [] with
          | Some (k, r) =>
              match skip_ws r with
              | 58%N :: r =>
                  match value fuel r with
                  | Some (v, r) =>
                      match skip_ws r with
                      | 44%N :: r => members fuel r (props_set k v acc)
                      | 125%N :: r => Some (JObject (props_set k v acc), r)
                      | _ => None
                      end
                  | None => None
                  end
              | _ => None
              end
          | None => None
          end
      | _ => None
      end
  end
with elements (fuel : nat) (s : jsstring) (acc : list jsval)
    : option (jsval * jsstring) :=
  match fuel with
  | O => None
  | S fuel =>
      match value fuel s with
      | Some (v, r) =>
          match skip_ws r with
          | 44%N :: r => elements fuel r (acc ++ [v])
          | 93%N :: r => Some (JArray (acc ++ [v]), r)
          | _ => None
          end
      | None => None
      end
  end.

Definition parse (s : jsstring) : jsstring + jsval :=
  match value (S (length s)) s with
  | Some (v, r) =>
      if is_empty (skip_ws r) then inr v else inl (str "Unexpected token")
  | None => inl (str "Unexpected token")
  end.

(** Integers print as in JavaScript (those below 10^21, which is all the
    examples use); another finite number is printed as its reduced fraction. *)
Definition number_to_string (n : jsnum) : jsstring :=
  match n with
  | NaN => str "NaN"
  | Infinity true => str "-Infinity"
  | Infinity false => str "Infinity"
  | Finite q =>
      if isInteger n then str (NilZero.string_of_int (Z.to_int (Qnum (this q))))
      else str (NilZero.string_of_int (Z.to_int (Qnum (this q)))) ++ str "/"
           ++ str (NilZero.string_of_uint (Pos.to_uint (Qden (this q))))
  end.

Definition string_to_number (s : jsstring) : jsnum :=
  match trim s with
  | [] => num_of_Z 0
  | t =>
      match number false t with
      | Some (n, []) => n
      | _ => NaN
      end
  end.

#[export] Instance platform : Platform := {|
  JSON_parse := parse;
  NumberToString := number_to_string;
  StringToNumber := string_to_number;
  TypeErrorMessage := str "Cannot convert object to primitive value"
|}.

End Ref.

(** The values [CONFIG] takes when the environment sets none. *)
Definition defaultConfig : Config :=
  {| PRINT_JOB_TTL_MS := 300000;
     PRINT_CLAIM_TTL_MS := 60000;
     INPUT_SESSION_TTL_MS := 600000 |}.

(* ================================================================= *)
(** ** Sample data for the examples *)

Module Demo.

Definition quoted (s : string) : jsstring := 34%N :: str s ++ [34%N].

Definition card_json : jsstring :=
  str "{" ++ quoted "name" ++ str ":" ++ quoted "Nova" ++ str ","
  ++ quoted "class" ++ str ":" ++ quoted "Echo Rider" ++ str ","
  ++ quoted "stats" ++ str ":{" ++ quoted "sense" ++ str ":80,"
  ++ quoted "logic" ++ str ":72," ++ quoted "luck" ++ str ":40,"
  ++ quoted "charm" ++ str ":65," ++ quoted "vibe" ++ str ":91},"
  ++ quoted "skill" ++ str ":" ++ quoted "Photon Step" ++ str ","
  ++ quoted "description" ++ str ":" ++ quoted "Reads the room fast."
  ++ str "}".

Definition card : CardData :=
  {| name := str "Nova"; class := str "Echo Rider";
     stats := {| sense := num_of_Z 80; logic := num_of_Z 72;
                 luck := num_of_Z 40; charm := num_of_Z 65;
                 vibe := num_of_Z 91 |};
     skill := str "Photon Step"; description := str "Reads the room fast." |}.

Definition prose_wrapped : jsstring := str "here is your json: " ++ card_json.

Definition chat_reply (content : jsstring) : Reply :=
  Body (JObject [(str "message", JObject [(str "content", JString content)])]).

Definition flaky_backend (k : nat) : Reply :=
  match k with
  | 0 => Thrown (mkError (str "fetch failed"))
  | 1 => chat_reply (str "I cannot do that")
  | _ => chat_reply prose_wrapped
  end.

Definition dead_backend (k : nat) : Reply :=
  match k with
  | 0 => Thrown (mkError (str "fetch failed"))
  | 1 => chat_reply (str "I cannot do that")
  | 2 => chat_reply (str "{}")
  | _ => chat_reply card_json
  end.

Definition job (id : string) (createdAt : Z) : Job.t :=
  {| Job.id := str id; Job.imageBase64 := str "iVBORw0KGgo=";
     Job.meta := JObject []; Job.createdAt := createdAt;
     Job.claimedAt := None; Job.claimedBy := None; Job.failCount := 0 |}.

Definition question (id : Z) (text : string) : jsval :=
  JObject [(str "id", JNumber (num_of_Z id)); (str "text", JString (str text))].

(** Four entries, two of them with the id 1 and one with a text of 42 units. *)
Definition repeated_ids : jsval :=
  JObject [(str "session_id", JString (str "8b0f7c2e"));
           (str "questions",
            JArray [question 1 "Coffee or tea?";
                    question 1 "Stairs or lift?";
                    question 2 "Which app did you open first this morning?";
                    question 3 "Window or aisle?"])].

(** A card whose stats are a boolean, two numeric strings, an array and a
    number. *)
Definition loosely_typed_card : jsval :=
  JObject [(str "name", JString (str "Nova"));
           (str "class", JString (str "Echo Rider"));
           (str "skill", JString (str "Photon Step"));
           (str "description", JString (str "Reads the room fast."));
           (str "stats",
            JObject [(str "sense", JBool true);
                     (str "logic", JString (str "50"));
                     (str "luck", JString (str " 100 "));
                     (str "charm", JArray [JNumber (num_of_Z 7)]);
                     (str "vibe", JNumber (num_of_Z 91))])].

Definition session : Session.t :=
  {| Session.token := str "tok-1"; Session.createdAt := 1000;
     Session.sessionId := str "8b0f7c2e";
     Session.questions :=
       [ {| Question.id := num_of_Z 1; Question.text := str "Coffee or tea?" |};
         {| Question.id := num_of_Z 2; Question.text := str "Stairs or lift?" |} ];
     Session.answeredAt := None; Session.keywords := None |}.

Definition sessions : gmap jsstring Session.t := {[ str "tok-1" := session ]}.

Definition answers (second : string) : jsval :=
  JObject [(str "name", JString (str " Mina "));
           (str "answers",
            JObject [(str "1", JString (str "tea"));
                     (str "2", JString (str second))])].



End Demo.

(** Further sample data: a reply of the model that holds a question set,
    and a queue of two jobs. *)
Module Samples.
Import Demo.

Definition question_json (id text : string) : jsstring :=
  str "{" ++ quoted "id" ++ str ":" ++ str id ++ str ","
  ++ quoted "text" ++ str ":" ++ quoted text ++ str "}".

Definition questions_json : jsstring :=
  str "{" ++ quoted "session_id" ++ str ":" ++ quoted "8b0f7c2e" ++ str ","
  ++ quoted "questions" ++ str ":["
  ++ question_json "1" "Coffee or tea?" ++ str ","
  ++ question_json "2" "Stairs or lift?" ++ str ","
  ++ question_json "3" "Window or aisle?" ++ str ","
  ++ question_json "4" "Early or late?" ++ str "]}".

Definition question_set : QuestionSet :=
  {| sessionId := str "8b0f7c2e";
     questions :=
       [ {| Question.id := num_of_Z 1; Question.text := str "Coffee or tea?" |};
         {| Question.id := num_of_Z 2; Question.text := str "Stairs or lift?" |};
         {| Question.id := num_of_Z 3; Question.text := str "Window or aisle?" |};
         {| Question.id := num_of_Z 4; Question.text := str "Early or late?" |} ] |}.

Definition questions_backend (k : nat) : Reply := chat_reply questions_json.

(** A backend that answers with a question set at the third request. *)
Definition flaky_questions_backend (k : nat) : Reply :=
  match k with
  | 0 => Thrown (mkError (str "fetch failed"))
  | 1 => Body (JObject [(str "done", JBool true)])
  | _ => chat_reply questions_json
  end.

Definition pending_session : Session.t :=
  {| Session.token := str "tok-9"; Session.createdAt := 1000;
     Session.sessionId := sessionId question_set;
     Session.questions := questions question_set;
     Session.answeredAt := None; Session.keywords := None |}.

Definition two_jobs : list Job.t := [job "A" 1000; job "B" 2000].

Definition print_request : jsval :=
  JObject [(str "image", JString (str "iVBORw0KGgo="))].

End Samples.

(* ================================================================= *)
(** * Notions used in the statements *)

(** The operations that touch the print queue, and their effect on it. *)
Inductive QueueOp :=
  | OpEnqueue (jobId : jsstring) (now : Z) (body : jsval)
  | OpClaimNext (now_gc now_claim : Z) (clientIdParam : jsval)
  | OpReportOutcome (jobId : jsstring) (status : jsval)
  | OpCleanup (now : Z).

(** [job'] is [job] at a later time: the same identity and payload, and a
    fail count that is not smaller. *)
Definition descends (job job' : Job.t) : Prop :=
  Job.id job' = Job.id job /\ Job.imageBase64 job' = Job.imageBase64 job
  /\ Job.meta job' = Job.meta job /\ Job.createdAt job' = Job.createdAt job
  /\ (Job.failCount job <= Job.failCount job')%Z.

(** [job'] was put in the queue by one of [ops]. *)
Definition enqueued_by (ops : list QueueOp) (job' : Job.t) : Prop :=
  exists jobId now body,
    OpEnqueue jobId now body ∈ ops /\ Job.id job' = jobId
    /\ Job.createdAt job' = now /\ (0 <= Job.failCount job')%Z.

(** The job a report designates: the first one, in queue order, with the id. *)
Definition designates (jobId : jsstring) (printQueue : list Job.t)
    (i : nat) (job : Job.t) : Prop :=
  printQueue !! i = Some job /\ Job.id job = jobId
  /\ forall k job0, printQueue !! k = Some job0 -> k < i -> Job.id job0 <> jobId.

(** A fail count below the cap. *)
Definition below_cap (job : Job.t) : Prop := (Job.failCount job < MAX_FAILS)%Z.

(** The four text fields of a card. *)
Definition text_keys : list jsstring :=
  [str "name"; str "class"; str "skill"; str "description"].

(** The five stat fields, and the values a stat may end up with. *)
Definition stat_keys : list jsstring :=
  [str "sense"; str "logic"; str "luck"; str "charm"; str "vibe"].

Definition in_range (n : jsnum) : Prop :=
  exists z, n = num_of_Z z /\ (1 <= z <= 100)%Z.

(** [raw.stats[key]]. *)
Definition rawStat (raw : jsval) (key : jsstring) : jsval :=
  get (get raw (str "stats")) key.

(** What [normalizeQuestions] guarantees of a set it returns. *)
Definition well_formed_questions (qs : QuestionSet) : Prop :=
  4 <= length (questions qs) <= 5
  /\ sessionId qs <> [] /\ length (sessionId qs) <= 64
  /\ forall q, q ∈ questions qs ->
       (exists z, Question.id q = num_of_Z z /\ (1 <= z)%Z)
       /\ Question.text q <> [] /\ length (Question.text q) <= 30.

(** [span] is the part of [t] from its first opening brace to its last
    closing brace, the latter coming after the former. *)
Definition brace_span (t span : jsstring) : Prop :=
  exists pre mid post,
    t = pre ++ 123%N :: mid ++ 125%N :: post
    /\ (123%N ∉ pre) /\ (125%N ∉ post) /\ span = 123%N :: mid ++ [125%N].

(** The errors that name a JSON parse failure. *)
Definition parse_error (e : Error) : Prop :=
  exists detail,
    message e = str "JSON parse failed: " ++ detail
    \/ message e = str "Question JSON parse failed: " ++ detail.

(** How the result of a generation call that starts with [n] requests made
    relates to its attempts, [attempt k] being the outcome of the attempt
    that uses request [n + k]: between one and three requests are made; the
    first attempt that succeeds, every earlier one having failed, gives the
    result after [k + 1] requests; when all three fail the result is the
    error of the third; and an error is the result only in that case. *)
Definition three_attempts {A} (attempt : nat -> Error + A) (n : nat)
    (result : (Error + A) * nat) : Prop :=
  n < result.2 <= n + 3
  /\ (forall k v, k < 3 ->
        (forall j, j < k -> exists e, attempt j = inl e) ->
        attempt k = inr v -> result = (inr v, n + k + 1))
  /\ (forall e, (forall j, j < 3 -> exists e', attempt j = inl e') ->
        attempt 2 = inl e -> result = (inl e, n + 3))
  /\ (forall e, result.1 = inl e ->
        result.2 = n + 3 /\ attempt 2 = inl e
        /\ forall j, j < 3 -> exists e', attempt j = inl e').

Section Notions.
Context {platform : Platform} (CONFIG : Config).

Definition queue_step (op : QueueOp) (printQueue : list Job.t) : list Job.t :=
  match op with
  | OpEnqueue jobId now body => (enqueue jobId now body printQueue).1.2
  | OpClaimNext now_gc now_claim clientIdParam =>
      (claimNext CONFIG now_gc now_claim clientIdParam printQueue).1.2
  | OpReportOutcome jobId status => (reportOutcome jobId status printQueue).1.2
  | OpCleanup now => (cleanupQueue CONFIG now printQueue).1
  end.

Definition queue_run (ops : list QueueOp) (printQueue : list Job.t) : list Job.t :=
  fold_left (fun q op => queue_step op q) ops printQueue.

(** What one pass does to a single job: the claim test, then the eviction
    test on the job as the claim test left it. *)
Definition release_if_stale (now : Z) (job : Job.t) : Job.t :=
  if claim_stale CONFIG now job then release job else job.

Definition survives (now : Z) (job : Job.t) : Prop :=
  evictable CONFIG now job = false.

#[global] Instance survives_dec now job : Decision (survives now job).
Proof. unfold survives. apply _. Defined.

Definition sweep (now : Z) (printQueue : list Job.t) : list Job.t :=
  filter (survives now) (release_if_stale now <$> printQueue).

Definition sweep_changes (now : Z) (printQueue : list Job.t) : bool :=
  existsb (fun job => claim_stale CONFIG now job || evictable CONFIG now job)
          printQueue.

Definition expired (now : Z) (session : Session.t) : Prop :=
  (now - Session.createdAt session > INPUT_SESSION_TTL_MS CONFIG)%Z.




(** What a value reads as once converted to a string and trimmed, [null] and
    [undefined] counting as the empty string; [None] when the conversion
    throws. *)
Definition trimmedText (v : jsval) : option jsstring :=
  trim <$> ToString (nullish v (JString [])).

(** An entry of [raw.questions] that the callback of [normalizeQuestions]
    turns into a question. *)
Definition entry_ok (e : jsval) : Prop :=
  truthy e = true /\ typeof_object e = true
  /\ (exists z, ToNumber (get e (str "id")) = Some (num_of_Z z) /\ (1 <= z)%Z)
  /\ (exists text, trimmedText (get e (str "text")) = Some text /\ text <> []).

(** An entry on which the callback throws: an object whose id or text
    cannot be converted. *)
Definition entry_throws (e : jsval) : Prop :=
  truthy e = true /\ typeof_object e = true
  /\ (ToNumber (get e (str "id")) = None
      \/ trimmedText (get e (str "text")) = None).

Definition question_of (e : jsval) : option Question.t :=
  id ← ToNumber (get e (str "id"));
  text ← clampText (get e (str "text")) 30;
  Some {| Question.id := id; Question.text := text |}.

(** A validation that does not accept: it throws or it returns [null]. *)
Definition refused {A} (outcome : option (option A)) : Prop :=
  outcome = None \/ outcome = Some None.

(** Validation of a parsed value, as the end of an attempt applies it. *)
Definition validateCard (v : jsval) : Error + CardData :=
  match normalizeCardData v with
  | None => inl (mkError TypeErrorMessage)
  | Some None => inl (mkError (str "Schema validation failed"))
  | Some (Some normalized) => inr normalized
  end.

Definition validateQuestions (v : jsval) : Error + QuestionSet :=
  match normalizeQuestions v with
  | None => inl (mkError TypeErrorMessage)
  | Some None => inl (mkError (str "Question schema validation failed"))
  | Some (Some normalized) => inr normalized
  end.

End Notions.

(* ----------------------------------------------------------------- *)
(** ** Notions for the further properties *)

(** The text [escapeXml] puts for one unit, and the five units it replaces. *)
Definition entity (c : N) : jsstring :=
  if (c =? 38)%N then str "&amp;" else if (c =? 60)%N then str "&lt;"
  else if (c =? 62)%N then str "&gt;" else if (c =? 34)%N then str "&quot;"
  else if (c =? 39)%N then str "&apos;" else [c].

Definition markup : list N := [38; 60; 62; 34; 39]%N.

(** Words joined by single spaces. *)
Fixpoint join_space (ws : list jsstring) : jsstring :=
  match ws with
  | [] => []
  | [w] => w
  | w :: r => w ++ str " " ++ join_space r
  end.

(** A word: not empty, and with no white space in it. *)
Definition is_word (w : jsstring) : Prop :=
  w <> [] /\ Forall (fun c => is_space c = false) w.

(** The words of a line of wrapped text: there is one at least, and they fit
    the width unless the line is a single word. *)
Definition line_ok (maxCharsPerLine : nat) (group : list jsstring) : Prop :=
  group <> []
  /\ (length (join_space group) <= maxCharsPerLine \/ exists word, group = [word]).

(** Every line is full: the word that follows it would not have fitted. *)
Fixpoint tight (maxCharsPerLine : nat) (groups : list (list jsstring))
    (rest : list jsstring) : Prop :=
  match groups with
  | [] => True
  | g :: gs =>
      match concat gs ++ rest with
      | [] => True
      | word :: _ => maxCharsPerLine < length (join_space (g ++ [word]))
      end
      /\ tight maxCharsPerLine gs rest
  end.

Section MoreNotions.
Context {platform : Platform} (CONFIG : Config).

(** The sessions of a store that have not expired at [now]. *)
Definition live_sessions (now : Z) (inputSessions : gmap jsstring Session.t)
    : gmap jsstring Session.t :=
  filter (fun entry =>
            (now - Session.createdAt entry.2 <= INPUT_SESSION_TTL_MS CONFIG)%Z)
         inputSessions.

(** What an operation on the print queue broadcasts; for the pass of the
    timer, what [tick] does. *)
Definition queue_events (op : QueueOp) (printQueue : list Job.t) : list Event :=
  match op with
  | OpEnqueue jobId now body => (enqueue jobId now body printQueue).2
  | OpClaimNext now_gc now_claim clientIdParam =>
      (claimNext CONFIG now_gc now_claim clientIdParam printQueue).2
  | OpReportOutcome jobId status => (reportOutcome jobId status printQueue).2
  | OpCleanup now => (tick CONFIG now now printQueue ∅).2
  end.

End MoreNotions.

(** An operation that leaves a claim on the job [jobId] in force, the claim
    lasting until [deadline]: it is no report about the job, it does not
    enqueue a job of that id, and its pass, if it makes one, is not later
    than the deadline. *)
Definition respects_lease (jobId : jsstring) (deadline : Z) (op : QueueOp)
    : Prop :=
  match op with
  | OpEnqueue jobId' _ _ => jobId' <> jobId
  | OpClaimNext now_gc _ _ => (now_gc <= deadline)%Z
  | OpReportOutcome jobId' _ => jobId' <> jobId
  | OpCleanup now => (now <= deadline)%Z
  end.

(** The job POST /api/print puts in the queue. *)
Definition fresh_job (jobId : jsstring) (now : Z) (image : jsstring)
    (meta : jsval) : Job.t :=
  {| Job.id := jobId; Job.imageBase64 := image; Job.meta := meta;
     Job.createdAt := now; Job.claimedAt := None; Job.claimedBy := None;
     Job.failCount := 0 |}.

(** A text as [clampText] returns it when it is not empty: at most [maxLen]
    units, the first of which is no white space. *)
Definition clamped (maxLen : nat) (s : jsstring) : Prop :=
  s <> [] /\ length s <= maxLen
  /\ forall c r, s = c :: r -> is_space c = false.

(** The bounds of the card schema. *)
Definition well_formed_card (card : CardData) : Prop :=
  clamped 12 (name card) /\ clamped 15 (class card)
  /\ clamped 20 (skill card) /\ clamped 60 (description card)
  /\ Forall in_range [sense (stats card); logic (stats card);
                      luck (stats card); charm (stats card);
                      vibe (stats card)].

(** What holds of every job the server keeps: a fail count below the cap, a
    claim time and a claimant that are there together or not at all, an image
    that is not empty, and a [meta] that is an object. *)
Definition job_ok (job : Job.t) : Prop :=
  (0 <= Job.failCount job < MAX_FAILS)%Z
  /\ (Job.claimedAt job = None <-> Job.claimedBy job = None)
  /\ Job.imageBase64 job <> []
  /\ truthy (Job.meta job) = true /\ typeof_object (Job.meta job) = true.

(** The requests that touch the session store, and the sweep of the timer. *)
Inductive SessionOp :=
  | OpStartSession (backend : nat -> Reply) (calls : nat) (token : jsstring)
                   (createdAt : Z)
  | OpSessionQuestions (now : Z) (token : jsstring)
  | OpSessionStatus (now : Z) (token : jsstring)
  | OpSubmitAnswers (now_lookup now_answer : Z) (token : jsstring) (body : jsval)
  | OpSweep (now : Z).

(** What holds of every session the server keeps under [token]: it carries
    that token, its questions are well formed, and it has a time of answer
    exactly when it has keywords, of which there are then two more than there
    are questions. *)
Definition session_ok (token : jsstring) (session : Session.t) : Prop :=
  Session.token session = token
  /\ well_formed_questions {| sessionId := Session.sessionId session;
                              questions := Session.questions session |}
  /\ (Session.answeredAt session = None <-> Session.keywords session = None)
  /\ forall keywords, Session.keywords session = Some keywords ->
       length keywords = 2 + length (Session.questions session).

Section StoreNotions.
Context {platform : Platform} (CONFIG : Config).

Definition session_step (op : SessionOp)
    (inputSessions : gmap jsstring Session.t) : gmap jsstring Session.t :=
  match op with
  | OpStartSession backend calls token createdAt =>
      (startSession CONFIG backend calls token createdAt inputSessions).1.2
  | OpSessionQuestions now token =>
      (sessionQuestions CONFIG now token inputSessions).2
  | OpSessionStatus now token =>
      (sessionStatus CONFIG now token inputSessions).2
  | OpSubmitAnswers now_lookup now_answer token body =>
      (submitAnswers CONFIG now_lookup now_answer token body inputSessions).2
  | OpSweep now => (cleanupInputSessions CONFIG now inputSessions).2
  end.

Definition session_run (ops : list SessionOp)
    (inputSessions : gmap jsstring Session.t) : gmap jsstring Session.t :=
  fold_left (fun m op => session_step op m) ops inputSessions.

End StoreNotions.

(* ================================================================= *)
(** * Properties *)

(* ----------------------------------------------------------------- *)
(** ** The garbage-collection pass in closed form *)

Section QueueFacts.
Context {platform : Platform} (CONFIG : Config).

Lemma evictable_release now job :
  evictable CONFIG now (release job) = evictable CONFIG now job.
Proof. reflexivity. Qed.

Lemma evictable_release_if_stale now job :
  evictable CONFIG now (release_if_stale CONFIG now job) = evictable CONFIG now job.
Proof. unfold release_if_stale. destruct (claim_stale CONFIG now job); reflexivity. Qed.

Lemma sweep_snoc now pre job :
  sweep CONFIG now (pre ++ [job]) =
  sweep CONFIG now pre ++
  (if evictable CONFIG now job then [] else [release_if_stale CONFIG now job]).
Proof.
  unfold sweep. rewrite fmap_app, filter_app. f_equal. simpl.
  rewrite filter_cons, filter_nil. unfold survives.
  rewrite <- (evictable_release_if_stale now job).
  destruct (decide _) as [E|E]; destruct (evictable _ _ _); congruence.
Qed.

Lemma sweep_app now l1 l2 :
  sweep CONFIG now (l1 ++ l2) = sweep CONFIG now l1 ++ sweep CONFIG now l2.
Proof. unfold sweep. by rewrite fmap_app, filter_app. Qed.

Lemma sweep_singleton now job :
  sweep CONFIG now [job] =
  if evictable CONFIG now job then [] else [release_if_stale CONFIG now job].
Proof. apply (sweep_snoc now [] job). Qed.

Lemma sweep_changes_snoc now pre job :
  sweep_changes CONFIG now (pre ++ [job]) =
  sweep_changes CONFIG now pre || (claim_stale CONFIG now job || evictable CONFIG now job).
Proof. unfold sweep_changes. rewrite existsb_app. simpl. by rewrite orb_false_r. Qed.

(** The loop, started below a prefix [pre] of the queue, sweeps that prefix
    and leaves the rest as it is; no index it visits is out of range. *)
Lemma cleanupQueue_loop_spec now pre post changed :
  cleanupQueue_loop CONFIG now (length pre) (pre ++ post) changed =
  (sweep CONFIG now pre ++ post, changed || sweep_changes CONFIG now pre).
Proof.
  revert post changed. induction pre as [|job pre IH] using rev_ind;
    intros post changed.
  - simpl. by rewrite orb_false_r.
  - rewrite length_app, Nat.add_1_r. simpl.
    rewrite <- app_assoc. simpl.
    rewrite list_lookup_middle by done.
    rewrite sweep_snoc, sweep_changes_snoc.
    assert (Hins : <[length pre := release job]> (pre ++ job :: post)
                   = pre ++ release job :: post).
    { by rewrite insert_app_r_alt, Nat.sub_diag by lia. }
    assert (Hdel : forall x, delete (length pre) (pre ++ x :: post) = pre ++ post).
    { intros x. by rewrite delete_middle. }
    unfold release_if_stale.
    destruct (claim_stale CONFIG now job) eqn:Hst; simpl.
    + rewrite Hins, evictable_release.
      destruct (evictable CONFIG now job) eqn:Hev.
      * rewrite Hdel, IH, app_nil_r. f_equal.
        by destruct changed, (sweep_changes CONFIG now pre).
      * rewrite IH, <- app_assoc. simpl. f_equal.
        by destruct changed, (sweep_changes CONFIG now pre).
    + destruct (evictable CONFIG now job) eqn:Hev.
      * rewrite Hdel, IH, app_nil_r. f_equal.
        by destruct changed, (sweep_changes CONFIG now pre).
      * rewrite IH, <- app_assoc. simpl. f_equal.
        by destruct changed, (sweep_changes CONFIG now pre).
Qed.

Lemma cleanupQueue_spec now printQueue :
  cleanupQueue CONFIG now printQueue =
  (sweep CONFIG now printQueue, sweep_changes CONFIG now printQueue).
Proof.
  unfold cleanupQueue.
  rewrite <- (app_nil_r printQueue) at 2.
  rewrite cleanupQueue_loop_spec. by rewrite app_nil_r.
Qed.

Lemma elem_of_sweep now printQueue job' :
  job' ∈ sweep CONFIG now printQueue <->
  exists job, job ∈ printQueue /\ job' = release_if_stale CONFIG now job
              /\ evictable CONFIG now job = false.
Proof.
  unfold sweep. rewrite list_elem_of_filter, list_elem_of_fmap. unfold survives.
  split.
  - intros (Hs & job & -> & Hin). exists job.
    by rewrite evictable_release_if_stale in Hs.
  - intros (job & Hin & -> & Hs). rewrite evictable_release_if_stale. eauto.
Qed.

Lemma evictable_false now job :
  evictable CONFIG now job = false <->
  (now - Job.createdAt job <= PRINT_JOB_TTL_MS CONFIG)%Z
  /\ (Job.failCount job < MAX_FAILS)%Z.
Proof.
  unfold evictable. rewrite orb_false_iff, !bool_decide_eq_false. lia.
Qed.

Lemma claim_stale_true now job :
  claim_stale CONFIG now job = true <->
  exists t, Job.claimedAt job = Some t /\ t <> 0%Z
            /\ (now - t > PRINT_CLAIM_TTL_MS CONFIG)%Z.
Proof.
  unfold claim_stale. destruct (Job.claimedAt job) as [t|]; simpl.
  - rewrite andb_true_iff, negb_true_iff, Z.eqb_neq, bool_decide_eq_true.
    split; [intros [? ?]; eauto | intros (? & [= <-] & ? & ?); eauto].
  - split; [done | intros (? & [=] & _)].
Qed.

Lemma descends_refl job : descends job job.
Proof. unfold descends. repeat split; lia. Qed.

Lemma descends_trans a b c : descends a b -> descends b c -> descends a c.
Proof.
  unfold descends. intros (?&?&?&?&?) (?&?&?&?&?).
  repeat split; try congruence; lia.
Qed.

Lemma descends_release_if_stale now job : descends job (release_if_stale CONFIG now job).
Proof.
  unfold release_if_stale. destruct (claim_stale CONFIG now job);
    [unfold descends; simpl; repeat split; lia | apply descends_refl].
Qed.

Lemma sweep_descends now printQueue job' :
  job' ∈ sweep CONFIG now printQueue ->
  exists job, job ∈ printQueue /\ descends job job'.
Proof.
  intros (job & Hin & -> & _)%elem_of_sweep.
  exists job. split; [done | apply descends_release_if_stale].
Qed.

Lemma delete_insert_same {A} (l : list A) i x : delete i (<[i := x]> l) = delete i l.
Proof.
  revert i. induction l as [|y l IH]; intros [|i]; simpl; try done.
  by rewrite IH.
Qed.

Lemma elem_of_insert_inv {A} (l : list A) i x y :
  y ∈ <[i := x]> l -> y = x \/ y ∈ l.
Proof.
  intros [j Hj]%list_elem_of_lookup.
  apply list_lookup_insert_Some in Hj as [(-> & -> & _) | (_ & Hj)]; [by left|].
  right. apply list_elem_of_lookup. eauto.
Qed.

(** One operation: every job of the new queue is a job of the old queue with
    a fail count that did not shrink, or the job this operation enqueued. *)
Lemma queue_step_descends op printQueue job' :
  job' ∈ queue_step CONFIG op printQueue ->
  (exists job, job ∈ printQueue /\ descends job job')
  \/ (exists jobId now body, op = OpEnqueue jobId now body
        /\ Job.id job' = jobId /\ Job.createdAt job' = now
        /\ Job.failCount job' = 0%Z).
Proof.
  destruct op as [jobId now body | now_gc now_claim c | jobId status | now]; simpl.
  - unfold enqueue.
    destruct (get body (str "image")) as [| | | |image| |];
      try (by intros; left; eauto using descends_refl).
    destruct (is_empty image); simpl; [by left; eauto using descends_refl|].
    intros [Hin | ->%list_elem_of_singleton]%elem_of_app.
    + left; eauto using descends_refl.
    + right. by exists jobId, now, body.
  - unfold claimNext. rewrite cleanupQueue_spec.
    destruct (clientId_of c) as [clientId|];
      [|simpl; intros Hin; left; by apply sweep_descends in Hin].
    destruct (list_find _ _) as [[i nextJob]|] eqn:Hfind; simpl.
    + intros [-> | Hin]%elem_of_insert_inv.
      * apply list_find_Some in Hfind as (Hi & _ & _).
        apply list_elem_of_lookup_2 in Hi.
        apply sweep_descends in Hi as (job & Hin & Hd).
        left. exists job. split; [done|].
        eapply descends_trans; [exact Hd|].
        unfold descends; simpl; repeat split; lia.
      * left. by apply sweep_descends in Hin.
    + intros Hin. left. by apply sweep_descends in Hin.
  - unfold reportOutcome.
    destruct (list_find _ _) as [[i job]|] eqn:Hfind; simpl;
      [|left; eauto using descends_refl].
    apply list_find_Some in Hfind as (Hi & _ & _).
    apply list_elem_of_lookup_2 in Hi.
    destruct (is_string status (str "printed")); simpl.
    { intros Hin%list_elem_of_delete_inv. left; eauto using descends_refl. }
    destruct (is_string status (str "failed")); simpl;
      [|left; eauto using descends_refl].
    intros Hin.
    assert (Hin' : job' ∈ <[i := record_failure job]> printQueue).
    { destruct (decide _); [by apply list_elem_of_delete_inv in Hin | done]. }
    apply elem_of_insert_inv in Hin' as [-> | Hin'];
      [|left; eauto using descends_refl].
    left. exists job. split; [done|].
    unfold descends; simpl; repeat split; lia.
  - rewrite cleanupQueue_spec. simpl. intros Hin. left.
    by apply sweep_descends in Hin.
Qed.

Lemma queue_run_descends ops printQueue job' :
  job' ∈ queue_run CONFIG ops printQueue ->
  (exists job, job ∈ printQueue /\ descends job job') \/ enqueued_by ops job'.
Proof.
  unfold queue_run. revert printQueue.
  induction ops as [|op ops IH]; intros printQueue; simpl.
  - intros Hin. left. eauto using descends_refl.
  - intros [(job1 & Hin1 & Hd1) | (jobId & now & body & Hop & ? & ? & ?)]%IH.
    + apply queue_step_descends in Hin1
        as [(job & Hin & Hd) | (jobId & now & body & -> & Hid & Hc & Hf)].
      * left. exists job. eauto using descends_trans.
      * right. exists jobId, now, body. destruct Hd1 as (?&?&?&?&?).
        repeat split; [apply elem_of_cons; by left | congruence.. | lia].
    + right. exists jobId, now, body.
      repeat split; [apply elem_of_cons; by right | done..].
Qed.

Lemma release_if_stale_fields now job :
  Job.id (release_if_stale CONFIG now job) = Job.id job
  /\ Job.imageBase64 (release_if_stale CONFIG now job) = Job.imageBase64 job
  /\ Job.meta (release_if_stale CONFIG now job) = Job.meta job
  /\ Job.createdAt (release_if_stale CONFIG now job) = Job.createdAt job
  /\ Job.failCount (release_if_stale CONFIG now job) = Job.failCount job.
Proof. unfold release_if_stale. by destruct (claim_stale CONFIG now job). Qed.

Lemma release_if_stale_stale now job t :
  Job.claimedAt job = Some t -> t <> 0%Z ->
  (now - t > PRINT_CLAIM_TTL_MS CONFIG)%Z ->
  release_if_stale CONFIG now job = release job.
Proof.
  intros Ht Hnz Hold. unfold release_if_stale.
  replace (claim_stale CONFIG now job) with true; [done|].
  symmetry. apply claim_stale_true. eauto.
Qed.

Lemma release_if_stale_fresh now job :
  (forall t, Job.claimedAt job = Some t ->
             (now - t <= PRINT_CLAIM_TTL_MS CONFIG)%Z) ->
  release_if_stale CONFIG now job = job.
Proof.
  intros Hfresh. unfold release_if_stale.
  destruct (claim_stale CONFIG now job) eqn:Hst; [|done].
  apply claim_stale_true in Hst as (t & Ht & _ & Hold).
  specialize (Hfresh t Ht). lia.
Qed.

(** C3. After one garbage-collection pass at time [now], a job of the queue
    is still there (as the pass left it) exactly when
    [now - createdAt <= PRINT_JOB_TTL_MS] and [failCount < MAX_FAILS],
    whatever its claim; nothing else is in the queue afterwards; a job whose
    claim was older than [PRINT_CLAIM_TTL_MS] has that claim cleared, and the
    pass changes the fail count, identity and payload of no job. Over any
    sequence of queue operations (enqueue, claim, outcome report, pass) the
    fail count of a job never decreases. *)
Theorem cleanupQueue_retention now printQueue :
  let result := (cleanupQueue CONFIG now printQueue).1 in
  (forall job, job ∈ printQueue ->
     release_if_stale CONFIG now job ∈ result <->
     (now - Job.createdAt job <= PRINT_JOB_TTL_MS CONFIG)%Z
     /\ (Job.failCount job < MAX_FAILS)%Z)
  /\ (forall job', job' ∈ result ->
        exists job, job ∈ printQueue /\ job' = release_if_stale CONFIG now job)
  /\ (forall job,
        Job.failCount (release_if_stale CONFIG now job) = Job.failCount job
        /\ Job.id (release_if_stale CONFIG now job) = Job.id job
        /\ Job.createdAt (release_if_stale CONFIG now job) = Job.createdAt job
        /\ (forall t, Job.claimedAt job = Some t -> t <> 0%Z ->
               (now - t > PRINT_CLAIM_TTL_MS CONFIG)%Z ->
               Job.claimedAt (release_if_stale CONFIG now job) = None
               /\ Job.claimedBy (release_if_stale CONFIG now job) = None))
  /\ (forall ops job', job' ∈ queue_run CONFIG ops printQueue ->
        (exists job, job ∈ printQueue /\ descends job job')
        \/ enqueued_by ops job').
Proof.
  rewrite cleanupQueue_spec. simpl. split_and!.
  - intros job Hin. rewrite <- evictable_false. split.
    + intros (job0 & _ & Heq & Hs)%elem_of_sweep.
      rewrite <- (evictable_release_if_stale now job), Heq.
      by rewrite evictable_release_if_stale.
    + intros Hs. apply elem_of_sweep. eauto.
  - intros job' (job & Hin & -> & _)%elem_of_sweep. eauto.
  - intros job.
    destruct (release_if_stale_fields now job) as (Hid & _ & _ & Hc & Hf).
    split_and!; [done..|].
    intros t Ht Hnz Hold.
    by rewrite (release_if_stale_stale now job t).
  - intros ops job'. apply queue_run_descends.
Qed.

Lemma list_find_head {A} (P : A -> Prop) `{forall x, Decision (P x)} x l :
  P x -> list_find P (x :: l) = Some (0, x).
Proof. intros HP. simpl. by rewrite decide_True. Qed.

Lemma list_find_singleton_None {A} (P : A -> Prop) `{forall x, Decision (P x)} x :
  ~ P x -> list_find P [x] = None.
Proof. intros HP. simpl. by rewrite decide_False. Qed.

Lemma claimNext_unfold now_gc now_claim clientIdParam printQueue :
  (claimNext CONFIG now_gc now_claim clientIdParam printQueue).1 =
  match clientId_of clientIdParam with
  | None => (RespUncaught (mkError TypeErrorMessage),
             sweep CONFIG now_gc printQueue)
  | Some clientId =>
      match list_find unclaimed (sweep CONFIG now_gc printQueue) with
      | None => (RespNoContent, sweep CONFIG now_gc printQueue)
      | Some (i, nextJob) =>
          (job_response nextJob,
           <[i := with_claim nextJob now_claim clientId]>
             (sweep CONFIG now_gc printQueue))
      end
  end.
Proof.
  unfold claimNext. rewrite cleanupQueue_spec.
  destruct (clientId_of clientIdParam); [|done].
  by destruct (list_find _ _) as [[i nextJob]|].
Qed.

(** A queue none of whose jobs is unclaimed after the pass lost no claim in
    the pass: what is left are jobs of the queue before it, as they were. *)
Lemma sweep_all_claimed now printQueue job :
  (forall job, job ∈ sweep CONFIG now printQueue -> ~ unclaimed job) ->
  job ∈ sweep CONFIG now printQueue -> job ∈ printQueue.
Proof.
  intros Hall Hin. specialize (Hall job Hin).
  apply elem_of_sweep in Hin as (job0 & Hin0 & -> & _).
  unfold release_if_stale in *.
  destruct (claim_stale CONFIG now job0); [|done].
  by destruct Hall.
Qed.

(** C1, as amended. [claimNext] runs a garbage-collection pass and then
    hands out the first job, in queue order, that has no claim, recording the
    claim (time of the claim, claimant) on it; when the pass leaves no
    unclaimed job it answers "no content" and every job left is a job of the
    queue before the call, its claim as it was. This is so for every client
    id that [String] converts; for one on which it throws, the pass is made
    and no job is claimed. After enqueueing A then B on a queue with no
    other job left unclaimed by the pass, the next claim returns A, provided
    A is not older than [PRINT_JOB_TTL_MS] at the pass. On a queue of one job
    that a claim just returned, a second claim returns "no content", provided
    the first claim's time stamp is not 0 and the claim is not older than
    [PRINT_CLAIM_TTL_MS] at the second pass. *)
Theorem claimNext_first_unclaimed :
  (forall now_gc now_claim clientIdParam clientId printQueue,
     clientId_of clientIdParam = Some clientId ->
     let swept := (cleanupQueue CONFIG now_gc printQueue).1 in
     let result := (claimNext CONFIG now_gc now_claim clientIdParam printQueue).1 in
     (forall i job,
        swept !! i = Some job -> unclaimed job ->
        (forall k job0, swept !! k = Some job0 -> k < i -> ~ unclaimed job0) ->
        result = (job_response job,
                  <[i := with_claim job now_claim clientId]> swept))
     /\ ((forall job, job ∈ swept -> ~ unclaimed job) ->
         result = (RespNoContent, swept)
         /\ forall job, job ∈ result.2 -> job ∈ printQueue)
     /\ ((exists i job, swept !! i = Some job /\ unclaimed job
                        /\ forall k job0, swept !! k = Some job0 -> k < i ->
                                           ~ unclaimed job0)
         \/ (forall job, job ∈ swept -> ~ unclaimed job)))
  /\ (forall now_gc now_claim clientIdParam printQueue,
        clientId_of clientIdParam = None ->
        (claimNext CONFIG now_gc now_claim clientIdParam printQueue).1
        = (RespUncaught (mkError TypeErrorMessage),
           (cleanupQueue CONFIG now_gc printQueue).1))
  /\ (forall clientIdParam,
        (forall clientId : jsstring,
           clientIdParam = JString clientId
           \/ (clientIdParam = JUndefined /\ clientId = str "unknown") ->
           clientId <> [] ->
           clientId_of clientIdParam = Some clientId)
        /\ (clientIdParam = JString [] ->
            clientId_of clientIdParam = Some (str "unknown")))
  /\ (forall printQueue idA tA imageA metaA idB tB imageB metaB
             now_gc now_claim clientIdParam clientId,
        clientId_of clientIdParam = Some clientId ->
        let queueA := (enqueuePrintJob idA tA imageA metaA printQueue).1.2 in
        let queueAB := (enqueuePrintJob idB tB imageB metaB queueA).1.2 in
        (forall job, job ∈ (cleanupQueue CONFIG now_gc printQueue).1 ->
                     ~ unclaimed job) ->
        (now_gc - tA <= PRINT_JOB_TTL_MS CONFIG)%Z ->
        (claimNext CONFIG now_gc now_claim clientIdParam queueAB).1.1
        = RespJob idA imageA (if truthy metaA then metaA else JObject []))
  /\ (forall job now_gc1 now_claim1 client1 now_gc2 now_claim2 client2 clientId2,
        clientId_of client2 = Some clientId2 ->
        let first := (claimNext CONFIG now_gc1 now_claim1 client1 [job]).1 in
        first.1 = job_response job ->
        now_claim1 <> 0%Z ->
        (now_gc2 - now_claim1 <= PRINT_CLAIM_TTL_MS CONFIG)%Z ->
        (claimNext CONFIG now_gc2 now_claim2 client2 first.2).1.1 = RespNoContent).
Proof.
  split_and!.
  - intros now_gc now_claim clientIdParam clientId printQueue Hclient swept result.
    subst swept result. rewrite claimNext_unfold, cleanupQueue_spec, Hclient.
    simpl. split_and!.
    + intros i job Hi Hu Hfirst.
      assert (Hfind : list_find unclaimed (sweep CONFIG now_gc printQueue) = Some (i, job)).
      { apply list_find_Some. eauto. }
      by rewrite Hfind.
    + intros Hall.
      assert (Hfind : list_find unclaimed (sweep CONFIG now_gc printQueue) = None).
      { apply list_find_None, Forall_forall. exact Hall. }
      rewrite Hfind. split; [done|]. simpl.
      intros job. by apply sweep_all_claimed.
    + destruct (list_find unclaimed (sweep CONFIG now_gc printQueue)) as [[i job]|] eqn:Hfind.
      * left. apply list_find_Some in Hfind as (Hi & Hu & Hfirst). eauto 10.
      * right. apply list_find_None in Hfind.
        by apply Forall_forall.
  - intros now_gc now_claim clientIdParam printQueue Hclient.
    by rewrite claimNext_unfold, cleanupQueue_spec, Hclient.
  - intros clientIdParam. split.
    + intros clientId [-> | [-> ->]] Hne; [|done].
      unfold clientId_of. simpl. by destruct clientId.
    + by intros ->.
  - intros printQueue idA tA imageA metaA idB tB imageB metaB now_gc now_claim c
           clientId Hclient qA qAB Hclaimed Hage.
    subst qA qAB. rewrite claimNext_unfold, Hclient. simpl.
    rewrite cleanupQueue_spec in Hclaimed. simpl in Hclaimed.
    rewrite <- app_assoc, sweep_app. simpl.
    set (jobA := {| Job.id := idA; Job.imageBase64 := imageA;
                    Job.meta := metaA; Job.createdAt := tA;
                    Job.claimedAt := None; Job.claimedBy := None;
                    Job.failCount := 0 |}).
    set (jobB := {| Job.id := idB |}).
    assert (Hsweep : sweep CONFIG now_gc [jobA; jobB]
                     = jobA :: sweep CONFIG now_gc [jobB]).
    { change [jobA; jobB] with ([jobA] ++ [jobB]).
      rewrite sweep_app, sweep_singleton.
      replace (evictable CONFIG now_gc jobA) with false; [done|].
      symmetry. apply evictable_false. simpl. unfold MAX_FAILS. lia. }
    rewrite Hsweep, list_find_app_r.
    + by rewrite list_find_head.
    + apply list_find_None, Forall_forall. exact Hclaimed.
  - intros job now_gc1 now_claim1 client1 now_gc2 now_claim2 client2 clientId2
           Hclient2 first.
    subst first. rewrite claimNext_unfold, sweep_singleton.
    destruct (clientId_of client1) as [clientId1|];
      [|simpl; by destruct job].
    destruct (evictable CONFIG now_gc1 job); [by simpl|].
    set (job1 := release_if_stale CONFIG now_gc1 job).
    destruct (decide (unclaimed job1)) as [Hu|Hu];
      [rewrite list_find_head by done
      |rewrite list_find_singleton_None by done; by simpl].
    simpl. intros _ Hnz Hfresh.
    set (claimed := with_claim _ now_claim1 _).
    assert (Hkeep : release_if_stale CONFIG now_gc2 claimed = claimed).
    { apply release_if_stale_fresh. intros t [= <-]. exact Hfresh. }
    assert (Hcl : ~ unclaimed claimed).
    { unfold unclaimed, claimed. simpl. rewrite not_false_iff_true.
      by apply negb_true_iff, Z.eqb_neq. }
    rewrite claimNext_unfold, Hclient2, sweep_singleton, Hkeep.
    destruct (evictable CONFIG now_gc2 claimed); [done|].
    by rewrite list_find_singleton_None.
Qed.

(** Every queue operation keeps the fail counts below [MAX_FAILS]. *)
Lemma queue_step_below_cap op printQueue :
  Forall below_cap printQueue -> Forall below_cap (queue_step CONFIG op printQueue).
Proof.
  rewrite !Forall_forall. intros Hq job'.
  destruct op as [jobId now body | now_gc now_claim c | jobId status | now]; simpl.
  - unfold enqueue.
    destruct (get body (str "image")) as [| | | |image| |]; try apply Hq.
    destruct (is_empty image); simpl; [apply Hq|].
    intros [Hin | ->%list_elem_of_singleton]%elem_of_app; [by apply Hq | done].
  - rewrite claimNext_unfold.
    assert (Hsw : forall job, job ∈ sweep CONFIG now_gc printQueue -> below_cap job).
    { intros job (job0 & Hin0 & -> & _)%elem_of_sweep. unfold below_cap.
      destruct (release_if_stale_fields now_gc job0) as (_ & _ & _ & _ & ->).
      by apply Hq. }
    destruct (clientId_of c) as [clientId|]; [|apply Hsw].
    destruct (list_find _ _) as [[i nextJob]|] eqn:Hfind; simpl; [|apply Hsw].
    intros [-> | Hin]%elem_of_insert_inv; [|by apply Hsw].
    apply list_find_Some in Hfind as (Hi%list_elem_of_lookup_2 & _ & _).
    by apply Hsw in Hi.
  - unfold reportOutcome.
    destruct (list_find _ _) as [[i job]|] eqn:Hfind; simpl; [|apply Hq].
    destruct (is_string status (str "printed")); simpl.
    { intros Hin%list_elem_of_delete_inv. by apply Hq. }
    destruct (is_string status (str "failed")); simpl; [|apply Hq].
    destruct (decide _) as [Hcap|Hcap].
    + rewrite delete_insert_same.
      intros Hin%list_elem_of_delete_inv. by apply Hq.
    + intros [-> | Hin]%elem_of_insert_inv; [|by apply Hq].
      unfold below_cap. simpl in *. lia.
  - rewrite cleanupQueue_spec. simpl.
    intros (job0 & Hin0 & -> & _)%elem_of_sweep. unfold below_cap.
    destruct (release_if_stale_fields now job0) as (_ & _ & _ & _ & ->).
    by apply Hq.
Qed.

Lemma queue_run_below_cap ops printQueue :
  Forall below_cap printQueue -> Forall below_cap (queue_run CONFIG ops printQueue).
Proof.
  unfold queue_run. revert printQueue.
  induction ops as [|op ops IH]; intros printQueue Hq; simpl; [done|].
  by apply IH, queue_step_below_cap.
Qed.

End QueueFacts.

(* ----------------------------------------------------------------- *)
(** ** Outcome reports *)

Section OutcomeFacts.

Lemma is_string_true v lit : is_string v lit = true <-> v = JString lit.
Proof.
  destruct v; simpl; try (split; [discriminate | intros [=]]).
  rewrite bool_decide_eq_true. split; [by intros -> | by intros [= ->]].
Qed.

Lemma is_string_false v lit : is_string v lit = false <-> v <> JString lit.
Proof. rewrite <- is_string_true. by destruct (is_string v lit). Qed.

Lemma designates_find jobId printQueue i job :
  designates jobId printQueue i job <->
  list_find (fun job => Job.id job = jobId) printQueue = Some (i, job).
Proof. unfold designates. by rewrite list_find_Some. Qed.

Lemma designates_NoDup printQueue i job :
  NoDup (Job.id <$> printQueue) -> printQueue !! i = Some job ->
  designates (Job.id job) printQueue i job
  /\ forall job', job' ∈ delete i printQueue -> Job.id job' <> Job.id job.
Proof.
  intros Hnd Hi.
  assert (Hother : forall k job0, printQueue !! k = Some job0 ->
                                  Job.id job0 = Job.id job -> k = i).
  { intros k job0 Hk Heq.
    apply (NoDup_lookup _ k i (Job.id job) Hnd);
      rewrite list_lookup_fmap; [rewrite Hk | rewrite Hi]; simpl; congruence. }
  split.
  - split_and!; [done..|]. intros k job0 Hk Hlt Heq.
    specialize (Hother k job0 Hk Heq). lia.
  - intros job' [k Hk]%list_elem_of_lookup Heq.
    destruct (decide (k < i)) as [Hlt|Hge].
    + rewrite list_lookup_delete_lt in Hk by done.
      specialize (Hother k job' Hk Heq). lia.
    + rewrite list_lookup_delete_ge in Hk by lia.
      specialize (Hother (S k) job' Hk Heq). lia.
Qed.

Lemma reportOutcome_unfold jobId status printQueue i job :
  designates jobId printQueue i job ->
  reportOutcome jobId status printQueue =
  if is_string status (str "printed")
  then (RespOk, delete i printQueue, emitQueueUpdate (delete i printQueue))
  else if is_string status (str "failed") then
    let printQueue' :=
      if decide (Job.failCount job + 1 >= MAX_FAILS)%Z
      then delete i printQueue
      else <[i := record_failure job]> printQueue in
    (RespOk, printQueue', emitQueueUpdate printQueue')
  else (RespError 400 INVALID_STATUS, printQueue, []).
Proof.
  intros Hd%designates_find. unfold reportOutcome. rewrite Hd.
  destruct (is_string status (str "printed")); [done|].
  destruct (is_string status (str "failed")); [|done].
  simpl. destruct (decide _); [|done]. by rewrite delete_insert_same.
Qed.

(** C2. For the job a report designates: [printed] removes it; [failed] adds
    one to its fail count and clears its claim, unless the count so reached
    is [MAX_FAILS] or more, in which case the job is removed; any other
    status is answered INVALID_STATUS with the queue unchanged and no event.
    For an id no job of the queue carries the answer is NOT_FOUND, queue
    unchanged. With the ids of the queue pairwise different, every job of the
    queue is the one its id designates, and after its removal no job carries
    that id. *)
Theorem reportOutcome_cases jobId status printQueue :
  let result := reportOutcome jobId status printQueue in
  (forall i job, designates jobId printQueue i job ->
     (status = JString (str "printed") ->
      result = (RespOk, delete i printQueue, emitQueueUpdate (delete i printQueue)))
     /\ (status = JString (str "failed") ->
         (Job.failCount job + 1 < MAX_FAILS)%Z ->
         result = (RespOk, <[i := record_failure job]> printQueue,
                   emitQueueUpdate (<[i := record_failure job]> printQueue))
         /\ Job.failCount (record_failure job) = (Job.failCount job + 1)%Z
         /\ Job.claimedAt (record_failure job) = None
         /\ Job.claimedBy (record_failure job) = None)
     /\ (status = JString (str "failed") ->
         (Job.failCount job + 1 >= MAX_FAILS)%Z ->
         result = (RespOk, delete i printQueue, emitQueueUpdate (delete i printQueue)))
     /\ (status <> JString (str "printed") -> status <> JString (str "failed") ->
         result = (RespError 400 INVALID_STATUS, printQueue, [])))
  /\ ((forall job, job ∈ printQueue -> Job.id job <> jobId) ->
      result = (RespError 404 NOT_FOUND, printQueue, []))
  /\ (NoDup (Job.id <$> printQueue) ->
      forall i job, printQueue !! i = Some job -> Job.id job = jobId ->
        designates jobId printQueue i job
        /\ forall job', job' ∈ delete i printQueue -> Job.id job' <> jobId).
Proof.
  simpl. split_and!.
  - intros i job Hd. rewrite (reportOutcome_unfold _ _ _ i job Hd). split_and!.
    + intros ->. done.
    + intros -> Hlt. simpl. by rewrite decide_False by lia.
    + intros -> Hge. simpl. by rewrite decide_True by lia.
    + intros Hp%is_string_false Hf%is_string_false. by rewrite Hp, Hf.
  - intros Hnone. unfold reportOutcome.
    replace (list_find _ printQueue) with (@None (nat * Job.t)); [done|].
    symmetry. apply list_find_None, Forall_forall. exact Hnone.
  - intros Hnd i job Hi <-. by apply designates_NoDup.
Qed.

Lemma designates_middle jobId pre job post :
  (forall job0, job0 ∈ pre -> Job.id job0 <> jobId) -> Job.id job = jobId ->
  designates jobId (pre ++ job :: post) (length pre) job.
Proof.
  intros Hpre Hid. split_and!; [by apply list_lookup_middle | done |].
  intros k job0 Hk Hlt. apply Hpre, list_elem_of_lookup. exists k.
  by rewrite lookup_app_l in Hk.
Qed.

Lemma find_modulo_claims jobId (q q' : list Job.t) :
  release <$> q = release <$> q' ->
  match list_find (fun job => Job.id job = jobId) q,
        list_find (fun job => Job.id job = jobId) q' with
  | Some (i, job), Some (i', job') => i = i' /\ release job = release job'
  | None, None => True
  | _, _ => False
  end.
Proof.
  intros Heq.
  pose proof (list_find_fmap release (fun job => Job.id job = jobId) q) as Hq.
  pose proof (list_find_fmap release (fun job => Job.id job = jobId) q') as Hq'.
  rewrite Heq, Hq' in Hq. clear Hq'.
  change ((fun job => Job.id job = jobId) ∘ release)
    with (fun job => Job.id job = jobId) in Hq.
  destruct (list_find _ q) as [[i job]|], (list_find _ q') as [[i' job']|];
    simpl in Hq; try done.
  split; congruence.
Qed.

Lemma release_record_failure job job' :
  release job = release job' ->
  record_failure job = record_failure job'
  /\ Job.failCount job = Job.failCount job'.
Proof.
  destruct job, job'. unfold release, record_failure. simpl.
  intros [=]. by subst.
Qed.

(** C9. An outcome report looks at no claim and no reporter: its inputs are
    the job id and the status, and two queues that differ only in the claims
    of their jobs get the same answer and the same resulting queue, up to
    those claims. So for a job with any claim fields at all, set by anyone or
    empty, [printed] removes it, and [failed] adds one to its fail count and
    removes it when the count reaches [MAX_FAILS]. *)
Theorem reportOutcome_ignores_claims :
  (forall jobId status (q q' : list Job.t),
     release <$> q = release <$> q' ->
     (reportOutcome jobId status q).1.1 = (reportOutcome jobId status q').1.1
     /\ release <$> (reportOutcome jobId status q).1.2
        = release <$> (reportOutcome jobId status q').1.2)
  /\ (forall id image meta createdAt claimedAt claimedBy failCount pre post,
        let job := Job.mk id image meta createdAt claimedAt claimedBy failCount in
        (forall job0, job0 ∈ pre -> Job.id job0 <> id) ->
        (reportOutcome id (JString (str "printed")) (pre ++ job :: post)).1
        = (RespOk, pre ++ post)
        /\ (reportOutcome id (JString (str "failed")) (pre ++ job :: post)).1
           = (RespOk,
              if decide (failCount + 1 >= MAX_FAILS)%Z then pre ++ post
              else pre ++ Job.mk id image meta createdAt None None
                                 (failCount + 1)%Z :: post)).
Proof.
  split.
  - intros jobId status q q' Heq.
    pose proof (find_modulo_claims jobId q q' Heq) as Hfind.
    unfold reportOutcome.
    destruct (list_find _ q) as [[i job]|], (list_find _ q') as [[i' job']|];
      try done.
    destruct Hfind as [<- Hjob].
    apply release_record_failure in Hjob as [Hrec Hfc].
    destruct (is_string status (str "printed")); simpl.
    { by rewrite !list_fmap_delete, Heq. }
    destruct (is_string status (str "failed")); simpl; [|done].
    rewrite Hfc, Hrec. split; [done|].
    destruct (decide _);
      by rewrite ?list_fmap_delete, !list_fmap_insert, Heq.
  - intros id image meta createdAt claimedAt claimedBy failCount pre post job Hpre.
    pose proof (designates_middle id pre job post Hpre eq_refl) as Hd.
    rewrite !(reportOutcome_unfold _ _ _ _ _ Hd). simpl.
    rewrite delete_middle. split; [done|].
    destruct (decide _); [done|].
    by rewrite insert_app_r_alt, Nat.sub_diag by lia.
Qed.

End OutcomeFacts.

(* ----------------------------------------------------------------- *)
(** ** Input sessions *)

Section SessionFacts.
Context {platform : Platform} (CONFIG : Config).

Lemma getInputSession_live now token inputSessions session :
  inputSessions !! token = Some session -> ~ expired CONFIG now session ->
  getInputSession CONFIG now token inputSessions = (Some session, inputSessions).
Proof.
  intros Hs Hlive. unfold getInputSession. rewrite Hs.
  by rewrite decide_False.
Qed.

Lemma getInputSession_expired now token inputSessions session :
  inputSessions !! token = Some session -> expired CONFIG now session ->
  getInputSession CONFIG now token inputSessions = (None, delete token inputSessions).
Proof.
  intros Hs Hexp. unfold getInputSession. rewrite Hs.
  by rewrite decide_True.
Qed.

(** The sweep in closed form: an entry survives exactly when it is not
    expired. *)
Lemma cleanupInputSessions_lookup now inputSessions token :
  (cleanupInputSessions CONFIG now inputSessions).2 !! token =
  match inputSessions !! token with
  | Some session => if decide (now - Session.createdAt session > INPUT_SESSION_TTL_MS CONFIG)%Z then None else Some session
  | None => None
  end.
Proof.
  unfold cleanupInputSessions.
  set (f := fun token session '(removed, sessions) => _).
  enough (H : forall m0 : gmap jsstring Session.t,
             forall k, (map_fold f (0, m0) inputSessions).2 !! k =
               match inputSessions !! k with
               | Some session =>
                   if decide (now - Session.createdAt session > INPUT_SESSION_TTL_MS CONFIG)%Z then None else m0 !! k
               | None => m0 !! k
               end).
  { rewrite H. destruct (inputSessions !! token) eqn:E; [|done].
    by destruct (decide _). }
  intros m0.
  apply (map_fold_weak_ind
           (fun r m => forall k, r.2 !! k =
              match m !! k with
              | Some session =>
                  if decide (now - Session.createdAt session > INPUT_SESSION_TTL_MS CONFIG)%Z then None else m0 !! k
              | None => m0 !! k
              end)).
  - intros k. by rewrite lookup_empty.
  - intros i x m [removed sessions] Hi IH k. simpl in IH. unfold f.
    destruct (decide (i = k)) as [->|Hne].
    + rewrite lookup_insert_eq.
      destruct (decide _); simpl.
      * by rewrite lookup_delete_eq.
      * by rewrite IH, Hi.
    + rewrite lookup_insert_ne by done.
      destruct (decide _); simpl; [rewrite lookup_delete_ne by done|];
        apply IH.
Qed.

Lemma is_empty_true s : is_empty s = true <-> s = [].
Proof. destruct s; simpl; split; congruence. Qed.

Lemma is_empty_false s : is_empty s = false <-> s <> [].
Proof. destruct s; simpl; split; congruence. Qed.


Lemma clamp_nil maxLen s : 0 < maxLen -> clamp maxLen s = [] <-> trim s = [].
Proof.
  intros Hpos. unfold clamp. generalize (trim s). intros t.
  destruct (decide (maxLen < length t)) as [Hlt|]; [|done].
  split; [|intros ->; apply take_nil].
  destruct t as [|c t]; [done|]. destruct maxLen; [lia|done].
Qed.


Lemma clampText_nil v maxLen :
  0 < maxLen -> clampText v maxLen = Some [] <-> trimmedText v = Some [].
Proof.
  intros Hpos. unfold clampText, trimmedText.
  destruct (ToString (nullish v (JString []))) as [s|]; simpl; [|done].
  pose proof (clamp_nil maxLen s Hpos) as Hnil.
  split; intros [= H]; f_equal; by apply Hnil.
Qed.


Lemma trimStart_snoc_nonspace s c :
  is_space c = false -> trimStart (s ++ [c]) <> [].
Proof.
  intros Hc. induction s as [|x s IH]; simpl.
  - by rewrite Hc.
  - destruct (is_space x); [done|]. discriminate.
Qed.

(** Trimming cannot empty a text that starts with a unit that is no space. *)
Lemma trim_cons_nonspace c s : is_space c = false -> trim (c :: s) <> [].
Proof.
  intros Hc. unfold trim, trimEnd. simpl. rewrite Hc. simpl.
  intros Hnil. apply (f_equal (@length N)) in Hnil.
  rewrite length_rev in Hnil.
  pose proof (trimStart_snoc_nonspace (rev s) c Hc) as Hne.
  destruct (trimStart (rev s ++ [c])); [done | simpl in Hnil; lia].
Qed.




Lemma filter_all {A} (P : A -> Prop) `{forall x, Decision (P x)} (l : list A) :
  Forall P l -> filter P l = l.
Proof.
  induction 1 as [|x l Hx _ IH]; [done|].
  by rewrite filter_cons, decide_True, IH.
Qed.








(** C10. Expiry is by strict comparison. A job whose age is exactly
    [PRINT_JOB_TTL_MS] stays in the queue through a pass (in every queue the
    operations can build, and in any queue when its fail count is below the
    cap); a claim whose age is exactly [PRINT_CLAIM_TTL_MS] is kept; a session
    whose age is exactly [INPUT_SESSION_TTL_MS] is returned by the lookup and
    kept by the sweep. Conversely a job below the fail cap that a pass
    removes, a claim that a pass releases and a session that the lookup or
    the sweep drops are each strictly older than their time to live. *)
Theorem expiry_is_strict :
  (forall ops now job,
     job ∈ queue_run CONFIG ops [] ->
     (now - Job.createdAt job = PRINT_JOB_TTL_MS CONFIG)%Z ->
     release_if_stale CONFIG now job
       ∈ (cleanupQueue CONFIG now (queue_run CONFIG ops [])).1)
  /\ (forall now printQueue job,
        job ∈ printQueue -> (Job.failCount job < MAX_FAILS)%Z ->
        ((now - Job.createdAt job = PRINT_JOB_TTL_MS CONFIG)%Z ->
         release_if_stale CONFIG now job ∈ (cleanupQueue CONFIG now printQueue).1)
        /\ (release_if_stale CONFIG now job ∉ (cleanupQueue CONFIG now printQueue).1 ->
            (now - Job.createdAt job > PRINT_JOB_TTL_MS CONFIG)%Z))
  /\ (forall now job t,
        Job.claimedAt job = Some t ->
        ((now - t = PRINT_CLAIM_TTL_MS CONFIG)%Z ->
         release_if_stale CONFIG now job = job)
        /\ (release_if_stale CONFIG now job <> job ->
            (now - t > PRINT_CLAIM_TTL_MS CONFIG)%Z))
  /\ (forall now token inputSessions session,
        inputSessions !! token = Some session ->
        ((now - Session.createdAt session = INPUT_SESSION_TTL_MS CONFIG)%Z ->
         getInputSession CONFIG now token inputSessions = (Some session, inputSessions)
         /\ (cleanupInputSessions CONFIG now inputSessions).2 !! token = Some session)
        /\ ((getInputSession CONFIG now token inputSessions).1 = None
            \/ (cleanupInputSessions CONFIG now inputSessions).2 !! token = None ->
            (now - Session.createdAt session > INPUT_SESSION_TTL_MS CONFIG)%Z)).
Proof.
  assert (Hjob : forall now printQueue job,
            job ∈ printQueue -> (Job.failCount job < MAX_FAILS)%Z ->
            release_if_stale CONFIG now job ∈ (cleanupQueue CONFIG now printQueue).1
            <-> (now - Job.createdAt job <= PRINT_JOB_TTL_MS CONFIG)%Z).
  { intros now printQueue job Hin Hfc.
    rewrite cleanupQueue_spec. simpl. split.
    - intros (job0 & _ & Heq & Hs)%elem_of_sweep.
      rewrite <- (evictable_release_if_stale CONFIG now job0), <- Heq,
        evictable_release_if_stale in Hs.
      by apply evictable_false in Hs as [? _].
    - intros Hage. apply elem_of_sweep. exists job.
      split_and!; [done..|]. by apply evictable_false. }
  split_and!.
  - intros ops now job Hin Hage. apply Hjob; [done| |lia].
    pose proof (queue_run_below_cap CONFIG ops [] (Forall_nil_2 _)) as Hcap.
    rewrite Forall_forall in Hcap. by apply Hcap.
  - intros now printQueue job Hin Hfc. split.
    + intros Hage. apply Hjob; [done..|lia].
    + intros Hout.
      destruct (decide (now - Job.createdAt job
                        <= PRINT_JOB_TTL_MS CONFIG)%Z) as [Hle|]; [|lia].
      destruct Hout. by apply Hjob.
  - intros now job t Ht. split.
    + intros Hage. apply release_if_stale_fresh.
      intros t' Ht'. rewrite Ht in Ht'. injection Ht' as <-. lia.
    + intros Hrel. unfold release_if_stale in Hrel.
      destruct (claim_stale CONFIG now job) eqn:Hst; [|done].
      apply claim_stale_true in Hst as (t' & Ht' & _ & Hold).
      rewrite Ht in Ht'. by injection Ht' as <-.
  - intros now token inputSessions session Hs. split.
    + intros Hage. split.
      * apply getInputSession_live; [done|]. unfold expired. lia.
      * rewrite cleanupInputSessions_lookup, Hs.
        by rewrite decide_False by lia.
    + rewrite cleanupInputSessions_lookup. unfold getInputSession.
      rewrite Hs. destruct (decide _) as [Hexp|Hlive]; [done|].
      by intros [? | ?].
Qed.

End SessionFacts.

(* ----------------------------------------------------------------- *)
(** ** Validation of generated content *)

Section ValidationFacts.
Context {platform : Platform}.

Lemma Qc_of_Z_this z : this (Qc_of_Z z) = inject_Z z.
Proof. reflexivity. Qed.

Lemma isInteger_spec n : isInteger n = true <-> exists z, n = num_of_Z z.
Proof.
  split.
  - destruct n as [| |q]; cbn [isInteger]; try discriminate.
    intros Hden%Pos.eqb_eq. exists (Qnum (this q)). unfold num_of_Z. f_equal.
    apply Qc_is_canon. rewrite Qc_of_Z_this.
    destruct q as [[num den] Hcanon]. simpl in *. by subst den.
  - by intros (z & ->).
Qed.

Lemma num_ltb_Z a b : num_ltb (num_of_Z a) (num_of_Z b) = bool_decide (a < b)%Z.
Proof.
  unfold num_ltb, num_of_Z. apply bool_decide_ext.
  unfold Qclt, Qlt. rewrite !Qc_of_Z_this. simpl. lia.
Qed.

(** The stat test accepts exactly the integers from 1 to 100. *)
Lemma stat_ok_spec n :
  stat_ok n = true <-> exists z, n = num_of_Z z /\ (1 <= z <= 100)%Z.
Proof.
  unfold stat_ok. rewrite negb_true_iff, !orb_false_iff, negb_false_iff.
  split.
  - intros [[(z & ->)%isInteger_spec Hlo] Hhi]. exists z. split; [done|].
    rewrite num_ltb_Z in Hlo, Hhi.
    apply bool_decide_eq_false in Hlo, Hhi. lia.
  - intros (z & -> & Hz). split_and!.
    + apply isInteger_spec. eauto.
    + rewrite num_ltb_Z. apply bool_decide_eq_false. lia.
    + rewrite num_ltb_Z. apply bool_decide_eq_false. lia.
Qed.

Lemma forallb_stat_ok l : forallb stat_ok l = true <-> Forall in_range l.
Proof.
  induction l as [|n l IH]; simpl; [by split|].
  rewrite andb_true_iff, Forall_cons, IH. unfold in_range.
  by rewrite <- stat_ok_spec.
Qed.

Lemma clamp_length maxLen s : length (clamp maxLen s) <= maxLen.
Proof.
  unfold clamp. destruct (decide _) as [Hlt|Hge]; [|lia].
  rewrite length_take. lia.
Qed.

Lemma clampText_length v maxLen t :
  clampText v maxLen = Some t -> length t <= maxLen.
Proof.
  unfold clampText. intros (s & _ & ->)%fmap_Some. apply clamp_length.
Qed.

(** The three outcomes of [clampText], read on the trimmed text. *)
Lemma clampText_cases v maxLen :
  0 < maxLen ->
  (clampText v maxLen = None /\ trimmedText v = None)
  \/ (clampText v maxLen = Some [] /\ trimmedText v = Some [])
  \/ (exists t t', clampText v maxLen = Some t /\ t <> []
                   /\ trimmedText v = Some t' /\ t' <> []).
Proof.
  intros Hpos. unfold clampText, trimmedText.
  destruct (ToString (nullish v (JString []))) as [s|]; simpl; [|by left].
  right. pose proof (clamp_nil maxLen s Hpos) as Hnil.
  destruct (decide (trim s = [])) as [He|Hne].
  - left. split; f_equal; tauto.
  - right. exists (clamp maxLen s), (trim s). split_and!; [done| |done..]. tauto.
Qed.

(** What [normalizeCardData] accepts, and with what. *)
Lemma normalizeCardData_Some raw card :
  normalizeCardData raw = Some (Some card) <->
  truthy raw = true /\ typeof_object raw = true
  /\ (clampText (get raw (str "name")) 12 = Some (name card) /\ name card <> [])
  /\ (clampText (get raw (str "class")) 15 = Some (class card)
      /\ class card <> [])
  /\ (clampText (get raw (str "skill")) 20 = Some (skill card)
      /\ skill card <> [])
  /\ (clampText (get raw (str "description")) 60 = Some (description card)
      /\ description card <> [])
  /\ truthy (get raw (str "stats")) = true
  /\ typeof_object (get raw (str "stats")) = true
  /\ ToNumber (rawStat raw (str "sense")) = Some (sense (stats card))
  /\ ToNumber (rawStat raw (str "logic")) = Some (logic (stats card))
  /\ ToNumber (rawStat raw (str "luck")) = Some (luck (stats card))
  /\ ToNumber (rawStat raw (str "charm")) = Some (charm (stats card))
  /\ ToNumber (rawStat raw (str "vibe")) = Some (vibe (stats card))
  /\ Forall in_range [sense (stats card); logic (stats card);
                      luck (stats card); charm (stats card);
                      vibe (stats card)].
Proof.
  unfold normalizeCardData, rawStat. split.
  - destruct (negb (truthy raw) || negb (typeof_object raw)) eqn:Hraw;
      [discriminate|].
    apply orb_false_iff in Hraw as [Ht%negb_false_iff Ho%negb_false_iff].
    destruct (clampText (get raw (str "name")) 12) as [n|]; [|discriminate].
    destruct (clampText (get raw (str "class")) 15) as [c|]; [|discriminate].
    destruct (clampText (get raw (str "skill")) 20) as [s|]; [|discriminate].
    destruct (clampText (get raw (str "description")) 60) as [d|];
      [|discriminate].
    simpl.
    destruct (is_empty n) eqn:Hn; [discriminate|].
    destruct (is_empty c) eqn:Hc; [discriminate|].
    destruct (is_empty s) eqn:Hsk; [discriminate|].
    destruct (is_empty d) eqn:Hd; [discriminate|].
    apply is_empty_false in Hn, Hc, Hsk, Hd. simpl.
    destruct (negb (truthy (get raw (str "stats")))
              || negb (typeof_object (get raw (str "stats")))) eqn:Hst;
      [discriminate|].
    apply orb_false_iff in Hst as [Hst%negb_false_iff Hso%negb_false_iff].
    destruct (ToNumber (get (get raw (str "stats")) (str "sense"))) as [se|];
      [|discriminate].
    destruct (ToNumber (get (get raw (str "stats")) (str "logic"))) as [lo|];
      [|discriminate].
    destruct (ToNumber (get (get raw (str "stats")) (str "luck"))) as [lu|];
      [|discriminate].
    destruct (ToNumber (get (get raw (str "stats")) (str "charm"))) as [ch|];
      [|discriminate].
    destruct (ToNumber (get (get raw (str "stats")) (str "vibe"))) as [vi|];
      [|discriminate].
    simpl.
    change (stat_ok se && _) with (forallb stat_ok [se; lo; lu; ch; vi]).
    destruct (forallb stat_ok [se; lo; lu; ch; vi]) eqn:Hall; [|discriminate].
    apply forallb_stat_ok in Hall.
    intros [= <-]. simpl. by split_and!.
  - destruct card as [n c [se lo lu ch vi] s d]. simpl.
    intros (Ht & Ho & [-> Hn] & [-> Hc] & [-> Hs] & [-> Hd] & Hst & Hso
            & -> & -> & -> & -> & -> & Hall).
    rewrite Ht, Ho, Hst, Hso. simpl.
    apply is_empty_false in Hn, Hc, Hs, Hd. rewrite Hn, Hc, Hs, Hd. simpl.
    apply forallb_stat_ok in Hall.
    change (stat_ok se && _) with (forallb stat_ok [se; lo; lu; ch; vi]).
    by rewrite Hall.
Qed.

Lemma or_and_settled (E F S : Prop) : ~ E -> F -> (E \/ (F /\ S)) <-> S.
Proof. tauto. Qed.

(** When [normalizeCardData] throws: one of the four texts cannot be
    converted, or the texts are there and one of the stats cannot. *)
Lemma normalizeCardData_None raw :
  normalizeCardData raw = None <->
  truthy raw = true /\ typeof_object raw = true
  /\ (Exists (fun key => trimmedText (get raw key) = None) text_keys
      \/ (Forall (fun key => exists t, trimmedText (get raw key) = Some t
                                       /\ t <> []) text_keys
          /\ truthy (get raw (str "stats")) = true
          /\ typeof_object (get raw (str "stats")) = true
          /\ Exists (fun key => ToNumber (rawStat raw key) = None) stat_keys)).
Proof.
  unfold normalizeCardData, rawStat, text_keys, stat_keys.
  rewrite !Exists_cons, !Forall_cons, !Exists_nil.
  destruct (truthy raw), (typeof_object raw); simpl;
    try (split; [done | by intros (? & ? & _)]).
  destruct (clampText_cases (get raw (str "name")) 12 ltac:(lia)) as
    [[-> Hn]|[[-> Hn]|(n & n' & -> & Hne & Hn & Hne')]];
  destruct (clampText_cases (get raw (str "class")) 15 ltac:(lia)) as
    [[-> Hc]|[[-> Hc]|(c & c' & -> & Hce & Hc & Hce')]];
  destruct (clampText_cases (get raw (str "skill")) 20 ltac:(lia)) as
    [[-> Hs]|[[-> Hs]|(s & s' & -> & Hse & Hs & Hse')]];
  destruct (clampText_cases (get raw (str "description")) 60 ltac:(lia)) as
    [[-> Hd]|[[-> Hd]|(d & d' & -> & Hde & Hd & Hde')]];
  rewrite Hn, Hc, Hs, Hd; simpl;
  rewrite ?(proj2 (is_empty_false _)) by done; simpl;
  first [ solve [split; [intros _; intuition congruence | done]]
        | solve [split; [done|]; intros (_ & _ & [HE | (HF & _)]);
                 [ destruct HE as [?|[?|[?|[?|[]]]]]; congruence
                 | destruct HF as ((? & ? & ?) & (? & ? & ?) & (? & ? & ?)
                                   & (? & ? & ?) & _); congruence ]]
        | idtac ].
  rewrite or_and_settled;
    [| intros [?|[?|[?|[?|[]]]]]; congruence | split_and!; eauto].
  destruct (truthy (get raw (str "stats"))),
           (typeof_object (get raw (str "stats"))); simpl;
    try (split; [done | by intros (_ & _ & ? & ? & _)]).
  destruct (ToNumber (get (get raw (str "stats")) (str "sense"))); simpl;
    [|split; [intros _; intuition congruence | done]].
  destruct (ToNumber (get (get raw (str "stats")) (str "logic"))); simpl;
    [|split; [intros _; intuition congruence | done]].
  destruct (ToNumber (get (get raw (str "stats")) (str "luck"))); simpl;
    [|split; [intros _; intuition congruence | done]].
  destruct (ToNumber (get (get raw (str "stats")) (str "charm"))); simpl;
    [|split; [intros _; intuition congruence | done]].
  destruct (ToNumber (get (get raw (str "stats")) (str "vibe"))); simpl;
    [|split; [intros _; intuition congruence | done]].
  split; [by destruct (_ && _) | intuition congruence].
Qed.

(** A validation that refuses makes the attempt fail. *)
Lemma refused_card_fails raw rawText :
  refused (normalizeCardData raw) ->
  trim rawText <> [] -> JSON_parse rawText = inr raw ->
  exists e, cardFromText rawText = inl e.
Proof.
  intros Href Ht%is_empty_false Hparse. unfold cardFromText.
  rewrite Ht, Hparse. destruct Href as [-> | ->]; eauto.
Qed.

(** C6, as amended. Card validation takes each stat through [Number(...)]
    and keeps the result as it is, without rounding: a card is accepted only
    when every one of the five results is an integer from 1 to 100. So a
    candidate is refused (the validation returns [null] or throws, and either
    way the attempt fails) when a stat field is missing, when a stat cannot
    be converted, or when the number its stat converts to is not such an
    integer; for stats that are numbers this refuses 0, 101 and 3.5 and
    every non-integer. The validation throws exactly when the candidate is
    an object one of whose four texts cannot be converted to a string, or
    whose texts are all non-empty and one of whose stats cannot be converted
    to a number. A candidate is accepted exactly when its four texts convert
    to non-empty strings and its stats all convert to integers from 1 to
    100, and then with exactly those integers, whatever the types of the
    stat values were. *)
Theorem normalizeCardData_stats raw :
  (forall card, normalizeCardData raw = Some (Some card) ->
     ToNumber (rawStat raw (str "sense")) = Some (sense (stats card))
     /\ ToNumber (rawStat raw (str "logic")) = Some (logic (stats card))
     /\ ToNumber (rawStat raw (str "luck")) = Some (luck (stats card))
     /\ ToNumber (rawStat raw (str "charm")) = Some (charm (stats card))
     /\ ToNumber (rawStat raw (str "vibe")) = Some (vibe (stats card))
     /\ forall key, key ∈ stat_keys ->
          exists n, ToNumber (rawStat raw key) = Some n /\ in_range n)
  /\ (forall key, key ∈ stat_keys ->
        rawStat raw key = JUndefined
        \/ ToNumber (rawStat raw key) = None
        \/ (exists n, ToNumber (rawStat raw key) = Some n /\ ~ in_range n) ->
        refused (normalizeCardData raw))
  /\ (forall key n, key ∈ stat_keys -> rawStat raw key = JNumber n ->
        n = num_of_Z 0 \/ n = num_of_Z 101 \/ n = Finite (Q2Qc (7 # 2))
        \/ isInteger n = false ->
        refused (normalizeCardData raw))
  /\ (refused (normalizeCardData raw) ->
      forall rawText, trim rawText <> [] -> JSON_parse rawText = inr raw ->
        exists e, cardFromText rawText = inl e)
  /\ (normalizeCardData raw = None <->
      truthy raw = true /\ typeof_object raw = true
      /\ (Exists (fun key => trimmedText (get raw key) = None) text_keys
          \/ (Forall (fun key => exists t, trimmedText (get raw key) = Some t
                                           /\ t <> []) text_keys
              /\ truthy (get raw (str "stats")) = true
              /\ typeof_object (get raw (str "stats")) = true
              /\ Exists (fun key => ToNumber (rawStat raw key) = None)
                        stat_keys)))
  /\ (forall name klass skill description sense logic luck charm vibe,
      truthy raw = true -> typeof_object raw = true ->
      clampText (get raw (str "name")) 12 = Some name -> name <> [] ->
      clampText (get raw (str "class")) 15 = Some klass -> klass <> [] ->
      clampText (get raw (str "skill")) 20 = Some skill -> skill <> [] ->
      clampText (get raw (str "description")) 60 = Some description ->
      description <> [] ->
      truthy (get raw (str "stats")) = true ->
      typeof_object (get raw (str "stats")) = true ->
      ToNumber (rawStat raw (str "sense")) = Some sense ->
      ToNumber (rawStat raw (str "logic")) = Some logic ->
      ToNumber (rawStat raw (str "luck")) = Some luck ->
      ToNumber (rawStat raw (str "charm")) = Some charm ->
      ToNumber (rawStat raw (str "vibe")) = Some vibe ->
      Forall in_range [sense; logic; luck; charm; vibe] ->
      normalizeCardData raw =
      Some (Some {| name := name; class := klass;
                    stats := {| sense := sense; logic := logic; luck := luck;
                                charm := charm; vibe := vibe |};
                    skill := skill; description := description |})).
Proof.
  assert (Hstats : forall card, normalizeCardData raw = Some (Some card) ->
            forall key, key ∈ stat_keys ->
              exists n, ToNumber (rawStat raw key) = Some n /\ in_range n).
  { intros card Hcard key Hkey.
    apply normalizeCardData_Some in Hcard
      as (_ & _ & _ & _ & _ & _ & _ & _ & H1 & H2 & H3 & H4 & H5 & Hall).
    rewrite !Forall_cons in Hall.
    destruct Hall as (? & ? & ? & ? & ? & _).
    unfold stat_keys in Hkey.
    repeat (apply elem_of_cons in Hkey as [->|Hkey]); eauto.
    by apply not_elem_of_nil in Hkey. }
  assert (Hreject : forall key, key ∈ stat_keys ->
            ~ (exists n, ToNumber (rawStat raw key) = Some n /\ in_range n) ->
            refused (normalizeCardData raw)).
  { intros key Hkey Hbad. unfold refused.
    destruct (normalizeCardData raw) as [[card|]|] eqn:Hn; [|by right|by left].
    destruct Hbad. by apply (Hstats card). }
  split_and!.
  - intros card Hcard. pose proof (Hstats card Hcard) as Hkeys.
    apply normalizeCardData_Some in Hcard
      as (_ & _ & _ & _ & _ & _ & _ & _ & H1 & H2 & H3 & H4 & H5 & _).
    by split_and!.
  - intros key Hkey Hbad. apply (Hreject key Hkey).
    intros (n & Hn & z & -> & Hz).
    destruct Hbad as [Hmissing | [Hthrow | (n' & Hn' & Hout)]].
    + rewrite Hmissing in Hn. discriminate.
    + congruence.
    + rewrite Hn in Hn'. injection Hn' as <-. apply Hout. by exists z.
  - intros key n Hkey Hn Hbad. apply (Hreject key Hkey).
    rewrite Hn. simpl. intros (n' & [= <-] & Hin).
    apply stat_ok_spec in Hin.
    destruct Hbad as [-> | [-> | [-> | Hni]]]; try by vm_compute in Hin.
    unfold stat_ok in Hin. by rewrite Hni in Hin.
  - intros Href rawText. by apply refused_card_fails.
  - apply normalizeCardData_None.
  - intros n c s d se lo lu ch vi Ht Ho Hn Hne Hc Hce Hs Hse Hd Hde Hst Hso
           H1 H2 H3 H4 H5 Hall.
    apply normalizeCardData_Some. simpl. by split_and!.
Qed.

Lemma positive_integer_spec n :
  negb (isInteger n) || num_ltb n (num_of_Z 1) = false <->
  exists z, n = num_of_Z z /\ (1 <= z)%Z.
Proof.
  rewrite orb_false_iff, negb_false_iff. split.
  - intros [(z & ->)%isInteger_spec Hlo]. exists z. split; [done|].
    rewrite num_ltb_Z in Hlo. apply bool_decide_eq_false in Hlo. lia.
  - intros (z & -> & Hz). split; [apply isInteger_spec; eauto|].
    rewrite num_ltb_Z. apply bool_decide_eq_false. lia.
Qed.

(** The callback of [normalizeQuestions] on one entry. *)
Lemma normalizeQuestion_spec e :
  (forall q, normalizeQuestion e = Some (Some q) <->
             entry_ok e /\ question_of e = Some q)
  /\ (normalizeQuestion e = None <-> entry_throws e).
Proof.
  unfold normalizeQuestion, entry_ok, entry_throws, question_of.
  destruct (truthy e), (typeof_object e); simpl;
    try (split; [intros q; split; [done | by intros [(? & ? & _) _]]
                | split; [done | by intros (? & ? & _)]]).
  destruct (ToNumber (get e (str "id"))) as [id|]; simpl; cycle 1.
  { split; [intros q; split; [done | by intros [(_ & _ & (z & ? & _) & _) _]]|].
    split; [by auto | done]. }
  destruct (clampText_cases (get e (str "text")) 30 ltac:(lia)) as
    [[-> Ht]|[[-> Ht]|(t & t' & -> & Hte & Ht & Hte')]]; simpl.
  - split; [intros q; split; [done | by intros [_ ?]]|].
    split; [by auto | done].
  - rewrite orb_true_r. split.
    + intros q. split; [done|].
      intros [(_ & _ & _ & text & Htext & Hne) _]. congruence.
    + split; [done | intros (_ & _ & [?|?]); congruence].
  - rewrite (proj2 (is_empty_false t)) by done. rewrite orb_false_r.
    destruct (negb (isInteger id) || num_ltb id (num_of_Z 1)) eqn:Hid.
    + split.
      * intros q. split; [done|].
        intros [(_ & _ & (z & [= ->] & Hz) & _) _].
        assert (Hpos : negb (isInteger (num_of_Z z))
                       || num_ltb (num_of_Z z) (num_of_Z 1) = false)
          by (apply positive_integer_spec; eauto).
        congruence.
      * split; [done | intros (_ & _ & [?|?]); congruence].
    + apply positive_integer_spec in Hid as (z & -> & Hz). split.
      * intros q. split.
        -- intros [= <-]. split; [|done]. split_and!; eauto.
        -- by intros [_ [= <-]].
      * split; [done | intros (_ & _ & [?|?]); congruence].
Qed.

(** The array step of [normalizeQuestions]: the callback goes over all the
    entries. *)
Lemma normalized_all (entries : list jsval) :
  (Forall entry_ok entries ->
   exists qs : list Question.t,
     mapM question_of entries = Some qs
     /\ mapM normalizeQuestion entries = Some (Some <$> qs))
  /\ (mapM normalizeQuestion entries = None <-> Exists entry_throws entries)
  /\ (forall normalized : list (option Question.t),
        mapM normalizeQuestion entries = Some normalized ->
        existsb (fun q => match q with None => true | Some _ => false end)
                normalized = false ->
        Forall entry_ok entries
        /\ mapM question_of entries = Some (omap id normalized)).
Proof.
  induction entries as [|e entries (IHok & IHthrow & IHall)].
  - split_and!.
    + intros _. by exists [].
    + split; [done | by intros ?%Exists_nil].
    + intros normalized [= <-] _. by split.
  - destruct (normalizeQuestion_spec e) as [Hok Hthrow].
    cbn [mapM]. split_and!.
    + intros [He Hrest]%Forall_cons.
      destruct (IHok Hrest) as (qs & Hqs & Hnorm).
      destruct (question_of e) as [q|] eqn:Hq; cycle 1.
      { destruct He as (_ & _ & (z & Hz & _) & (t & Ht & Hne)).
        unfold question_of in Hq. rewrite Hz in Hq. simpl in Hq.
        destruct (clampText_cases (get e (str "text")) 30 ltac:(lia))
          as [[_ ?]|[[_ ?]|(c & c' & Hc & _)]]; [congruence..|].
        by rewrite Hc in Hq. }
      exists (q :: qs). rewrite Hqs, Hnorm. simpl.
      by rewrite (proj2 (Hok q) (conj He eq_refl)).
    + rewrite Exists_cons, <- Hthrow, <- IHthrow.
      destruct (normalizeQuestion e); simpl; [|by split; [left|]].
      destruct (mapM normalizeQuestion entries); simpl.
      * split; [done | by intros [?|?]].
      * split; [by right | done].
    + intros normalized Hn Hex.
      destruct (normalizeQuestion e) as [[q|]|] eqn:Hq; simpl in Hn;
        [| |done].
      * destruct (mapM normalizeQuestion entries) as [rest|]; simpl in Hn;
          [|done].
        injection Hn as <-. simpl in Hex.
        destruct (IHall rest eq_refl Hex) as [Hall Hqs].
        destruct (proj1 (Hok q) eq_refl) as [He Hq'].
        split; [by apply Forall_cons|].
        rewrite Hq', Hqs. done.
      * destruct (mapM normalizeQuestion entries) as [rest|]; simpl in Hn;
          [|done].
        injection Hn as <-. done.
Qed.

Lemma existsb_Some {A} (qs : list A) :
  existsb (fun q => match q with None => true | Some _ => false end)
          (Some <$> qs) = false
  /\ omap id (Some <$> qs) = qs.
Proof.
  induction qs as [|q qs [IH1 IH2]]; [done|]. split; [exact IH1|].
  change (q :: omap id (Some <$> qs) = q :: qs). by rewrite IH2.
Qed.

(** What [normalizeQuestions] accepts, and with what. *)
Lemma normalizeQuestions_Some raw set :
  normalizeQuestions raw = Some (Some set) <->
  truthy raw = true /\ typeof_object raw = true
  /\ exists entries,
       get raw (str "questions") = JArray entries
       /\ 4 <= length entries <= 5
       /\ clampText (get raw (str "session_id")) 64 = Some (sessionId set)
       /\ sessionId set <> []
       /\ Forall entry_ok entries
       /\ mapM question_of entries = Some (questions set).
Proof.
  unfold normalizeQuestions. split.
  - destruct (negb (truthy raw) || negb (typeof_object raw)) eqn:Hraw;
      [discriminate|].
    apply orb_false_iff in Hraw as [Ht%negb_false_iff Ho%negb_false_iff].
    destruct (get raw (str "questions")) as [| | | | |entries|]; try done.
    destruct (bool_decide (length entries < 4)) eqn:Hlo; [done|].
    destruct (bool_decide (5 < length entries)) eqn:Hhi; [done|].
    apply bool_decide_eq_false in Hlo, Hhi. simpl.
    destruct (clampText (get raw (str "session_id")) 64) as [sid|]; [|done].
    simpl. destruct (is_empty sid) eqn:Hsid; [done|].
    apply is_empty_false in Hsid.
    destruct (mapM normalizeQuestion entries) as [normalized|] eqn:Hn; [|done].
    simpl. destruct (existsb _ normalized) eqn:Hex; [done|].
    destruct (normalized_all entries) as (_ & _ & Hall).
    destruct (Hall normalized Hn Hex) as [Hok Hqs].
    intros [= <-]. split_and!; [done..|].
    exists entries. simpl. split_and!; [done | lia | lia | done..].
  - destruct set as [sid qs]. simpl.
    intros (Ht & Ho & entries & -> & Hlen & -> & Hsid & Hok & Hqs).
    rewrite Ht, Ho. simpl.
    rewrite !bool_decide_eq_false_2 by lia. simpl.
    apply is_empty_false in Hsid. rewrite Hsid.
    destruct (normalized_all entries) as (Hall & _ & _).
    destruct (Hall Hok) as (qs' & Hqs' & ->). simpl.
    destruct (existsb_Some qs') as [-> ->]. congruence.
Qed.

(** When [normalizeQuestions] throws: the count of the entries is right and
    the session id cannot be converted, or it is not empty and the callback
    throws on an entry. *)
Lemma normalizeQuestions_None raw :
  normalizeQuestions raw = None <->
  truthy raw = true /\ typeof_object raw = true
  /\ exists entries,
       get raw (str "questions") = JArray entries
       /\ 4 <= length entries <= 5
       /\ (trimmedText (get raw (str "session_id")) = None
           \/ ((exists t, trimmedText (get raw (str "session_id")) = Some t
                          /\ t <> [])
               /\ Exists entry_throws entries)).
Proof.
  unfold normalizeQuestions.
  destruct (truthy raw), (typeof_object raw); simpl;
    try (split; [done | by intros (? & ? & _)]).
  destruct (get raw (str "questions")) as [| | | | |entries|];
    try (split; [done | by intros (_ & _ & ? & ? & _)]).
  destruct (bool_decide (length entries < 4)) eqn:Hlo; simpl.
  { apply bool_decide_eq_true in Hlo.
    split; [done | intros (_ & _ & ? & [= <-] & ? & _); lia]. }
  destruct (bool_decide (5 < length entries)) eqn:Hhi; simpl.
  { apply bool_decide_eq_true in Hhi.
    split; [done | intros (_ & _ & ? & [= <-] & ? & _); lia]. }
  apply bool_decide_eq_false in Hlo, Hhi.
  destruct (normalized_all entries) as (_ & Hthrow & _).
  destruct (clampText_cases (get raw (str "session_id")) 64 ltac:(lia)) as
    [[-> Hs]|[[-> Hs]|(t & t' & -> & Hte & Hs & Hte')]]; simpl.
  - split; [|done]. intros _. split_and!; [done..|].
    exists entries. split_and!; [done | lia | lia | by left].
  - split; [done|].
    intros (_ & _ & ? & [= <-] & _ & [?|[(? & ? & ?) _]]); congruence.
  - rewrite (proj2 (is_empty_false t)) by done.
    destruct (mapM normalizeQuestion entries) as [normalized|]; simpl.
    + split; [by destruct (existsb _ _)|].
      intros (_ & _ & ? & [= <-] & _ & [?|[_ Hex]]); [congruence|].
      by apply Hthrow in Hex.
    + split; [|done]. intros _. split_and!; [done..|].
      exists entries. split_and!; [done | lia | lia |].
      right. split; [eauto | by apply Hthrow].
Qed.

End ValidationFacts.

(* ----------------------------------------------------------------- *)
(** ** Reading the backend's text *)

Section TextFacts.
Context {platform : Platform}.

Lemma indexOf_from_notin c s i : c ∉ s -> indexOf_from c s i = (-1)%Z.
Proof.
  revert i. induction s as [|x s IH]; intros i Hc; simpl; [done|].
  apply not_elem_of_cons in Hc as [Hne Hc].
  rewrite (proj2 (N.eqb_neq x c)) by congruence. by apply IH.
Qed.

Lemma indexOf_from_first c pre rest i :
  c ∉ pre -> indexOf_from c (pre ++ c :: rest) i = (i + Z.of_nat (length pre))%Z.
Proof.
  revert i. induction pre as [|x pre IH]; intros i Hc; simpl.
  - rewrite N.eqb_refl. lia.
  - apply not_elem_of_cons in Hc as [Hne Hc].
    rewrite (proj2 (N.eqb_neq x c)) by congruence. rewrite IH by done. lia.
Qed.

Lemma lastIndexOf_from_notin c s i found :
  c ∉ s -> lastIndexOf_from c s i found = found.
Proof.
  revert i found. induction s as [|x s IH]; intros i found Hc; simpl; [done|].
  apply not_elem_of_cons in Hc as [Hne Hc].
  rewrite (proj2 (N.eqb_neq x c)) by congruence. by apply IH.
Qed.

Lemma lastIndexOf_from_last c front post i found :
  c ∉ post ->
  lastIndexOf_from c (front ++ c :: post) i found = (i + Z.of_nat (length front))%Z.
Proof.
  intros Hc. revert i found.
  induction front as [|x front IH]; intros i found; simpl.
  - rewrite N.eqb_refl, lastIndexOf_from_notin by done. lia.
  - rewrite IH. lia.
Qed.

Lemma slice_span (pre mid post : jsstring) (a b : N) :
  slice (pre ++ a :: mid ++ b :: post) (Z.of_nat (length pre))
        (Z.of_nat (length (pre ++ a :: mid)) + 1)
  = a :: mid ++ [b].
Proof.
  unfold slice. rewrite Nat2Z.id, drop_app_length.
  rewrite length_app. simpl.
  replace (Z.to_nat _) with (length (a :: mid ++ [b]))
    by (simpl; rewrite length_app; simpl; lia).
  change (a :: mid ++ b :: post) with ((a :: mid) ++ [b] ++ post).
  rewrite app_assoc. apply take_app_length.
Qed.

Lemma extractJsonObject_span t span :
  brace_span t span ->
  extractJsonObject t =
  match JSON_parse span with inr v => v | inl _ => JNull end.
Proof.
  intros (pre & mid & post & -> & Hpre & Hpost & ->).
  unfold extractJsonObject.
  replace (is_empty _) with false by (by destruct pre).
  unfold indexOf, lastIndexOf.
  rewrite indexOf_from_first by done.
  change (pre ++ 123%N :: mid ++ 125%N :: post)
    with (pre ++ (123%N :: mid) ++ 125%N :: post).
  rewrite app_assoc, lastIndexOf_from_last by done.
  rewrite !bool_decide_eq_false_2 by (rewrite ?length_app; simpl; lia).
  simpl. rewrite <- app_assoc.
  change ((123%N :: mid) ++ 125%N :: post) with (123%N :: mid ++ 125%N :: post).
  rewrite !Z.add_0_l.
  by rewrite (slice_span pre mid post 123 125).
Qed.

Lemma extractJsonObject_no_span t :
  (forall span, ~ brace_span t span) -> extractJsonObject t = JNull.
Proof.
  intros Hnone. unfold extractJsonObject.
  destruct (is_empty t); [done|].
  destruct (decide (123%N ∈ t)) as [Hopen|Hopen]; cycle 1.
  { unfold indexOf. rewrite indexOf_from_notin by done.
    by rewrite bool_decide_eq_true_2. }
  destruct (decide (125%N ∈ t)) as [Hclose|Hclose]; cycle 1.
  { unfold lastIndexOf. rewrite lastIndexOf_from_notin by done.
    rewrite (bool_decide_eq_true_2 (-1 = -1)%Z) by done.
    by rewrite orb_true_r. }
  apply list_elem_of_split_l in Hopen as (pre & rest & Ht & Hpre).
  apply list_elem_of_split_r in Hclose as (front & post & Ht' & Hpost).
  assert (Hstart : indexOf t 123 = Z.of_nat (length pre)).
  { unfold indexOf. rewrite Ht, indexOf_from_first by done. lia. }
  assert (Hend : lastIndexOf t 125 = Z.of_nat (length front)).
  { unfold lastIndexOf. rewrite Ht', lastIndexOf_from_last by done. lia. }
  rewrite Hstart, Hend.
  destruct (decide (length front <= length pre)) as [Hle|Hgt].
  { rewrite (bool_decide_eq_true_2 (_ <= _)%Z) by lia.
    by rewrite orb_true_r. }
  exfalso.
  set (k := length front - length pre - 1).
  assert (Hk : length front = length pre + S k) by lia. clearbody k.
  assert (Hfront : front = pre ++ 123%N :: take k rest).
  { pose proof (take_app_length front (125%N :: post)) as Hf.
    rewrite <- Ht', Hk, Ht, take_app_add in Hf. by rewrite <- Hf. }
  apply (Hnone (123%N :: take k rest ++ [125%N])).
  exists pre, (take k rest), post.
  split_and!; [|done..].
  rewrite Ht', Hfront. by rewrite <- app_assoc.
Qed.

Lemma extractJsonObject_fails t :
  (forall span, ~ brace_span t span)
  \/ (exists span msg, brace_span t span /\ JSON_parse span = inl msg) ->
  extractJsonObject t = JNull.
Proof.
  intros [Hnone | (span & msg & Hspan & Hparse)].
  - by apply extractJsonObject_no_span.
  - by rewrite (extractJsonObject_span t span Hspan), Hparse.
Qed.

Lemma normalizeQuestions_truthy v qs :
  normalizeQuestions v = Some (Some qs) -> truthy v = true.
Proof. unfold normalizeQuestions. by destruct (truthy v). Qed.

Lemma normalizeCardData_truthy v card :
  normalizeCardData v = Some (Some card) -> truthy v = true.
Proof. unfold normalizeCardData. by destruct (truthy v). Qed.

(** Only an object or an array has properties. *)
Lemma get_truthy v k : get v k <> JUndefined -> truthy v = true.
Proof. by destruct v. Qed.

(** What one attempt does with the reply to its request. *)
Lemma attempt_reply backend m :
  (forall e, backend m = Thrown e ->
     cardAttempt backend m = (inl e, S m)
     /\ questionsAttempt backend m = (inl e, S m))
  /\ (forall data content, backend m = Body data ->
        get (get data (str "message")) (str "content") = JString content ->
        cardAttempt backend m = (cardFromText content, S m)
        /\ questionsAttempt backend m = (questionsFromText content, S m))
  /\ (forall data, backend m = Body data ->
        (forall content,
           get (get data (str "message")) (str "content") <> JString content) ->
        cardAttempt backend m
        = (inl (mkError (str "Invalid Ollama response")), S m)
        /\ questionsAttempt backend m
           = (inl (mkError (str "Invalid Ollama response")), S m)).
Proof.
  unfold cardAttempt, questionsAttempt, bind, lift, callOllamaChat.
  split_and!.
  - by intros e ->.
  - intros data content -> Hcontent. rewrite Hcontent.
    assert (Hmsg : truthy (get data (str "message")) = true).
    { apply (get_truthy _ (str "content")). by rewrite Hcontent. }
    assert (Hdata : truthy data = true).
    { apply (get_truthy _ (str "message")). intros Hu.
      by rewrite Hu in Hmsg. }
    by rewrite Hmsg, Hdata.
  - intros data -> Hnone.
    destruct (get (get data (str "message")) (str "content")) as [| | | |s| |];
      try done.
    by destruct (Hnone s).
Qed.

(** C5. An attempt works on the text of the reply to its request, the
    content of the reply's message. An attempt on a text whose trimmed form
    is empty fails with a parse error. Otherwise the whole text is parsed
    first (as received for a card, trimmed for questions) and a value it
    parses to goes to validation; when that parse fails, the span of the
    trimmed text from its first opening brace to its last closing brace is
    parsed instead; a value it parses to goes to validation, and one that
    validates is the result; when the trimmed text has no such span, or the
    span does not parse, the attempt fails with a parse error. *)
Theorem attempt_parses_then_extracts rawText :
  let t := trim rawText in
  (forall backend m data,
     backend m = Body data ->
     get (get data (str "message")) (str "content") = JString rawText ->
     cardAttempt backend m = (cardFromText rawText, S m)
     /\ questionsAttempt backend m = (questionsFromText rawText, S m))
  /\ (t = [] ->
      (exists e, cardFromText rawText = inl e /\ parse_error e)
      /\ (exists e, questionsFromText rawText = inl e /\ parse_error e))
  /\ (t <> [] ->
      (forall v, JSON_parse rawText = inr v ->
                 cardFromText rawText = validateCard v)
      /\ (forall v, JSON_parse t = inr v ->
                    questionsFromText rawText = validateQuestions v)
      /\ (forall msg, JSON_parse rawText = inl msg ->
            (forall span v,
               brace_span t span -> JSON_parse span = inr v ->
               truthy v = true ->
               cardFromText rawText = validateCard v)
            /\ (forall span v card,
                  brace_span t span -> JSON_parse span = inr v ->
                  normalizeCardData v = Some (Some card) ->
                  cardFromText rawText = inr card)
            /\ ((forall span, ~ brace_span t span)
                \/ (exists span msg', brace_span t span
                                      /\ JSON_parse span = inl msg') ->
                exists e, cardFromText rawText = inl e /\ parse_error e))
      /\ (forall msg, JSON_parse t = inl msg ->
            (forall span v,
               brace_span t span -> JSON_parse span = inr v ->
               truthy v = true ->
               questionsFromText rawText = validateQuestions v)
            /\ (forall span v qs,
                  brace_span t span -> JSON_parse span = inr v ->
                  normalizeQuestions v = Some (Some qs) ->
                  questionsFromText rawText = inr qs)
            /\ ((forall span, ~ brace_span t span)
                \/ (exists span msg', brace_span t span
                                      /\ JSON_parse span = inl msg') ->
                exists e, questionsFromText rawText = inl e /\ parse_error e))).
Proof.
  intros t. split_and!.
  - intros backend m data Hm Hcontent.
    destruct (attempt_reply backend m) as (_ & Hbody & _).
    by apply (Hbody data).
  - intros Ht. unfold cardFromText, questionsFromText. fold t. rewrite Ht.
    simpl. split; eexists; (split; [done|]); eexists; simpl; eauto.
  - intros Ht%is_empty_false. split_and!.
    + intros v Hv. unfold cardFromText. fold t. by rewrite Ht, Hv.
    + intros v Hv. unfold questionsFromText. fold t. by rewrite Ht, Hv.
    + intros msg Hmsg.
      assert (Hspan : forall span v,
                brace_span t span -> JSON_parse span = inr v ->
                truthy v = true -> cardFromText rawText = validateCard v).
      { intros span v Hspan Hv Htruthy.
        unfold cardFromText. fold t. rewrite Ht, Hmsg.
        by rewrite (extractJsonObject_span t span Hspan), Hv, Htruthy. }
      split_and!; [done| |].
      * intros span v card Hsp Hv Hcard.
        rewrite (Hspan span v Hsp Hv (normalizeCardData_truthy v card Hcard)).
        unfold validateCard. by rewrite Hcard.
      * intros Hfail%extractJsonObject_fails.
        unfold cardFromText. fold t. rewrite Ht, Hmsg, Hfail. simpl.
        eexists. split; [done|]. eexists. simpl. eauto.
    + intros msg Hmsg.
      assert (Hspan : forall span v,
                brace_span t span -> JSON_parse span = inr v ->
                truthy v = true ->
                questionsFromText rawText = validateQuestions v).
      { intros span v Hspan Hv Htruthy.
        unfold questionsFromText. fold t. rewrite Ht, Hmsg.
        by rewrite (extractJsonObject_span t span Hspan), Hv, Htruthy. }
      split_and!; [done| |].
      * intros span v qs Hsp Hv Hqs.
        rewrite (Hspan span v Hsp Hv (normalizeQuestions_truthy v qs Hqs)).
        unfold validateQuestions. by rewrite Hqs.
      * intros Hfail%extractJsonObject_fails.
        unfold questionsFromText. fold t. rewrite Ht, Hmsg, Hfail. simpl.
        eexists. split; [done|]. eexists. simpl. eauto.
Qed.

End TextFacts.

(* ----------------------------------------------------------------- *)
(** ** The attempt loop *)

Section RetryFacts.
Context {platform : Platform}.

Lemma callOllamaChat_calls backend n : (callOllamaChat backend n).2 = S n.
Proof.
  unfold callOllamaChat. destruct (backend n) as [e|data]; [done|].
  destruct (get _ _); try done. by destruct (_ || _).
Qed.

Lemma cardAttempt_calls backend n : (cardAttempt backend n).2 = S n.
Proof.
  unfold cardAttempt, bind, lift.
  pose proof (callOllamaChat_calls backend n) as Hc.
  by destruct (callOllamaChat backend n) as [[e|text] n'].
Qed.

Lemma questionsAttempt_calls backend n : (questionsAttempt backend n).2 = S n.
Proof.
  unfold questionsAttempt, bind, lift.
  pose proof (callOllamaChat_calls backend n) as Hc.
  by destruct (callOllamaChat backend n) as [[e|text] n'].
Qed.

(** The loop with three attempts, unrolled. *)
Lemma attempt_loop_three {A} (body : Gen A) fallback n :
  (forall m, (body m).2 = S m) ->
  attempt_loop body fallback 3 None n =
  match (body (n + 0)).1 with
  | inr v => (inr v, n + 0 + 1)
  | inl _ =>
      match (body (n + 1)).1 with
      | inr v => (inr v, n + 1 + 1)
      | inl _ =>
          match (body (n + 2)).1 with
          | inr v => (inr v, n + 2 + 1)
          | inl e => (inl e, n + 3)
          end
      end
  end.
Proof.
  intros Hcalls. simpl. unfold try_catch, throw.
  pose proof (Hcalls n) as H0. pose proof (Hcalls (n + 1)) as H1.
  pose proof (Hcalls (n + 2)) as H2.
  rewrite Nat.add_0_r.
  destruct (body n) as [[e0|v0] n0]; simpl in *; subst n0;
    [|f_equal; lia].
  replace (S n) with (n + 1) by lia.
  destruct (body (n + 1)) as [[e1|v1] n1]; simpl in *; subst n1;
    [|f_equal; lia].
  replace (S (n + 1)) with (n + 2) by lia.
  destruct (body (n + 2)) as [[e2|v2] n2]; simpl in *; subst n2;
    f_equal; lia.
Qed.

Lemma attempt_loop_three_attempts {A} (body : Gen A) fallback n :
  (forall m, (body m).2 = S m) ->
  three_attempts (fun k => (body (n + k)).1) n
                 (attempt_loop body fallback 3 None n).
Proof.
  intros Hcalls. rewrite (attempt_loop_three body fallback n Hcalls).
  set (attempt := fun k => (body (n + k)).1).
  change (body (n + 0)).1 with (attempt 0).
  change (body (n + 1)).1 with (attempt 1).
  change (body (n + 2)).1 with (attempt 2).
  clearbody attempt. unfold three_attempts. split_and!.
  - destruct (attempt 0), (attempt 1), (attempt 2); simpl; lia.
  - destruct (attempt 0), (attempt 1), (attempt 2); simpl; lia.
  - intros k v Hk Hfail Hv. destruct k as [|[|[|k]]]; [| | |lia].
    + by rewrite Hv.
    + destruct (Hfail 0) as [e0 He0]; [lia|]. by rewrite He0, Hv.
    + destruct (Hfail 0) as [e0 He0]; [lia|].
      destruct (Hfail 1) as [e1 He1]; [lia|]. by rewrite He0, He1, Hv.
  - intros e Hall He.
    destruct (Hall 0) as [e0 He0]; [lia|].
    destruct (Hall 1) as [e1 He1]; [lia|]. by rewrite He0, He1, He.
  - intros e.
    destruct (attempt 0) as [e0|] eqn:E0; [|discriminate].
    destruct (attempt 1) as [e1|] eqn:E1; [|discriminate].
    destruct (attempt 2) as [e2|] eqn:E2; [|discriminate].
    simpl. intros [= <-]. split_and!; [done..|].
    intros j Hj. destruct j as [|[|[|j]]]; [eauto.. | lia].
Qed.

(** C4. A generation call makes at most three attempts, each with one new
    request to the backend, whose outcome alone decides the attempt: a
    request that throws fails the attempt with its error, a reply without a
    text content fails it, and a reply with a text content makes the attempt
    the parsing and validation of that text. The first attempt that parses
    and validates ends the call with its value; when all three fail the call
    fails with the error of the last attempt; and the call fails in no other
    case, so no failure of an attempt reaches the caller before the third. *)
Theorem generation_retries backend n :
  three_attempts (fun k => (cardAttempt backend (n + k)).1) n
                 (generateCardData backend n)
  /\ three_attempts (fun k => (questionsAttempt backend (n + k)).1) n
                    (generateQuestions backend n)
  /\ (forall m, (cardAttempt backend m).2 = S m
                /\ (questionsAttempt backend m).2 = S m)
  /\ (forall backend' m, backend m = backend' m ->
        cardAttempt backend m = cardAttempt backend' m
        /\ questionsAttempt backend m = questionsAttempt backend' m)
  /\ (forall m e, backend m = Thrown e ->
        cardAttempt backend m = (inl e, S m)
        /\ questionsAttempt backend m = (inl e, S m))
  /\ (forall m data content, backend m = Body data ->
        get (get data (str "message")) (str "content") = JString content ->
        cardAttempt backend m = (cardFromText content, S m)
        /\ questionsAttempt backend m = (questionsFromText content, S m))
  /\ (forall m data, backend m = Body data ->
        (forall content,
           get (get data (str "message")) (str "content") <> JString content) ->
        cardAttempt backend m
        = (inl (mkError (str "Invalid Ollama response")), S m)
        /\ questionsAttempt backend m
           = (inl (mkError (str "Invalid Ollama response")), S m)).
Proof.
  split_and!.
  - apply attempt_loop_three_attempts, cardAttempt_calls.
  - apply attempt_loop_three_attempts, questionsAttempt_calls.
  - intros m. split; [apply cardAttempt_calls | apply questionsAttempt_calls].
  - intros backend' m Hm.
    unfold cardAttempt, questionsAttempt, bind, callOllamaChat.
    by rewrite Hm.
  - intros m. by destruct (attempt_reply backend m) as (Hthrown & _ & _).
  - intros m. by destruct (attempt_reply backend m) as (_ & Hbody & _).
  - intros m. by destruct (attempt_reply backend m) as (_ & _ & Hnone).
Qed.

Lemma normalizeQuestions_well_formed raw qs :
  normalizeQuestions raw = Some (Some qs) -> well_formed_questions qs.
Proof.
  intros (_ & _ & entries & _ & Hlen & Hsid & Hne & Hall & Hqs)
    %normalizeQuestions_Some.
  apply mapM_Some_1 in Hqs.
  unfold well_formed_questions.
  rewrite <- (Forall2_length _ _ _ Hqs).
  split_and!; [lia | lia | done | by apply (clampText_length _ _ _ Hsid) |].
  intros q Hq.
  apply list_elem_of_lookup in Hq as (i & Hi).
  destruct (Forall2_lookup_r _ _ _ _ _ Hqs Hi) as (e & He & Hqe).
  rewrite Forall_forall in Hall.
  destruct (Hall e) as (_ & _ & (z & Hz & Hpos) & (t & Ht & Htne));
    [by apply (list_elem_of_lookup_2 _ i)|].
  unfold question_of in Hqe. rewrite Hz in Hqe. simpl in Hqe.
  destruct (clampText (get e (str "text")) 30) as [text|] eqn:Htext;
    [|done].
  injection Hqe as <-. simpl. split_and!.
  - by exists z.
  - intros ->. apply (clampText_nil _ 30) in Htext; [|lia]. congruence.
  - by apply (clampText_length _ _ _ Htext).
Qed.

Lemma questionsFromText_inr rawText qs :
  questionsFromText rawText = inr qs ->
  exists v, normalizeQuestions v = Some (Some qs).
Proof.
  unfold questionsFromText. destruct (is_empty _); [discriminate|].
  destruct (JSON_parse _) as [msg|v].
  - destruct (truthy _); [|discriminate].
    destruct (normalizeQuestions _) as [[qs'|]|] eqn:Hn; try discriminate.
    intros [= <-]. eauto.
  - destruct (normalizeQuestions v) as [[qs'|]|] eqn:Hn; try discriminate.
    intros [= <-]. eauto.
Qed.

Lemma questionsAttempt_inr backend m qs :
  (questionsAttempt backend m).1 = inr qs ->
  exists v, normalizeQuestions v = Some (Some qs).
Proof.
  unfold questionsAttempt, bind, lift.
  destruct (callOllamaChat backend m) as [[e|text] m']; [discriminate|].
  simpl. apply questionsFromText_inr.
Qed.

(** C7, as amended. A question set that [normalizeQuestions] accepts, and so
    every set [generateQuestions] returns, has four or five questions, each
    with an id that is an integer of at least 1 and a text that is not empty
    and has at most 30 code units. A candidate is refused (the validation
    returns [null] or throws, and either way the attempt fails) when it has
    fewer than four or more than five entries, or an entry that is not an
    object, whose id does not convert to an integer of at least 1, or whose
    text is empty after trimming or cannot be converted. The validation
    returns [null] when the entries are no array or their count is wrong; it
    throws exactly when the count is right and the session id cannot be
    converted to a string, or is not empty and there is an entry, an object,
    whose id or text cannot be converted. Nothing else is checked of the
    entries: whenever the count is right and every entry passes those tests
    the candidate is accepted, with the ids as converted and each text cut
    to 30 code units, whether or not two entries have the same id. *)
Theorem questions_validation raw :
  (forall qs, normalizeQuestions raw = Some (Some qs) ->
              well_formed_questions qs)
  /\ (forall backend n qs n',
        generateQuestions backend n = (inr qs, n') -> well_formed_questions qs)
  /\ (forall entries, get raw (str "questions") = JArray entries ->
        length entries < 4 \/ 5 < length entries
        \/ Exists (fun e => ~ entry_ok e) entries ->
        refused (normalizeQuestions raw))
  /\ (refused (normalizeQuestions raw) ->
      forall rawText, trim rawText <> [] -> JSON_parse (trim rawText) = inr raw ->
        exists e, questionsFromText rawText = inl e)
  /\ ((forall entries, get raw (str "questions") <> JArray entries) ->
      normalizeQuestions raw = Some None)
  /\ (forall entries, get raw (str "questions") = JArray entries ->
        length entries < 4 \/ 5 < length entries ->
        normalizeQuestions raw = Some None)
  /\ (normalizeQuestions raw = None <->
      truthy raw = true /\ typeof_object raw = true
      /\ exists entries,
           get raw (str "questions") = JArray entries
           /\ 4 <= length entries <= 5
           /\ (trimmedText (get raw (str "session_id")) = None
               \/ ((exists t, trimmedText (get raw (str "session_id")) = Some t
                              /\ t <> [])
                   /\ Exists entry_throws entries)))
  /\ (forall entries sid,
        truthy raw = true -> typeof_object raw = true ->
        get raw (str "questions") = JArray entries ->
        4 <= length entries <= 5 ->
        clampText (get raw (str "session_id")) 64 = Some sid -> sid <> [] ->
        Forall entry_ok entries ->
        exists questions,
          mapM question_of entries = Some questions
          /\ normalizeQuestions raw =
             Some (Some {| sessionId := sid; questions := questions |})).
Proof.
  split_and!.
  - intros qs. apply normalizeQuestions_well_formed.
  - intros backend n qs n' Hgen.
    unfold generateQuestions in Hgen.
    rewrite (attempt_loop_three _ _ n (questionsAttempt_calls backend)) in Hgen.
    assert (Hsome : exists m, (questionsAttempt backend m).1 = inr qs).
    { destruct (questionsAttempt backend (n + 0)).1 eqn:E0;
        [|exists (n + 0); congruence].
      destruct (questionsAttempt backend (n + 1)).1 eqn:E1;
        [|exists (n + 1); congruence].
      destruct (questionsAttempt backend (n + 2)).1 eqn:E2;
        [discriminate | exists (n + 2); congruence]. }
    destruct Hsome as (m & (v & Hv)%questionsAttempt_inr).
    by apply (normalizeQuestions_well_formed v).
  - intros entries Hq Hbad. unfold refused.
    destruct (normalizeQuestions raw) as [[qs|]|] eqn:Hn;
      [|by right|by left].
    apply normalizeQuestions_Some
      in Hn as (_ & _ & entries' & Hq' & Hlen & _ & _ & Hall & _).
    rewrite Hq in Hq'. injection Hq' as <-.
    destruct Hbad as [? | [? | Hex]]; [lia | lia |].
    apply Exists_exists in Hex as (e & He & Hno).
    rewrite Forall_forall in Hall. destruct Hno. by apply Hall.
  - intros Href rawText Ht%is_empty_false Hparse. unfold questionsFromText.
    rewrite Ht, Hparse. destruct Href as [-> | ->]; eauto.
  - intros Hnot. unfold normalizeQuestions.
    destruct (negb (truthy raw) || negb (typeof_object raw)); [done|].
    destruct (get raw (str "questions")) as [| | | | |entries|]; try done.
    by destruct (Hnot entries).
  - intros entries Hq Hlen. unfold normalizeQuestions.
    destruct (negb (truthy raw) || negb (typeof_object raw)); [done|].
    rewrite Hq.
    destruct Hlen as [Hlo | Hhi].
    + by rewrite (bool_decide_eq_true_2 (length entries < 4)) by done.
    + rewrite (bool_decide_eq_true_2 (5 < length entries)) by done.
      by rewrite orb_true_r.
  - apply normalizeQuestions_None.
  - intros entries sid Ht Ho Hq Hlen Hsid Hne Hall.
    destruct (normalized_all entries) as (Hok & _ & _).
    destruct (Hok Hall) as (qs & Hqs & _).
    exists qs. split; [done|].
    apply normalizeQuestions_Some. split_and!; [done..|].
    exists entries. simpl. split_and!; [done | lia | lia | done..].
Qed.

End RetryFacts.

(* ================================================================= *)
(** * Further properties of the code *)

(* ----------------------------------------------------------------- *)
(** ** Escaping *)

Section RenderFacts.
Context {platform : Platform}.

Lemma replaceAll_app c by_ s t :
  replaceAll c by_ (s ++ t) = replaceAll c by_ s ++ replaceAll c by_ t.
Proof. apply flat_map_app. Qed.

Lemma not_markup c :
  c ∉ markup <-> c <> 38%N /\ c <> 60%N /\ c <> 62%N /\ c <> 34%N /\ c <> 39%N.
Proof.
  unfold markup. rewrite !not_elem_of_cons. split.
  - intros (? & ? & ? & ? & ? & _). done.
  - intros (? & ? & ? & ? & ?). split_and!; try done. apply not_elem_of_nil.
Qed.

Lemma entity_spec c :
  (c = 38%N /\ entity c = str "&amp;") \/ (c = 60%N /\ entity c = str "&lt;")
  \/ (c = 62%N /\ entity c = str "&gt;") \/ (c = 34%N /\ entity c = str "&quot;")
  \/ (c = 39%N /\ entity c = str "&apos;") \/ ((c ∉ markup) /\ entity c = [c]).
Proof.
  unfold entity.
  destruct (N.eqb_spec c 38); [by left|right].
  destruct (N.eqb_spec c 60); [by left|right].
  destruct (N.eqb_spec c 62); [by left|right].
  destruct (N.eqb_spec c 34); [by left|right].
  destruct (N.eqb_spec c 39); [by left|right].
  split; [|done]. by apply not_markup.
Qed.

Ltac eval_literals :=
  repeat match goal with
         | |- context [str ?s] =>
             let v := eval vm_compute in (str s) in change (str s) with v
         end.

Ltac entity_cases c H :=
  destruct (entity_spec c)
    as [[-> H]|[[-> H]|[[-> H]|[[-> H]|[[-> H]|[?%not_markup H]]]]]].

Lemma escape_unit c :
  replaceAll 39 (str "&apos;")
    (replaceAll 34 (str "&quot;")
       (replaceAll 62 (str "&gt;")
          (replaceAll 60 (str "&lt;")
             (replaceAll 38 (str "&amp;") [c])))) = entity c.
Proof.
  entity_cases c H; rewrite H; try reflexivity.
  destruct_and!. unfold replaceAll. simpl.
  repeat (rewrite (proj2 (N.eqb_neq c _)) by done; simpl).
  reflexivity.
Qed.

Lemma escape_flat_map text :
  replaceAll 39 (str "&apos;")
    (replaceAll 34 (str "&quot;")
       (replaceAll 62 (str "&gt;")
          (replaceAll 60 (str "&lt;")
             (replaceAll 38 (str "&amp;") text)))) = flat_map entity text.
Proof.
  induction text as [|c s IH]; [done|].
  change (c :: s) with ([c] ++ s).
  rewrite !replaceAll_app, IH, escape_unit. reflexivity.
Qed.

Lemma escapeXml_flat_map value :
  escapeXml value = flat_map entity <$> ToString value.
Proof.
  unfold escapeXml. destruct (ToString value) as [text|]; [|done].
  simpl. by rewrite escape_flat_map.
Qed.

Lemma entity_length c : 1 <= length (entity c) <= 6.
Proof. entity_cases c H; rewrite H; simpl; lia. Qed.

Lemma entity_safe c x : x ∈ entity c -> x ∉ [60; 62; 34; 39]%N.
Proof.
  intros Hx.
  assert (Hne : x <> 60%N /\ x <> 62%N /\ x <> 34%N /\ x <> 39%N).
  { entity_cases c H; rewrite H in Hx.
    1-5: vm_compute in Hx; repeat (apply elem_of_cons in Hx as [->|Hx]);
         [done.. | by apply not_elem_of_nil in Hx].
    apply list_elem_of_singleton in Hx as ->. destruct_and!. done. }
  rewrite !not_elem_of_cons. destruct_and!. split_and!; try done.
  apply not_elem_of_nil.
Qed.

(** X1. [escapeXml] acts unit by unit, although it is written as five
    passes: the result is the text of the value with each of the five markup
    units replaced by its entity, the ampersands the passes put in being
    left alone, and it throws exactly when the conversion of the value to a
    string throws. So the result has none of the units [<], [>], the double
    quote and the apostrophe; it is at least as long as the text and at most
    six times as long; and a text with none of the five units is returned as
    it is. *)
Theorem escapeXml_entities value :
  escapeXml value = flat_map entity <$> ToString value
  /\ (forall escaped, escapeXml value = Some escaped ->
        forall c, c ∈ escaped -> c ∉ [60; 62; 34; 39]%N)
  /\ (forall text, ToString value = Some text ->
        exists escaped,
          escapeXml value = Some escaped
          /\ length text <= length escaped <= 6 * length text)
  /\ (forall text, ToString value = Some text ->
        (forall c, c ∈ text -> c ∉ markup) ->
        escapeXml value = Some text).
Proof.
  rewrite escapeXml_flat_map. split_and!.
  - done.
  - intros escaped (text & _ & ->)%fmap_Some c
           (x & Hx & Hc)%list_elem_of_In%in_flat_map.
    apply (entity_safe x). by apply list_elem_of_In.
  - intros text ->. eexists. split; [done|].
    induction text as [|c s IH]; simpl; [lia|].
    rewrite length_app. pose proof (entity_length c). lia.
  - intros text ->. simpl. intros Hsafe. f_equal.
    induction text as [|c s IH]; [done|].
    simpl.
    rewrite IH by (intros x Hx; apply Hsafe; by apply elem_of_cons; right).
    assert (Hc : c ∉ markup) by (apply Hsafe, elem_of_cons; by left).
    entity_cases c H; rewrite H; try done;
      apply not_markup in Hc; by destruct_and!.
Qed.

Lemma flat_map_entity_inj s t :
  flat_map entity s = flat_map entity t -> s = t.
Proof.
  revert t. induction s as [|x s IH]; intros [|y t]; simpl.
  - done.
  - intros H. apply (f_equal (@length N)) in H. rewrite length_app in H.
    pose proof (entity_length y). simpl in H. lia.
  - intros H. apply (f_equal (@length N)) in H. rewrite length_app in H.
    pose proof (entity_length x). simpl in H. lia.
  - entity_cases x Hx; rewrite Hx; entity_cases y Hy; rewrite Hy;
      eval_literals; simpl; intros Heq; try discriminate Heq;
      try (injection Heq as Heq; f_equal; by apply IH);
      try (injection Heq as ? Heq; destruct_and!; congruence).
    injection Heq as -> Heq. f_equal. by apply IH.
Qed.

(** X2. [escapeXml] loses nothing: two values with the same escaped text
    have the same text. *)
Theorem escapeXml_injective a b :
  escapeXml a = escapeXml b -> ToString a = ToString b.
Proof.
  rewrite !escapeXml_flat_map.
  destruct (ToString a) as [s|], (ToString b) as [t|]; simpl; try done.
  intros [= Heq]. f_equal. by apply flat_map_entity_inj.
Qed.

End RenderFacts.

(* ----------------------------------------------------------------- *)
(** ** Line wrapping *)

Section WrapFacts.
Context {platform : Platform}.

Lemma trimStart_head c r s : trimStart s = c :: r -> is_space c = false.
Proof.
  induction s as [|x s IH]; simpl; [done|].
  destruct (is_space x) eqn:Hx; [done|]. by intros [= -> ->].
Qed.

Lemma trimStart_suffix s : exists pre, s = pre ++ trimStart s.
Proof.
  induction s as [|x s [pre IH]]; simpl; [by exists []|].
  destruct (is_space x); [|by exists []].
  exists (x :: pre). simpl. by f_equal.
Qed.

Lemma trim_head c r s : trim s = c :: r -> is_space c = false.
Proof.
  unfold trim, trimEnd. intros Htrim.
  destruct (trimStart_suffix (rev (trimStart s))) as [pre Hpre].
  apply (f_equal (@rev N)) in Hpre. rewrite rev_involutive, rev_app_distr in Hpre.
  rewrite Htrim in Hpre. simpl in Hpre.
  by apply (trimStart_head c (r ++ rev pre) s).
Qed.

Lemma trim_last pre c s : trim s = pre ++ [c] -> is_space c = false.
Proof.
  unfold trim, trimEnd. intros Htrim.
  apply (f_equal (@rev N)) in Htrim.
  rewrite rev_involutive, rev_app_distr in Htrim. simpl in Htrim.
  by apply trimStart_head in Htrim.
Qed.

Lemma split_spaces_from_words s current in_run :
  (forall pre c, s = pre ++ [c] -> is_space c = false) ->
  (s = [] -> current <> []) ->
  (forall c r, s = c :: r -> is_space c = true -> in_run = true \/ current <> []) ->
  Forall (fun c => is_space c = false) current ->
  Forall is_word (split_spaces_from s current in_run).
Proof.
  revert current in_run. induction s as [|x s IH]; intros current in_run Hlast Hnil Hhead Hcur.
  - simpl. constructor; [|done]. split; [by apply Hnil | done].
  - assert (Hlast' : forall pre c, s = pre ++ [c] -> is_space c = false).
    { intros pre c ->. by apply (Hlast (x :: pre) c). }
    simpl. destruct (is_space x) eqn:Hx.
    + assert (Hs : s <> []).
      { intros ->. by rewrite (Hlast [] x) in Hx. }
      destruct in_run.
      * apply IH; try done. intros c r _ _. by left.
      * destruct (Hhead x s) as [?|Hne]; [done..|].
        constructor; [done|].
        apply IH; try done. intros c r _ _. by left.
    + apply IH; try done.
      * intros _. by destruct current.
      * intros c r _ _. right. by destruct current.
      * apply Forall_app. split; [done|]. by constructor.
Qed.

(** The words of a trimmed text that is not empty. *)
Lemma split_spaces_trim s :
  trim s <> [] -> Forall is_word (split_spaces (trim s)).
Proof.
  intros Hne. apply split_spaces_from_words; try done.
  - intros pre c. apply trim_last.
  - intros c r Hs Hc. by rewrite (trim_head c r s Hs) in Hc.
Qed.

Lemma join_space_snoc g w :
  g <> [] -> join_space (g ++ [w]) = join_space g ++ str " " ++ w.
Proof.
  induction g as [|x g IH]; [done|]. intros _.
  destruct g as [|y g]; [done|].
  change (join_space ((x :: y :: g) ++ [w]))
    with (x ++ str " " ++ join_space ((y :: g) ++ [w])).
  rewrite IH by done.
  change (join_space (x :: y :: g)) with (x ++ str " " ++ join_space (y :: g)).
  by rewrite <- !app_assoc.
Qed.

Lemma join_space_nil g :
  Forall (fun w => w <> []) g -> join_space g = [] -> g = [].
Proof.
  destruct g as [|x g]; [done|]. intros Hg%Forall_cons_1 Hjoin.
  destruct Hg as [Hx _]. destruct g; simpl in Hjoin.
  - done.
  - by apply app_eq_nil in Hjoin as [? _].
Qed.

Lemma tight_snoc w lgs cg rest :
  tight w lgs (cg ++ rest) ->
  match rest with
  | [] => True
  | word :: _ => w < length (join_space (cg ++ [word]))
  end ->
  tight w (lgs ++ [cg]) rest.
Proof.
  intros Hlgs Hcg. induction lgs as [|g gs IH]; simpl in *.
  - by destruct rest.
  - destruct Hlgs as [Hg Hgs]. split; [|by apply IH].
    rewrite concat_app. simpl. by rewrite app_nil_r, <- app_assoc.
Qed.

Lemma wrapText_loop_spec w n words :
  Forall (fun word => word <> []) words ->
  forall lgs cg,
    Forall (fun word => word <> []) cg ->
    Forall (line_ok w) lgs ->
    cg = [] \/ line_ok w cg ->
    length lgs < n \/ (lgs = [] /\ cg = []) ->
    tight w lgs (cg ++ words) ->
    exists lgs' cg' rest,
      wrapText_loop words w n (map join_space lgs) (join_space cg)
      = (map join_space lgs', join_space cg')
      /\ concat lgs ++ cg ++ words = concat lgs' ++ cg' ++ rest
      /\ Forall (fun word => word <> []) cg'
      /\ Forall (line_ok w) lgs'
      /\ (cg' = [] \/ line_ok w cg')
      /\ length lgs' <= n
      /\ (rest <> [] -> length lgs' = n)
      /\ tight w lgs' (cg' ++ rest).
Proof.
  induction 1 as [|word words Hword Hwords IH]; intros lgs cg Hcg Hlgs Hok Hlen Htight.
  - exists lgs, cg, []. simpl. split_and!; try done.
    destruct Hlen as [?|[-> _]]; simpl; lia.
  - (* the state after the body of the loop *)
    assert (Hstep : exists lgs1 cg1,
      (let next := if is_empty (join_space cg) then word
                   else join_space cg ++ str " " ++ word in
       if decide (length next <= w) then (map join_space lgs, next)
       else (if is_empty (join_space cg) then map join_space lgs
             else map join_space lgs ++ [join_space cg], word))
      = (map join_space lgs1, join_space cg1)
      /\ concat lgs ++ cg ++ word :: words = concat lgs1 ++ cg1 ++ words
      /\ Forall (fun word => word <> []) cg1
      /\ Forall (line_ok w) lgs1
      /\ line_ok w cg1
      /\ (length lgs1 <= n)
      /\ (n <= length lgs1 -> length lgs1 = n)
      /\ tight w lgs1 (cg1 ++ words)).
    { destruct cg as [|c0 cg0].
      - (* no current line: the word starts one *)
        exists lgs, [word]. simpl.
        split_and!; try done.
        + by destruct (decide _).
        + by constructor.
        + split; [done|]. right. by exists word.
        + destruct Hlen as [?|[-> _]]; simpl; lia.
        + destruct Hlen as [?|[-> _]]; simpl; lia.
      - set (cg := c0 :: cg0) in *.
        assert (Hne : cg <> []) by done.
        assert (Hjoin : is_empty (join_space cg) = false).
        { apply is_empty_false. intros Hnil.
          by apply join_space_nil in Hnil. }
        rewrite Hjoin. cbv zeta.
        rewrite <- (join_space_snoc cg word Hne).
        destruct Hok as [?|Hok]; [done|].
        destruct Hlen as [Hlen|[_ ?]]; [|done].
        destruct (decide (length (join_space (cg ++ [word])) <= w)) as [Hfit|Hfit].
        + exists lgs, (cg ++ [word]).
          split_and!; try done.
          * by rewrite <- !app_assoc.
          * apply Forall_app. split; [done|]. by constructor.
          * split; [by destruct cg|]. by left.
          * lia.
          * lia.
          * by rewrite <- app_assoc.
        + exists (lgs ++ [cg]), [word].
          split_and!.
          * by rewrite map_app.
          * rewrite concat_app. simpl. by rewrite app_nil_r, <- !app_assoc.
          * by constructor.
          * apply Forall_app. split; [done|]. by constructor.
          * split; [done|]. right. by exists word.
          * rewrite length_app. simpl. lia.
          * rewrite length_app. simpl. lia.
          * apply (tight_snoc w lgs cg (word :: words)); [done|]. lia. }
    destruct Hstep as (lgs1 & cg1 & Hbody & Hwords1 & Hcg1 & Hlgs1 & Hok1
                       & Hle1 & Hfull1 & Htight1).
    cbn [wrapText_loop]. cbv zeta in Hbody. rewrite Hbody.
    rewrite length_map.
    destruct (decide (n <= length lgs1)) as [Hstop|Hgo].
    + exists lgs1, cg1, words. split_and!; try done.
      * by right.
      * intros _. by apply Hfull1.
    + destruct (IH lgs1 cg1) as (lgs' & cg' & rest & Hloop & Hall & ?);
        try done.
      * by right.
      * left. lia.
      * exists lgs', cg', rest. split; [done|]. split; [congruence|done].
Qed.

(** X3. [wrapText] throws exactly when the conversion of the text to a
    string throws, and returns no line for a text that is empty once
    trimmed. For any other text it cuts the words of the trimmed text (which
    are not empty and hold no white space) into lines, in order: each line
    is one or more consecutive words joined by single spaces, it fits the
    width unless it is a single word, and it is full, the word after it not
    fitting any more. There are at most [maxLines] lines, and words are left
    out, at the end, only when all [maxLines] lines are used. *)
Theorem wrapText_lines text maxCharsPerLine maxLines :
  (wrapText text maxCharsPerLine maxLines = None <-> trimmedText text = None)
  /\ (trimmedText text = Some [] ->
      wrapText text maxCharsPerLine maxLines = Some [])
  /\ (forall clean, trimmedText text = Some clean -> clean <> [] ->
      Forall is_word (split_spaces clean)
      /\ exists groups rest,
           wrapText text maxCharsPerLine maxLines
           = Some (map join_space groups)
           /\ concat groups ++ rest = split_spaces clean
           /\ Forall (line_ok maxCharsPerLine) groups
           /\ tight maxCharsPerLine groups rest
           /\ length groups <= maxLines
           /\ (rest <> [] -> length groups = maxLines)).
Proof.
  unfold wrapText, trimmedText.
  destruct (ToString (nullish text (JString []))) as [converted|]; simpl;
    [|by split_and!].
  set (clean := trim converted).
  split_and!.
  - split; [|done]. destruct (is_empty clean); [done|].
    by destruct (wrapText_loop _ _ _ _ _).
  - by intros [= ->].
  - intros ? [= <-] Hne.
    assert (Hwords : Forall is_word (split_spaces clean))
      by by apply split_spaces_trim.
    split; [done|].
    rewrite (proj2 (is_empty_false clean)) by done.
    destruct (wrapText_loop_spec maxCharsPerLine maxLines (split_spaces clean))
      with (lgs := @nil (list jsstring)) (cg := @nil jsstring)
      as (lgs & cg & rest & Hloop & Hall & Hcg & Hlgs & Hok & Hle & Hfull & Htight);
      try done.
    { eapply Forall_impl; [exact Hwords|]. by intros w [? _]. }
    { by left. }
    { by right. }
    simpl in Hloop, Hall. rewrite Hloop, length_map.
    destruct (bool_decide (length lgs < maxLines) && negb (is_empty (join_space cg)))
      eqn:Hpush.
    + apply andb_true_iff in Hpush as [Hlt%bool_decide_eq_true Hcur%negb_true_iff].
      assert (Hcg' : cg <> []).
      { intros ->. done. }
      assert (Hrest : rest = []).
      { destruct rest; [done|]. assert (length lgs = maxLines) by by apply Hfull. lia. }
      subst rest. exists (lgs ++ [cg]), [].
      split_and!.
      * rewrite take_ge by (rewrite length_app, length_map; simpl; lia).
        by rewrite map_app.
      * rewrite concat_app. simpl. by rewrite !app_nil_r in *.
      * apply Forall_app. split; [done|]. constructor; [|done].
        by destruct Hok.
      * by apply tight_snoc.
      * rewrite length_app. simpl. lia.
      * done.
    + exists lgs, (cg ++ rest).
      split_and!; try done.
      * by rewrite take_ge by (rewrite length_map; lia).
      * intros Hleft.
        apply andb_false_iff in Hpush as [Hlt%bool_decide_eq_false|Hcur%negb_false_iff];
          [lia|].
        apply is_empty_true, join_space_nil in Hcur; [|done]. subst cg.
        by apply Hfull.
Qed.

End WrapFacts.

(* ----------------------------------------------------------------- *)
(** ** The life of an input session *)

Section LifecycleFacts.
Context {platform : Platform} (CONFIG : Config).

Lemma sessionQuestions_live now token inputSessions session :
  inputSessions !! token = Some session -> ~ expired CONFIG now session ->
  sessionQuestions CONFIG now token inputSessions =
  (if time_set (Session.answeredAt session)
   then QuestionsError 409 ALREADY_USED
   else QuestionsOk (Session.sessionId session) (Session.questions session),
   inputSessions).
Proof.
  intros Hs Hlive. unfold sessionQuestions.
  rewrite (getInputSession_live _ _ _ _ _ Hs Hlive).
  by destruct (time_set _).
Qed.

Lemma sessionStatus_live now token inputSessions session :
  inputSessions !! token = Some session -> ~ expired CONFIG now session ->
  sessionStatus CONFIG now token inputSessions =
  (if time_set (Session.answeredAt session)
   then StatusAnswered (default [] (Session.keywords session))
   else StatusPending,
   inputSessions).
Proof.
  intros Hs Hlive. unfold sessionStatus.
  rewrite (getInputSession_live _ _ _ _ _ Hs Hlive).
  by destruct (time_set _).
Qed.

(** What every session route does with a token whose session has expired. *)
Lemma routes_expired now now_answer token body inputSessions session :
  inputSessions !! token = Some session -> expired CONFIG now session ->
  sessionQuestions CONFIG now token inputSessions
  = (QuestionsError 404 NOT_FOUND, delete token inputSessions)
  /\ sessionStatus CONFIG now token inputSessions
     = (StatusError 404 NOT_FOUND, delete token inputSessions)
  /\ submitAnswers CONFIG now now_answer token body inputSessions
     = (RespError 404 NOT_FOUND, delete token inputSessions).
Proof.
  intros Hs Hexp. unfold sessionQuestions, sessionStatus, submitAnswers.
  by rewrite (getInputSession_expired _ _ _ _ _ Hs Hexp).
Qed.

(** X4. A session that POST /api/input/session has created can be read
    until the instant [expiresAt] of the response, that instant included:
    until then the questions route returns the generated questions and the
    status route says "pending"; later than that every session route answers
    NOT_FOUND and drops the session. *)
Theorem session_lives_until_expiresAt backend calls token createdAt
    inputSessions token' expiresAt sessions' calls' :
  startSession CONFIG backend calls token createdAt inputSessions
  = (RespSession token' expiresAt, sessions', calls') ->
  token' = token
  /\ expiresAt = (createdAt + INPUT_SESSION_TTL_MS CONFIG)%Z
  /\ exists payload,
       generateQuestions backend calls = (inr payload, calls')
       /\ (forall now, (now <= expiresAt)%Z ->
             sessionQuestions CONFIG now token sessions'
             = (QuestionsOk (sessionId payload) (questions payload), sessions')
             /\ sessionStatus CONFIG now token sessions'
                = (StatusPending, sessions'))
       /\ (forall now now_answer body, (expiresAt < now)%Z ->
             sessionQuestions CONFIG now token sessions'
             = (QuestionsError 404 NOT_FOUND, delete token sessions')
             /\ sessionStatus CONFIG now token sessions'
                = (StatusError 404 NOT_FOUND, delete token sessions')
             /\ submitAnswers CONFIG now now_answer token body sessions'
                = (RespError 404 NOT_FOUND, delete token sessions')).
Proof.
  unfold startSession.
  destruct (generateQuestions backend calls) as [[e|payload] n] eqn:Hgen;
    [discriminate|].
  intros [= <- <- <- <-]. split_and!; [done..|].
  exists payload. split; [done|].
  set (session := {| Session.token := token |}).
  assert (Hs : (<[token := session]> inputSessions) !! token = Some session)
    by apply lookup_insert_eq.
  split.
  - intros now Hnow.
    assert (Hlive : ~ expired CONFIG now session)
      by (unfold expired; simpl; lia).
    by rewrite (sessionQuestions_live _ _ _ _ Hs Hlive),
               (sessionStatus_live _ _ _ _ Hs Hlive).
  - intros now now_answer body Hnow.
    apply (routes_expired _ _ _ _ _ session Hs).
    unfold expired. simpl. lia.
Qed.

(** X5. After a submission that was answered OK (its time stamp not being
    0), and while the session lives, the status route says "answered" with
    the keywords that submission stored, of which there is one at least, and
    the questions route refuses with ALREADY_USED; neither changes the
    store. *)
Theorem answers_are_reported now_lookup now_answer token body inputSessions :
  let result := submitAnswers CONFIG now_lookup now_answer token body inputSessions in
  result.1 = RespOk -> now_answer <> 0%Z ->
  exists session keywords,
    inputSessions !! token = Some session
    /\ result.2 = <[token := answered session now_answer keywords]> inputSessions
    /\ keywords <> []
    /\ forall now,
         (now - Session.createdAt session <= INPUT_SESSION_TTL_MS CONFIG)%Z ->
         sessionStatus CONFIG now token result.2
         = (StatusAnswered keywords, result.2)
         /\ sessionQuestions CONFIG now token result.2
            = (QuestionsError 409 ALREADY_USED, result.2).
Proof.
  intros result. subst result. unfold submitAnswers, getInputSession.
  destruct (inputSessions !! token) as [session|] eqn:Hs; [|discriminate].
  destruct (decide _); [discriminate|].
  destruct (time_set (Session.answeredAt session)); [discriminate|].
  destruct (normalizeInputAnswers session body) as [[[name answers]|]|];
    try discriminate.
  set (keywords := filter _ _).
  destruct (decide (length keywords = 0)) as [|Hlen]; [discriminate|].
  simpl. intros _ Hnz. exists session, keywords.
  split_and!; [done | done | by destruct keywords |].
  intros now Hnow.
  set (session' := answered session now_answer keywords).
  assert (Hs' : (<[token := session']> inputSessions) !! token = Some session')
    by apply lookup_insert_eq.
  assert (Hlive : ~ expired CONFIG now session')
    by (unfold expired; simpl; lia).
  rewrite (sessionQuestions_live _ _ _ _ Hs' Hlive),
          (sessionStatus_live _ _ _ _ Hs' Hlive).
  simpl. by rewrite (proj2 (Z.eqb_neq now_answer 0)).
Qed.

(** X6. A request for one token leaves the sessions of all other tokens
    alone, and the two reading routes never alter a session: what they leave
    under the token is what was there. *)
Theorem sessions_are_isolated token other :
  token <> other ->
  (forall now inputSessions,
     (sessionQuestions CONFIG now token inputSessions).2 !! other
     = inputSessions !! other
     /\ (sessionStatus CONFIG now token inputSessions).2 !! other
        = inputSessions !! other)
  /\ (forall now_lookup now_answer body inputSessions,
        (submitAnswers CONFIG now_lookup now_answer token body inputSessions).2
          !! other
        = inputSessions !! other)
  /\ (forall backend calls createdAt inputSessions,
        (startSession CONFIG backend calls token createdAt inputSessions).1.2
          !! other
        = inputSessions !! other)
  /\ (forall now inputSessions session,
        ((sessionQuestions CONFIG now token inputSessions).2 !! token
         = Some session -> inputSessions !! token = Some session)
        /\ ((sessionStatus CONFIG now token inputSessions).2 !! token
            = Some session -> inputSessions !! token = Some session)).
Proof.
  intros Hne.
  assert (Hget : forall now inputSessions,
            (getInputSession CONFIG now token inputSessions).2 !! other
            = inputSessions !! other).
  { intros now m. unfold getInputSession.
    destruct (m !! token); [|done].
    destruct (decide _); [|done]. simpl. by apply lookup_delete_ne. }
  assert (Hsame : forall now inputSessions session,
            (getInputSession CONFIG now token inputSessions).2 !! token
            = Some session -> inputSessions !! token = Some session).
  { intros now m session. unfold getInputSession.
    destruct (m !! token) as [s|] eqn:Hs; [|simpl; congruence].
    destruct (decide _); simpl; [by rewrite lookup_delete_eq|congruence]. }
  split_and!.
  - intros now m. specialize (Hget now m).
    unfold sessionQuestions, sessionStatus.
    destruct (getInputSession CONFIG now token m) as [[session|] sessions];
      [|done].
    by destruct (time_set _).
  - intros now_lookup now_answer body m. specialize (Hget now_lookup m).
    unfold submitAnswers.
    destruct (getInputSession CONFIG now_lookup token m) as [[session|] sessions];
      [|done].
    destruct (time_set _); [done|].
    destruct (normalizeInputAnswers session body) as [[[name answers]|]|];
      try done.
    destruct (decide _); [done|]. simpl in *. by rewrite lookup_insert_ne.
  - intros backend calls createdAt m. unfold startSession.
    destruct (generateQuestions backend calls) as [[e|payload] n]; [done|].
    simpl. by rewrite lookup_insert_ne.
  - intros now m session. specialize (Hsame now m session).
    unfold sessionQuestions, sessionStatus.
    destruct (getInputSession CONFIG now token m) as [[s|] sessions];
      [|done].
    by destruct (time_set _).
Qed.

End LifecycleFacts.

(* ----------------------------------------------------------------- *)
(** ** The session sweep *)

Section SweepFacts.
Context {platform : Platform} (CONFIG : Config).

Lemma cleanupInputSessions_live now inputSessions :
  (cleanupInputSessions CONFIG now inputSessions).2
  = live_sessions CONFIG now inputSessions.
Proof.
  apply map_eq. intros token.
  rewrite cleanupInputSessions_lookup. unfold live_sessions.
  destruct (inputSessions !! token) as [session|] eqn:Hs.
  - destruct (decide _) as [Hexp|Hlive].
    + symmetry. apply map_lookup_filter_None. right.
      intros session' Hs'. simpl. assert (session' = session) as -> by congruence.
      lia.
    + symmetry. apply map_lookup_filter_Some. split; [done|]. simpl. lia.
  - symmetry. apply map_lookup_filter_None. by left.
Qed.

Lemma cleanupInputSessions_count now inputSessions :
  (cleanupInputSessions CONFIG now inputSessions).1
  = size (filter (fun entry : jsstring * Session.t =>
                    (now - Session.createdAt entry.2
                     > INPUT_SESSION_TTL_MS CONFIG)%Z)
                 inputSessions).
Proof.
  unfold cleanupInputSessions.
  set (f := fun token session '(removed, sessions) => _).
  generalize inputSessions at 1. intros m0.
  apply (map_fold_weak_ind
           (fun r m => r.1 = size (filter (fun entry : jsstring * Session.t =>
                                             (now - Session.createdAt entry.2
                                              > INPUT_SESSION_TTL_MS CONFIG)%Z) m))).
  - by rewrite map_filter_empty, map_size_empty.
  - intros token session m [removed sessions] Hnone IH. simpl in IH.
    unfold f. destruct (decide _) as [Hexp|Hlive]; simpl.
    + rewrite map_filter_insert_True by done.
      rewrite map_size_insert_None; [lia|].
      apply map_lookup_filter_None. by left.
    + rewrite map_filter_insert_not'; [done | done |].
      intros y Hy. congruence.
Qed.

(** X7. The sweep of the timer removes exactly the sessions that have
    expired and returns their number: what it leaves is the store without
    them, every other session as it was, and the number returned is the
    number of sessions that went. *)
Theorem cleanupInputSessions_exact now inputSessions :
  let result := cleanupInputSessions CONFIG now inputSessions in
  result.2 = live_sessions CONFIG now inputSessions
  /\ (forall token session,
        result.2 !! token = Some session <->
        inputSessions !! token = Some session
        /\ (now - Session.createdAt session <= INPUT_SESSION_TTL_MS CONFIG)%Z)
  /\ result.1 + size result.2 = size inputSessions.
Proof.
  intros result. subst result.
  rewrite cleanupInputSessions_count, cleanupInputSessions_live.
  split_and!.
  - done.
  - intros token session. unfold live_sessions.
    by rewrite map_lookup_filter_Some.
  - set (P := fun entry : jsstring * Session.t =>
                (now - Session.createdAt entry.2 > INPUT_SESSION_TTL_MS CONFIG)%Z).
    assert (Hlive : live_sessions CONFIG now inputSessions
                    = filter (fun entry => ~ P entry) inputSessions).
    { unfold live_sessions. apply map_filter_ext.
      intros token session _. unfold P. simpl. lia. }
    rewrite Hlive.
    rewrite <- (map_filter_union_complement P inputSessions) at 3.
    rewrite map_size_disj_union; [done|].
    apply map_disjoint_filter_complement.
Qed.

Lemma getInputSession_after_sweep swept_at now token inputSessions :
  (swept_at <= now)%Z ->
  (getInputSession CONFIG now token
     (cleanupInputSessions CONFIG swept_at inputSessions).2).1
  = (getInputSession CONFIG now token inputSessions).1.
Proof.
  intros Hle. unfold getInputSession.
  rewrite cleanupInputSessions_lookup.
  destruct (inputSessions !! token) as [session|]; [|done].
  destruct (decide (swept_at - _ > _)%Z) as [Hexp|Hlive].
  - rewrite decide_True by lia. done.
  - by destruct (decide _).
Qed.

(** X8. The sweep cannot be seen through the session routes: a request made
    at or after the time of a sweep is answered as it would have been without
    the sweep. *)
Theorem sweep_is_unobservable swept_at now now_answer token body inputSessions :
  (swept_at <= now)%Z ->
  let swept := (cleanupInputSessions CONFIG swept_at inputSessions).2 in
  (sessionQuestions CONFIG now token swept).1
  = (sessionQuestions CONFIG now token inputSessions).1
  /\ (sessionStatus CONFIG now token swept).1
     = (sessionStatus CONFIG now token inputSessions).1
  /\ (submitAnswers CONFIG now now_answer token body swept).1
     = (submitAnswers CONFIG now now_answer token body inputSessions).1.
Proof.
  intros Hle swept. subst swept.
  pose proof (getInputSession_after_sweep swept_at now token inputSessions Hle)
    as Hget.
  unfold sessionQuestions, sessionStatus, submitAnswers.
  destruct (getInputSession CONFIG now token (cleanupInputSessions _ _ _).2)
    as [[s1|] m1];
    destruct (getInputSession CONFIG now token inputSessions) as [[s2|] m2];
    simpl in Hget; try discriminate; [|done].
  injection Hget as ->. split_and!.
  - by destruct (time_set _).
  - by destruct (time_set _).
  - destruct (time_set _); [done|].
    destruct (normalizeInputAnswers s2 body) as [[[name answers]|]|];
      [|done..].
    by destruct (decide _).
Qed.

End SweepFacts.

(* ----------------------------------------------------------------- *)
(** ** The print queue across operations *)

Section QueueMoreFacts.
Context {platform : Platform} (CONFIG : Config).

Lemma sweep_cons now job printQueue :
  sweep CONFIG now (job :: printQueue) =
  (if evictable CONFIG now job then [] else [release_if_stale CONFIG now job])
  ++ sweep CONFIG now printQueue.
Proof.
  change (job :: printQueue) with ([job] ++ printQueue).
  by rewrite sweep_app, sweep_singleton.
Qed.

Lemma sweep_unchanged now printQueue :
  sweep_changes CONFIG now printQueue = false ->
  sweep CONFIG now printQueue = printQueue.
Proof.
  induction printQueue as [|job q IH]; [done|].
  unfold sweep_changes. simpl.
  intros [[Hstale Hev]%orb_false_iff Hq]%orb_false_iff.
  rewrite sweep_cons, Hev, IH by done.
  unfold release_if_stale. by rewrite Hstale.
Qed.

Lemma evictable_mono earlier later job :
  (earlier <= later)%Z ->
  evictable CONFIG earlier job = true -> evictable CONFIG later job = true.
Proof.
  intros Hle. unfold evictable. rewrite !orb_true_iff, !bool_decide_eq_true.
  intros [?|?]; [left; lia | by right].
Qed.

Lemma claim_stale_mono earlier later job :
  (earlier <= later)%Z ->
  claim_stale CONFIG earlier job = true -> claim_stale CONFIG later job = true.
Proof.
  intros Hle. rewrite !claim_stale_true.
  intros (t & Ht & Hnz & Hold). exists t. split_and!; [done..|lia].
Qed.

Lemma claim_stale_release now job : claim_stale CONFIG now (release job) = false.
Proof. reflexivity. Qed.

Lemma release_if_stale_twice earlier later job :
  (earlier <= later)%Z ->
  release_if_stale CONFIG later (release_if_stale CONFIG earlier job)
  = release_if_stale CONFIG later job.
Proof.
  intros Hle. unfold release_if_stale at 2.
  destruct (claim_stale CONFIG earlier job) eqn:Hstale; [|done].
  unfold release_if_stale.
  by rewrite claim_stale_release, (claim_stale_mono earlier later job Hle Hstale).
Qed.

Lemma sweep_sweep earlier later printQueue :
  (earlier <= later)%Z ->
  sweep CONFIG later (sweep CONFIG earlier printQueue)
  = sweep CONFIG later printQueue.
Proof.
  intros Hle. induction printQueue as [|job q IH]; [done|].
  rewrite !sweep_cons, sweep_app, IH. f_equal.
  destruct (evictable CONFIG earlier job) eqn:Hev.
  - by rewrite (evictable_mono earlier later job Hle Hev).
  - rewrite sweep_singleton, release_if_stale_twice by done.
    replace (evictable CONFIG later (release_if_stale CONFIG earlier job))
      with (evictable CONFIG later job); [done|].
    unfold release_if_stale. by destruct (claim_stale CONFIG earlier job).
Qed.

Lemma sweep_changes_sweep now printQueue :
  sweep_changes CONFIG now (sweep CONFIG now printQueue) = false.
Proof.
  induction printQueue as [|job q IH]; [done|].
  rewrite sweep_cons.
  destruct (evictable CONFIG now job) eqn:Hev; [done|].
  unfold sweep_changes in *. simpl. rewrite IH, orb_false_r.
  rewrite evictable_release_if_stale, Hev, orb_false_r.
  unfold release_if_stale.
  destruct (claim_stale CONFIG now job) eqn:Hstale; [|done].
  apply claim_stale_release.
Qed.

(** X9. A pass of the garbage collection absorbs every earlier one: running
    a pass and then a later pass leaves the queue the later pass alone would
    leave, and a pass repeated at the same instant finds nothing to change.
    So the passes of the timer cannot be seen by a station: a claim made
    after such a pass is answered as without it and leaves the same queue. *)
Theorem cleanupQueue_absorbs earlier later printQueue :
  (earlier <= later)%Z ->
  let swept := (cleanupQueue CONFIG earlier printQueue).1 in
  (cleanupQueue CONFIG later swept).1 = (cleanupQueue CONFIG later printQueue).1
  /\ cleanupQueue CONFIG earlier swept = (swept, false)
  /\ forall now_claim clientIdParam,
       (claimNext CONFIG later now_claim clientIdParam swept).1
       = (claimNext CONFIG later now_claim clientIdParam printQueue).1.
Proof.
  intros Hle swept. subst swept. rewrite !cleanupQueue_spec. simpl.
  split_and!.
  - by apply sweep_sweep.
  - by rewrite sweep_sweep, sweep_changes_sweep.
  - intros now_claim clientIdParam.
    by rewrite !claimNext_unfold, sweep_sweep.
Qed.

Lemma sweep_ids_sublist now printQueue :
  Job.id <$> sweep CONFIG now printQueue `sublist_of` Job.id <$> printQueue.
Proof.
  induction printQueue as [|job q IH]; [done|].
  rewrite sweep_cons.
  destruct (evictable CONFIG now job).
  - simpl. by apply sublist_cons.
  - simpl. destruct (release_if_stale_fields CONFIG now job) as (-> & _).
    by apply sublist_skip.
Qed.

Lemma insert_same_id (printQueue : list Job.t) i job job' :
  printQueue !! i = Some job -> Job.id job' = Job.id job ->
  Job.id <$> <[i := job']> printQueue = Job.id <$> printQueue.
Proof.
  intros Hi Hid. rewrite list_fmap_insert, Hid.
  apply list_insert_id. by rewrite list_lookup_fmap, Hi.
Qed.

Lemma claimNext_ids now_gc now_claim clientIdParam printQueue :
  Job.id <$> (claimNext CONFIG now_gc now_claim clientIdParam printQueue).1.2
  = Job.id <$> sweep CONFIG now_gc printQueue.
Proof.
  rewrite claimNext_unfold.
  destruct (clientId_of clientIdParam) as [clientId|]; [|done].
  destruct (list_find unclaimed _) as [[i nextJob]|] eqn:Hfind; [|done].
  apply list_find_Some in Hfind as (Hi & _). simpl.
  by apply (insert_same_id _ i nextJob).
Qed.

Lemma reportOutcome_ids jobId status printQueue :
  Job.id <$> (reportOutcome jobId status printQueue).1.2
  `sublist_of` Job.id <$> printQueue.
Proof.
  unfold reportOutcome.
  destruct (list_find _ printQueue) as [[i job]|] eqn:Hfind; [|done].
  apply list_find_Some in Hfind as (Hi & _).
  destruct (is_string status (str "printed")); simpl.
  { apply fmap_sublist, sublist_delete. }
  destruct (is_string status (str "failed")); simpl; [|done].
  destruct (decide _).
  - rewrite delete_insert_same. apply fmap_sublist, sublist_delete.
  - by rewrite (insert_same_id _ i job).
Qed.

Lemma enqueue_cases jobId now body printQueue :
  (exists image,
     get body (str "image") = JString image /\ image <> []
     /\ let meta := if truthy (get body (str "meta"))
                       && typeof_object (get body (str "meta"))
                    then get body (str "meta") else JObject [] in
        let printQueue' := printQueue ++ [fresh_job jobId now image meta] in
        enqueue jobId now body printQueue
        = (RespJobId jobId, printQueue',
           [print_new_job jobId; print_queue_update (pendingCount printQueue')]))
  \/ ((forall image, get body (str "image") = JString image -> image = [])
      /\ enqueue jobId now body printQueue
         = (RespError 400 INVALID_INPUT, printQueue, [])).
Proof.
  unfold enqueue.
  destruct (get body (str "image")) as [| | | |image| |];
    try (right; split; [intros ?; discriminate|done]).
  destruct image as [|c image]; simpl.
  - right. split; [|done]. by intros ? [= <-].
  - left. exists (c :: image). done.
Qed.

Lemma queue_step_ids op printQueue :
  match op with
  | OpEnqueue _ _ _ => True
  | _ => Job.id <$> queue_step CONFIG op printQueue
         `sublist_of` Job.id <$> printQueue
  end.
Proof.
  destruct op as [jobId now body|now_gc now_claim c|jobId status|now]; simpl.
  - done.
  - rewrite claimNext_ids. apply sweep_ids_sublist.
  - apply reportOutcome_ids.
  - rewrite cleanupQueue_spec. apply sweep_ids_sublist.
Qed.

(** X10. No operation reorders the queue or brings a job back: after a
    claim, a report or a pass the ids in the queue are, in the same order,
    ids that were there before; a print request leaves the queue as it is or
    adds one job at its end. So ids that differ pairwise go on to do so,
    provided a new job gets an id the queue does not hold. *)
Theorem queue_order_is_kept op printQueue :
  match op with
  | OpEnqueue jobId now body =>
      queue_step CONFIG op printQueue = printQueue
      \/ exists image meta,
           queue_step CONFIG op printQueue
           = printQueue ++ [fresh_job jobId now image meta]
  | _ =>
      Job.id <$> queue_step CONFIG op printQueue
      `sublist_of` Job.id <$> printQueue
  end
  /\ (NoDup (Job.id <$> printQueue) ->
      (forall jobId now body,
         op = OpEnqueue jobId now body -> jobId ∉ Job.id <$> printQueue) ->
      NoDup (Job.id <$> queue_step CONFIG op printQueue)).
Proof.
  pose proof (queue_step_ids op printQueue) as Hsub.
  destruct op as [jobId now body|now_gc now_claim c|jobId status|now];
    try (split; [exact Hsub | intros Hnd _; by apply (sublist_NoDup _ _ Hnd)]).
  simpl.
  destruct (enqueue_cases jobId now body printQueue)
    as [(image & _ & _ & ->)|[_ ->]]; simpl.
  - split; [right; eauto|].
    intros Hnd Hfresh. rewrite fmap_app. apply NoDup_app. split_and!; try done.
    + intros id Hid [->|[]%not_elem_of_nil]%elem_of_cons.
      by apply (Hfresh jobId now body).
    + simpl. apply NoDup_singleton.
  - split; [by left|]. by intros Hnd _.
Qed.

Lemma pendingCount_snoc printQueue job :
  unclaimed job -> pendingCount (printQueue ++ [job]) = pendingCount printQueue + 1.
Proof.
  intros Hjob. unfold pendingCount.
  rewrite filter_app, length_app, filter_cons_True by done. done.
Qed.

(** X11. The subscribers are told of every change of the queue, and told
    the truth: an operation that broadcasts nothing has left the queue as it
    was, and the last thing an operation broadcasts is the number of
    unclaimed jobs in the queue as the operation leaves it. *)
Theorem queue_events_are_current op printQueue :
  (queue_events CONFIG op printQueue = [] ->
   queue_step CONFIG op printQueue = printQueue)
  /\ (forall event,
        last (queue_events CONFIG op printQueue) = Some event ->
        event = print_queue_update
                  (pendingCount (queue_step CONFIG op printQueue))).
Proof.
  destruct op as [jobId now body|now_gc now_claim c|jobId status|now]; simpl.
  - destruct (enqueue_cases jobId now body printQueue)
      as [(image & _ & _ & ->)|[_ ->]]; simpl.
    + split; [done|]. by intros event [= <-].
    + done.
  - unfold claimNext. rewrite cleanupQueue_spec.
    destruct (clientId_of c) as [clientId|]; cycle 1.
    { destruct (sweep_changes CONFIG now_gc printQueue) eqn:Hch; simpl.
      - split; [done|]. by intros event [= <-].
      - split; [intros _; by apply sweep_unchanged | done]. }
    destruct (list_find unclaimed _) as [[i nextJob]|]; simpl.
    + split.
      * intros [_ ?]%app_eq_nil. done.
      * intros event. unfold emitQueueUpdate at 2. rewrite last_snoc.
        by intros [= <-].
    + destruct (sweep_changes CONFIG now_gc printQueue) eqn:Hch; simpl.
      * split; [done|]. by intros event [= <-].
      * split; [intros _; by apply sweep_unchanged | done].
  - unfold reportOutcome.
    destruct (list_find _ printQueue) as [[i job]|]; [|done].
    destruct (is_string status (str "printed")); simpl.
    { split; [done|]. by intros event [= <-]. }
    destruct (is_string status (str "failed")); simpl; [|done].
    split; [done|]. by intros event [= <-].
  - unfold tick. rewrite cleanupQueue_spec.
    destruct (sweep_changes CONFIG now printQueue) eqn:Hch; simpl.
    + split; [done|]. by intros event [= <-].
    + split; [intros _; by apply sweep_unchanged | done].
Qed.

Lemma lease_sweep jobId claimedAt now printQueue :
  (now <= claimedAt + PRINT_CLAIM_TTL_MS CONFIG)%Z ->
  (forall job, job ∈ printQueue -> Job.id job = jobId ->
               Job.claimedAt job = Some claimedAt) ->
  forall job, job ∈ sweep CONFIG now printQueue -> Job.id job = jobId ->
              Job.claimedAt job = Some claimedAt.
Proof.
  intros Hnow Hinv job' (job & Hin & -> & _)%elem_of_sweep Hid.
  destruct (release_if_stale_fields CONFIG now job) as (Hid' & _).
  rewrite Hid' in Hid. pose proof (Hinv job Hin Hid) as Hclaim.
  rewrite release_if_stale_fresh; [done|].
  intros t Ht. rewrite Hclaim in Ht. injection Ht as <-. lia.
Qed.

Lemma lease_step jobId claimedAt op printQueue :
  claimedAt <> 0%Z ->
  respects_lease jobId (claimedAt + PRINT_CLAIM_TTL_MS CONFIG) op ->
  (forall job, job ∈ printQueue -> Job.id job = jobId ->
               Job.claimedAt job = Some claimedAt) ->
  forall job, job ∈ queue_step CONFIG op printQueue -> Job.id job = jobId ->
              Job.claimedAt job = Some claimedAt.
Proof.
  intros Hnz Hop Hinv.
  destruct op as [jobId' now body|now_gc now_claim c|jobId' status|now];
    simpl in *.
  - destruct (enqueue_cases jobId' now body printQueue)
      as [(image & _ & _ & ->)|[_ ->]]; simpl; [|done].
    intros job [Hin|Hnew%list_elem_of_singleton]%elem_of_app Hid; [by apply Hinv|].
    subst job. simpl in Hid. done.
  - rewrite claimNext_unfold.
    pose proof (lease_sweep jobId claimedAt now_gc printQueue Hop Hinv) as Hswept.
    destruct (clientId_of c) as [clientId|]; [|done].
    destruct (list_find unclaimed _) as [[i nextJob]|] eqn:Hfind; simpl; [|done].
    apply list_find_Some in Hfind as (Hi & Hun & _).
    intros job [->|Hin]%elem_of_insert_inv Hid; [|by apply Hswept].
    simpl in Hid.
    assert (Hclaim : Job.claimedAt nextJob = Some claimedAt).
    { apply Hswept; [|done]. apply list_elem_of_lookup. eauto. }
    unfold unclaimed in Hun. rewrite Hclaim in Hun. simpl in Hun.
    apply negb_false_iff, Z.eqb_eq in Hun. done.
  - unfold reportOutcome.
    destruct (list_find _ printQueue) as [[i found]|] eqn:Hfind; [|done].
    apply list_find_Some in Hfind as (Hi & Hfound & _).
    destruct (is_string status (str "printed")); simpl.
    { intros job Hin%list_elem_of_delete_inv. by apply Hinv. }
    destruct (is_string status (str "failed")); simpl; [|done].
    assert (Hins : forall job, job ∈ <[i := record_failure found]> printQueue ->
                     Job.id job = jobId -> Job.claimedAt job = Some claimedAt).
    { intros job [->|Hin]%elem_of_insert_inv Hid; [|by apply Hinv].
      simpl in Hid. congruence. }
    destruct (decide _); [|done].
    intros job Hin%list_elem_of_delete_inv. by apply Hins.
  - rewrite cleanupQueue_spec. simpl. by apply lease_sweep.
Qed.

(** X12. A claim is exclusive while it lasts. When a claim has returned a
    job (the ids in the queue being pairwise different, and the time stamp of
    the claim not 0), then whatever is done to the queue up to
    [PRINT_CLAIM_TTL_MS] after the claim, short of a report about that job,
    no other claim made up to that time returns the job. *)
Theorem claim_is_exclusive printQueue now_gc1 now_claim1 client1 ops
    now_gc2 now_claim2 client2 jobId1 image1 meta1 jobId2 image2 meta2 :
  NoDup (Job.id <$> printQueue) ->
  (claimNext CONFIG now_gc1 now_claim1 client1 printQueue).1.1
  = RespJob jobId1 image1 meta1 ->
  now_claim1 <> 0%Z ->
  Forall (respects_lease jobId1 (now_claim1 + PRINT_CLAIM_TTL_MS CONFIG)) ops ->
  (now_gc2 <= now_claim1 + PRINT_CLAIM_TTL_MS CONFIG)%Z ->
  (claimNext CONFIG now_gc2 now_claim2 client2
     (queue_run CONFIG ops
        (claimNext CONFIG now_gc1 now_claim1 client1 printQueue).1.2)).1.1
  = RespJob jobId2 image2 meta2 ->
  jobId2 <> jobId1.
Proof.
  intros Hnd Hfirst Hnz Hops Hgc2.
  set (Inv := fun q : list Job.t =>
                forall job, job ∈ q -> Job.id job = jobId1 ->
                            Job.claimedAt job = Some now_claim1).
  assert (Hq1 : Inv (claimNext CONFIG now_gc1 now_claim1 client1 printQueue).1.2).
  { rewrite claimNext_unfold in Hfirst |- *.
    destruct (clientId_of client1) as [clientId1|]; [|discriminate].
    destruct (list_find unclaimed _) as [[i nextJob]|] eqn:Hfind;
      [|discriminate].
    apply list_find_Some in Hfind as (Hi & _). simpl in *.
    injection Hfirst as Hid _ _.
    intros job (k & Hk)%list_elem_of_lookup Hjob.
    apply list_lookup_insert_Some in Hk as [(_ & <- & _)|(Hik & Hk)]; [done|].
    destruct Hik.
    assert (Hnd' : NoDup (Job.id <$> sweep CONFIG now_gc1 printQueue))
      by (apply (sublist_NoDup _ _ Hnd), sweep_ids_sublist).
    apply (NoDup_lookup _ i k jobId1 Hnd'); rewrite list_lookup_fmap.
    - by rewrite Hi; simpl; f_equal.
    - by rewrite Hk; simpl; f_equal. }
  assert (Hrun : forall q, Inv q -> Inv (queue_run CONFIG ops q)).
  { clear Hq1 Hfirst. unfold queue_run.
    induction Hops as [|op ops Hop Hops IH]; intros q Hq; [done|].
    simpl. apply IH. intros job. by apply (lease_step jobId1 now_claim1 op q). }
  specialize (Hrun _ Hq1).
  rewrite claimNext_unfold.
  pose proof (lease_sweep jobId1 now_claim1 now_gc2 _ Hgc2 Hrun) as Hswept.
  destruct (clientId_of client2) as [clientId2|]; [|discriminate].
  destruct (list_find unclaimed _) as [[i nextJob]|] eqn:Hfind; [|discriminate].
  apply list_find_Some in Hfind as (Hi & Hun & _). simpl.
  intros [= <- _ _] Hid.
  assert (Hclaim : Job.claimedAt nextJob = Some now_claim1).
  { apply Hswept; [|done]. apply list_elem_of_lookup. eauto. }
  unfold unclaimed in Hun. rewrite Hclaim in Hun. simpl in Hun.
  apply negb_false_iff, Z.eqb_eq in Hun. done.
Qed.

(** X13. POST /api/print: without an [image] that is a string and not empty
    the answer is INVALID_INPUT, the queue stays as it is and nothing is
    broadcast; otherwise one job is put at the end of the queue, unclaimed
    and with no failure, and the number of unclaimed jobs broadcast is one
    more than before. The new job does not pass any job waiting before it: a
    claim that would have returned a job returns the same job after the print
    request. *)
Theorem enqueue_is_fifo jobId now body printQueue :
  ((forall image, get body (str "image") = JString image -> image = []) ->
   enqueue jobId now body printQueue
   = (RespError 400 INVALID_INPUT, printQueue, []))
  /\ (forall image, get body (str "image") = JString image -> image <> [] ->
        exists meta,
          enqueue jobId now body printQueue
          = (RespJobId jobId, printQueue ++ [fresh_job jobId now image meta],
             [print_new_job jobId;
              print_queue_update (pendingCount printQueue + 1)])
          /\ (meta = get body (str "meta") \/ meta = JObject []))
  /\ (forall now_gc now_claim clientIdParam jobId' image' meta',
        (claimNext CONFIG now_gc now_claim clientIdParam printQueue).1.1
        = RespJob jobId' image' meta' ->
        (claimNext CONFIG now_gc now_claim clientIdParam
           (enqueue jobId now body printQueue).1.2).1.1
        = RespJob jobId' image' meta').
Proof.
  destruct (enqueue_cases jobId now body printQueue)
    as [(image & Himage & Hne & Henq)|[Hnone Henq]]; cbv zeta in Henq.
  - split_and!.
    + intros Hnone. destruct Hne. by apply Hnone.
    + intros image' Himage' _. rewrite Himage in Himage'.
      injection Himage' as <-. eexists. split.
      * rewrite Henq. by rewrite pendingCount_snoc.
      * destruct (_ && _); [by left|by right].
    + intros now_gc now_claim c jobId' image' meta'. rewrite Henq. simpl.
      rewrite !claimNext_unfold, sweep_app.
      destruct (clientId_of c) as [clientId|]; [|discriminate].
      destruct (list_find unclaimed (sweep CONFIG now_gc printQueue))
        as [[i nextJob]|] eqn:Hfind; [|discriminate].
      by rewrite (list_find_app_l _ _ _ _ _ Hfind).
  - split_and!.
    + done.
    + intros image Himage Hne. destruct Hne. by apply Hnone.
    + intros now_gc now_claim c jobId' image' meta'. by rewrite Henq.
Qed.

Lemma queue_step_absent jobId op printQueue :
  (forall now body, op <> OpEnqueue jobId now body) ->
  jobId ∉ Job.id <$> printQueue ->
  jobId ∉ Job.id <$> queue_step CONFIG op printQueue.
Proof.
  intros Hop Hnot. pose proof (queue_step_ids op printQueue) as Hsub.
  destruct op as [jobId' now body|now_gc now_claim c|jobId' status|now];
    try (intros Hin; apply Hnot; by apply (elem_of_sublist _ _ _ Hin)).
  simpl.
  destruct (enqueue_cases jobId' now body printQueue)
    as [(image & _ & _ & ->)|[_ ->]]; simpl; [|done].
  rewrite fmap_app. intros [Hin|Hin%list_elem_of_singleton]%elem_of_app; [done|].
  simpl in Hin. subst jobId'. by destruct (Hop now body).
Qed.

(** X14. A printed job is gone for good. After a report of [printed] that
    was answered OK (the ids in the queue being pairwise different), and
    whatever is done to the queue next, short of a print request that uses
    the id again, the id is not in the queue: a further report about it is
    answered NOT_FOUND and changes nothing, and no claim returns it. *)
Theorem printed_job_is_gone jobId printQueue ops :
  NoDup (Job.id <$> printQueue) ->
  (reportOutcome jobId (JString (str "printed")) printQueue).1.1 = RespOk ->
  (forall now body, OpEnqueue jobId now body ∉ ops) ->
  let later :=
    queue_run CONFIG ops
      (reportOutcome jobId (JString (str "printed")) printQueue).1.2 in
  (jobId ∉ Job.id <$> later)
  /\ (forall status,
        reportOutcome jobId status later = (RespError 404 NOT_FOUND, later, []))
  /\ (forall now_gc now_claim clientIdParam image meta,
        (claimNext CONFIG now_gc now_claim clientIdParam later).1.1
        <> RespJob jobId image meta).
Proof.
  intros Hnd Hok Hops later.
  assert (Hgone : jobId ∉ Job.id <$>
            (reportOutcome jobId (JString (str "printed")) printQueue).1.2).
  { unfold reportOutcome in Hok |- *.
    destruct (list_find _ printQueue) as [[i job]|] eqn:Hfind; [|discriminate].
    apply list_find_Some in Hfind as (Hi & Hid & _). simpl.
    destruct (designates_NoDup printQueue i job Hnd Hi) as [_ Hother].
    intros (job' & Hid' & Hin)%list_elem_of_fmap.
    apply (Hother job' Hin). congruence. }
  assert (Hlater : jobId ∉ Job.id <$> later).
  { subst later. revert Hgone. generalize (reportOutcome jobId (JString (str "printed")) printQueue).1.2.
    unfold queue_run. induction ops as [|op ops IH]; intros q Hq; [done|].
    simpl. apply IH.
    - intros now body Hin. apply (Hops now body). by apply elem_of_cons; right.
    - apply queue_step_absent; [|done].
      intros now body ->. apply (Hops now body). by apply elem_of_cons; left. }
  split_and!.
  - done.
  - intros status. unfold reportOutcome.
    destruct (list_find _ later) as [[i job]|] eqn:Hfind; [|done].
    apply list_find_Some in Hfind as (Hi & Hid & _).
    destruct Hlater. apply list_elem_of_fmap. exists job. split; [done|].
    apply list_elem_of_lookup. eauto.
  - intros now_gc now_claim c image meta Hresp.
    pose proof (claimNext_ids now_gc now_claim c later) as Hids.
    rewrite claimNext_unfold in Hresp, Hids.
    destruct (clientId_of c) as [clientId|]; [|discriminate].
    destruct (list_find unclaimed _) as [[i nextJob]|] eqn:Hfind; [|discriminate].
    apply list_find_Some in Hfind as (Hi & _). simpl in Hresp, Hids.
    injection Hresp as Hid _ _. apply Hlater.
    apply (elem_of_sublist (Job.id <$> sweep CONFIG now_gc later));
      [|apply sweep_ids_sublist].
    apply list_elem_of_fmap. exists nextJob. split; [done|].
    apply list_elem_of_lookup. eauto.
Qed.

End QueueMoreFacts.

(* ----------------------------------------------------------------- *)
(** ** POST /api/generate *)

Section GenerateFacts.
Context {platform : Platform}.

Lemma clamp_head maxLen s c r :
  clamp maxLen s = c :: r -> is_space c = false.
Proof.
  unfold clamp.
  assert (Hs : forall r', trim s = c :: r' -> is_space c = false).
  { intros r' Hs. by apply (trim_head c r' _ Hs). }
  revert Hs. generalize (trim s). intros t Hs. destruct (decide _).
  - destruct t as [|x t], maxLen; simpl; try done.
    intros [= -> _]. by apply (Hs t).
  - intros ->. by apply (Hs r).
Qed.

Lemma clampText_clamped v maxLen t :
  clampText v maxLen = Some t -> t <> [] -> clamped maxLen t.
Proof.
  intros Ht Hne. split_and!; [done | by apply (clampText_length v) |].
  intros c r ->. unfold clampText in Ht.
  apply fmap_Some in Ht as (s & _ & Hs). symmetry in Hs.
  by apply (clamp_head maxLen s c r).
Qed.

Lemma normalizeCardData_well_formed raw card :
  normalizeCardData raw = Some (Some card) -> well_formed_card card.
Proof.
  intros (_ & _ & [Hn Hne] & [Hc Hce] & [Hs Hse] & [Hd Hde] & _ & _
          & _ & _ & _ & _ & _ & Hstats)%normalizeCardData_Some.
  unfold well_formed_card.
  split_and!; [by apply (clampText_clamped _ _ _ Hn)
              | by apply (clampText_clamped _ _ _ Hc)
              | by apply (clampText_clamped _ _ _ Hs)
              | by apply (clampText_clamped _ _ _ Hd) | done].
Qed.

Lemma cardFromText_inr rawText card :
  cardFromText rawText = inr card ->
  exists v, normalizeCardData v = Some (Some card).
Proof.
  unfold cardFromText. destruct (is_empty _); [discriminate|].
  destruct (JSON_parse _) as [msg|v].
  - destruct (truthy _); [|discriminate].
    destruct (normalizeCardData _) as [[card'|]|] eqn:Hn; try discriminate.
    intros [= <-]. eauto.
  - destruct (normalizeCardData v) as [[card'|]|] eqn:Hn; try discriminate.
    intros [= <-]. eauto.
Qed.

Lemma cardAttempt_inr backend m card :
  (cardAttempt backend m).1 = inr card ->
  exists v, normalizeCardData v = Some (Some card).
Proof.
  unfold cardAttempt, bind, lift.
  destruct (callOllamaChat backend m) as [[e|text] m']; [discriminate|].
  simpl. apply cardFromText_inr.
Qed.

Lemma generateCardData_result backend n :
  n < (generateCardData backend n).2 <= n + 3
  /\ forall card, (generateCardData backend n).1 = inr card -> well_formed_card card.
Proof.
  unfold generateCardData.
  rewrite (attempt_loop_three _ _ n (cardAttempt_calls backend)).
  destruct (cardAttempt backend (n + 0)).1 as [e0|c0] eqn:E0.
  2:{ split; [simpl; lia|]. intros card [= <-].
      apply cardAttempt_inr in E0 as (v & Hv).
      by apply (normalizeCardData_well_formed v). }
  destruct (cardAttempt backend (n + 1)).1 as [e1|c1] eqn:E1.
  2:{ split; [simpl; lia|]. intros card [= <-].
      apply cardAttempt_inr in E1 as (v & Hv).
      by apply (normalizeCardData_well_formed v). }
  destruct (cardAttempt backend (n + 2)).1 as [e2|c2] eqn:E2.
  - split; [simpl; lia|]. intros card [=].
  - split; [simpl; lia|]. intros card [= <-].
    apply cardAttempt_inr in E2 as (v & Hv).
    by apply (normalizeCardData_well_formed v).
Qed.

(** The [map] of the handler over the entries of [body.keywords]. *)
Lemma keyword_texts ks :
  match mapM (fun k => trim <$> ToString k) ks with
  | None => Exists (fun k => ToString k = None) ks
  | Some texts =>
      Forall2 (fun k t => exists text, ToString k = Some text /\ t = trim text)
              ks texts
  end.
Proof.
  induction ks as [|k ks IH]; cbn [mapM]; [by constructor|].
  destruct (ToString k) as [text|] eqn:Hk; simpl; [|by left].
  destruct (mapM (fun k => trim <$> ToString k) ks) as [texts|]; simpl.
  - constructor; [eauto | done].
  - by right.
Qed.

Lemma requestKeywords_clean body keywords :
  requestKeywords body = Some keywords ->
  Forall (fun k => k <> [] /\ forall c r, k = c :: r -> is_space c = false)
         keywords.
Proof.
  unfold requestKeywords.
  destruct (get body (str "keywords")) as [| | | | |ks|];
    try (intros [= <-]; by constructor).
  pose proof (keyword_texts ks) as Htexts.
  destruct (mapM (fun k => trim <$> ToString k) ks) as [texts|]; [|done].
  simpl. intros [= <-].
  apply Forall_forall. intros k [Hne Hk]%list_elem_of_filter.
  split.
  - by apply negb_true_iff, is_empty_false in Hne.
  - apply list_elem_of_lookup in Hk as (i & Hi).
    destruct (Forall2_lookup_r _ _ _ _ _ Htexts Hi) as (v & _ & text & _ & ->).
    intros c r. apply trim_head.
Qed.

(** X15. POST /api/generate. A request with no keyword (the field
    [keywords] of the body is missing or no array, or every entry of it
    reads as a blank text) is refused with INVALID_INPUT and the model is
    not called; a request with an entry that cannot be converted to a string
    is answered AI_FAILED, the model not being called either. Otherwise, an
    entry at least not being blank, the model is called between one and
    three times; the answer is either a card within the bounds of the schema
    (every text not empty, within its length and not starting with white
    space, every stat an integer from 1 to 100) together with its rendered
    image and the fresh card id, or AI_FAILED. *)
Theorem generateCard_replies buildCardImageBase64 backend calls cardId body :
  let result := generateCard buildCardImageBase64 backend calls cardId body in
  ((forall ks, get body (str "keywords") <> JArray ks) ->
   result = (GenerateError 400 INVALID_INPUT, calls))
  /\ (forall ks, get body (str "keywords") = JArray ks ->
        (Exists (fun k => ToString k = None) ks ->
         result = (GenerateError 500 AI_FAILED, calls))
        /\ (Forall (fun k => exists text, ToString k = Some text
                                          /\ trim text = []) ks ->
            result = (GenerateError 400 INVALID_INPUT, calls))
        /\ (Forall (fun k => exists text, ToString k = Some text) ks ->
            Exists (fun k => exists text, ToString k = Some text
                                          /\ trim text <> []) ks ->
            calls < result.2 <= calls + 3
            /\ (result.1 = GenerateError 500 AI_FAILED
                \/ exists cardData cardImageBase64,
                     result.1 = GenerateOk cardId cardData cardImageBase64
                     /\ well_formed_card cardData
                     /\ buildCardImageBase64 cardData = inr cardImageBase64
                     /\ generateCardData backend calls
                        = (inr cardData, result.2))))
  /\ (forall keywords, requestKeywords body = Some keywords ->
        Forall (fun k => k <> []
                         /\ forall c r, k = c :: r -> is_space c = false)
               keywords).
Proof.
  intros result. subst result. unfold generateCard.
  split_and!.
  - intros Hnone. unfold requestKeywords.
    destruct (get body (str "keywords")) as [| | | | |ks|]; try done.
    by destruct (Hnone ks).
  - intros ks Hks. unfold requestKeywords. rewrite Hks.
    pose proof (keyword_texts ks) as Htexts.
    destruct (mapM (fun k => trim <$> ToString k) ks) as [texts|]; simpl.
    + split_and!.
      * intros (k & Hk & Hthrow)%Exists_exists.
        apply list_elem_of_lookup in Hk as (i & Hi).
        destruct (Forall2_lookup_l _ _ _ _ _ Htexts Hi)
          as (t & _ & text & Htext & _).
        congruence.
      * intros Hblank.
        assert (Hnil : filter (fun k => negb (is_empty k) = true) texts = []).
        { clear Hks. revert Hblank.
          induction Htexts as [|k t ks texts (text & Htext & ->) _ IH];
            intros Hblank; [done|].
          apply Forall_cons in Hblank as [(text' & Htext' & Hempty) Hblank].
          rewrite filter_cons. rewrite Htext in Htext'.
          injection Htext' as <-. rewrite Hempty. simpl.
          by apply IH. }
        by rewrite Hnil.
      * intros _ Hsome.
        assert (Hne : filter (fun k => negb (is_empty k) = true) texts <> []).
        { clear Hks. revert Hsome.
          induction Htexts as [|k t ks texts (text & Htext & ->) _ IH];
            intros Hsome; [by apply Exists_nil in Hsome|].
          rewrite filter_cons.
          destruct (decide (negb (is_empty (trim text)) = true)); [done|].
          apply Exists_cons in Hsome as [(text' & Htext' & Hfull) | Hsome];
            [|by apply IH].
          rewrite Htext in Htext'. injection Htext' as <-.
          apply is_empty_false in Hfull. by rewrite Hfull in *. }
        rewrite decide_False
          by (by destruct (filter (fun k => negb (is_empty k) = true) texts)).
        destruct (generateCardData_result backend calls) as [Hcalls Hcard].
        destruct (generateCardData backend calls) as [[e|cardData] calls'];
          simpl in *; [split; [done|by left]|].
        destruct (buildCardImageBase64 cardData) as [e|image] eqn:Himage;
          simpl; (split; [done|]); [by left|].
        right. exists cardData, image. split_and!; try done. by apply Hcard.
    + split_and!.
      * done.
      * intros Hblank. exfalso.
        apply Exists_exists in Htexts as (k & Hk & Hthrow).
        rewrite Forall_forall in Hblank.
        destruct (Hblank k Hk) as (text & Htext & _). congruence.
      * intros Hall. exfalso.
        apply Exists_exists in Htexts as (k & Hk & Hthrow).
        rewrite Forall_forall in Hall.
        destruct (Hall k Hk) as (text & Htext). congruence.
  - apply requestKeywords_clean.
Qed.

End GenerateFacts.

(* ----------------------------------------------------------------- *)
(** ** POST /api/input/session *)

Section StartFacts.
Context {platform : Platform} (CONFIG : Config).

Lemma generateQuestions_result backend n :
  n < (generateQuestions backend n).2 <= n + 3
  /\ forall payload, (generateQuestions backend n).1 = inr payload ->
                     well_formed_questions payload.
Proof.
  unfold generateQuestions.
  rewrite (attempt_loop_three _ _ n (questionsAttempt_calls backend)).
  destruct (questionsAttempt backend (n + 0)).1 as [e0|q0] eqn:E0.
  2:{ split; [simpl; lia|]. intros payload [= <-].
      apply questionsAttempt_inr in E0 as (v & Hv).
      by apply (normalizeQuestions_well_formed v). }
  destruct (questionsAttempt backend (n + 1)).1 as [e1|q1] eqn:E1.
  2:{ split; [simpl; lia|]. intros payload [= <-].
      apply questionsAttempt_inr in E1 as (v & Hv).
      by apply (normalizeQuestions_well_formed v). }
  destruct (questionsAttempt backend (n + 2)).1 as [e2|q2] eqn:E2.
  - split; [simpl; lia|]. intros payload [=].
  - split; [simpl; lia|]. intros payload [= <-].
    apply questionsAttempt_inr in E2 as (v & Hv).
    by apply (normalizeQuestions_well_formed v).
Qed.

(** X16. POST /api/input/session calls the model between one and three
    times. When the generation fails the answer is AI_FAILED and the store is
    left as it was. When it succeeds the store gets, under the new token, a
    session that holds the generated questions, four or five of them and
    each within the bounds, and that is not answered yet; the response
    carries the token and the time the session expires, which is its
    creation time plus [INPUT_SESSION_TTL_MS]. *)
Theorem startSession_replies backend calls token createdAt inputSessions :
  let result := startSession CONFIG backend calls token createdAt inputSessions in
  calls < result.2 <= calls + 3
  /\ ((exists e, (generateQuestions backend calls).1 = inl e)
      /\ result.1 = (RespError 500 AI_FAILED, inputSessions)
      \/ exists payload,
           generateQuestions backend calls = (inr payload, result.2)
           /\ well_formed_questions payload
           /\ result.1
              = (RespSession token (createdAt + INPUT_SESSION_TTL_MS CONFIG)%Z,
                 <[token := {| Session.token := token;
                               Session.createdAt := createdAt;
                               Session.sessionId := sessionId payload;
                               Session.questions := questions payload;
                               Session.answeredAt := None;
                               Session.keywords := None |}]> inputSessions)).
Proof.
  intros result. subst result. unfold startSession.
  destruct (generateQuestions_result backend calls) as [Hcalls Hok].
  destruct (generateQuestions backend calls) as [[e|payload] calls'];
    simpl in *; (split; [done|]).
  - left. eauto.
  - right. exists payload. split_and!; try done. by apply Hok.
Qed.

End StartFacts.

(* ----------------------------------------------------------------- *)
(** ** What the two stores always hold *)

Section InvariantFacts.
Context {platform : Platform} (CONFIG : Config).

Lemma job_ok_release_if_stale now job :
  job_ok job -> job_ok (release_if_stale CONFIG now job).
Proof.
  unfold release_if_stale. destruct (claim_stale CONFIG now job); [|done].
  intros (Hfail & _ & Himage & Hmeta & Hobj). unfold job_ok. simpl.
  split_and!; first [done | lia | by split].
Qed.

Lemma job_ok_step op printQueue :
  Forall job_ok printQueue -> Forall job_ok (queue_step CONFIG op printQueue).
Proof.
  intros Hq.
  assert (Hswept : forall now, Forall job_ok (sweep CONFIG now printQueue)).
  { intros now. apply Forall_forall.
    intros job' (job & Hin & -> & _)%elem_of_sweep.
    apply job_ok_release_if_stale. rewrite Forall_forall in Hq. by apply Hq. }
  destruct op as [jobId now body|now_gc now_claim c|jobId status|now]; simpl.
  - destruct (enqueue_cases jobId now body printQueue)
      as [(image & _ & Hne & ->)|[_ ->]]; simpl; [|done].
    apply Forall_app. split; [done|]. constructor; [|done].
    unfold job_ok, fresh_job, MAX_FAILS. simpl.
    destruct (truthy _ && typeof_object _) eqn:Hmeta.
    + apply andb_true_iff in Hmeta as [? ?].
      split_and!; first [done | lia | by split].
    + split_and!; first [done | lia | by split].
  - rewrite claimNext_unfold.
    destruct (clientId_of c) as [clientId|]; [|by apply Hswept].
    destruct (list_find unclaimed _) as [[i nextJob]|] eqn:Hfind; simpl; [|done].
    apply list_find_Some in Hfind as (Hi & _).
    apply Forall_insert; [done|].
    assert (Hnext : job_ok nextJob).
    { specialize (Hswept now_gc). rewrite Forall_forall in Hswept.
      apply Hswept, list_elem_of_lookup. eauto. }
    destruct Hnext as (Hfail & _ & Himage & Hmeta & Hobj).
    unfold job_ok. simpl. split_and!; first [done | lia | by split].
  - unfold reportOutcome.
    destruct (list_find _ printQueue) as [[i job]|] eqn:Hfind; [|done].
    apply list_find_Some in Hfind as (Hi & _).
    assert (Hjob : job_ok job).
    { rewrite Forall_forall in Hq. apply Hq, list_elem_of_lookup. eauto. }
    destruct (is_string status (str "printed")); simpl.
    { by apply Forall_delete. }
    destruct (is_string status (str "failed")); simpl; [|done].
    destruct (decide _) as [Hcap|Hcap].
    + rewrite delete_insert_same. by apply Forall_delete.
    + apply Forall_insert; [done|].
      destruct Hjob as (Hfail & _ & Himage & Hmeta & Hobj).
      simpl in Hcap. unfold job_ok. simpl.
      split_and!; first [done | lia | by split].
  - rewrite cleanupQueue_spec. apply Hswept.
Qed.

(** X17. Whatever requests the print queue has served since the server
    started, every job in it has failed fewer than [MAX_FAILS] times, has a
    claimant exactly when it has a claim time, holds an image that is not
    empty and a [meta] that is an object; so what a claim returns of a job is
    the job's own [meta]. *)
Theorem queue_jobs_are_ok ops :
  Forall job_ok (queue_run CONFIG ops [])
  /\ forall job, job ∈ queue_run CONFIG ops [] ->
       job_response job
       = RespJob (Job.id job) (Job.imageBase64 job) (Job.meta job).
Proof.
  assert (Hok : Forall job_ok (queue_run CONFIG ops [])).
  { unfold queue_run. generalize (Forall_nil_2 job_ok).
    generalize (@nil Job.t). induction ops as [|op ops IH]; intros q Hq; [done|].
    simpl. apply IH. by apply job_ok_step. }
  split; [done|].
  intros job Hin. rewrite Forall_forall in Hok.
  destruct (Hok job Hin) as (_ & _ & _ & Hmeta & _).
  unfold job_response. by rewrite Hmeta.
Qed.

Lemma keywordMarkers_kept session name answers :
  filter (fun k => negb (is_empty k) = true) (keywordMarkers session name answers)
  = keywordMarkers session name answers.
Proof.
  apply filter_all. unfold keywordMarkers. apply Forall_app. split.
  - by repeat constructor.
  - apply Forall_forall. intros k Hk%list_elem_of_In.
    apply in_map_iff in Hk as (q & <- & _).
    apply negb_true_iff, is_empty_false. by apply (trim_cons_nonspace 113%N).
Qed.

Lemma getInputSession_store now token inputSessions :
  (getInputSession CONFIG now token inputSessions).2 = inputSessions
  \/ (getInputSession CONFIG now token inputSessions).2 = delete token inputSessions.
Proof.
  unfold getInputSession. destruct (inputSessions !! token); [|by left].
  destruct (decide _); [by right|by left].
Qed.

Lemma getInputSession_Some now token inputSessions session sessions :
  getInputSession CONFIG now token inputSessions = (Some session, sessions) ->
  sessions = inputSessions /\ inputSessions !! token = Some session.
Proof.
  unfold getInputSession. destruct (inputSessions !! token); [|discriminate].
  destruct (decide _); [discriminate|]. by intros [= <- <-].
Qed.

Lemma session_ok_step op inputSessions :
  map_Forall session_ok inputSessions ->
  map_Forall session_ok (session_step CONFIG op inputSessions).
Proof.
  intros Hm.
  assert (Hget : forall now token,
            map_Forall session_ok (getInputSession CONFIG now token inputSessions).2).
  { intros now token.
    destruct (getInputSession_store now token inputSessions) as [->| ->];
      [done|by apply map_Forall_delete]. }
  destruct op as [backend calls token createdAt|now token|now token
                 |now_lookup now_answer token body|now]; simpl.
  - unfold startSession.
    destruct (generateQuestions_result backend calls) as [_ Hok].
    destruct (generateQuestions backend calls) as [[e|payload] calls'];
      simpl; [done|].
    apply map_Forall_insert_2; [|done].
    unfold session_ok. simpl. split_and!; try done.
    specialize (Hok payload eq_refl). by destruct payload.
  - unfold sessionQuestions. specialize (Hget now token).
    destruct (getInputSession CONFIG now token inputSessions) as [[s|] m];
      [|done].
    by destruct (time_set _).
  - unfold sessionStatus. specialize (Hget now token).
    destruct (getInputSession CONFIG now token inputSessions) as [[s|] m];
      [|done].
    by destruct (time_set _).
  - unfold submitAnswers. specialize (Hget now_lookup token).
    destruct (getInputSession CONFIG now_lookup token inputSessions)
      as [[s|] m] eqn:Hlookup; [|done].
    apply getInputSession_Some in Hlookup as [-> Hs].
    destruct (time_set _); [done|].
    destruct (normalizeInputAnswers s body) as [[[name answers]|]|];
      try done.
    rewrite keywordMarkers_kept.
    destruct (decide _); [done|]. simpl.
    apply map_Forall_insert_2; [|done].
    destruct (Hm token s Hs) as (Htoken & Hqs & _ & _).
    unfold session_ok. simpl. split_and!; try done.
    intros keywords [= <-]. unfold keywordMarkers. simpl.
    by rewrite length_map.
  - intros token s. rewrite cleanupInputSessions_lookup.
    destruct (inputSessions !! token) as [s'|] eqn:Hs; [|done].
    destruct (decide _); [done|]. intros [= <-]. by apply (Hm token).
Qed.

(** X18. Whatever requests the session store has served since the server
    started, every session in it is kept under its own token, holds four or
    five well-formed questions, and has a time of answer exactly when it has
    keywords; the keywords are then two more than the questions, the step of
    the answers route that drops empty keywords never dropping any. *)
Theorem sessions_are_ok ops token session :
  session_run CONFIG ops ∅ !! token = Some session ->
  session_ok token session.
Proof.
  assert (Hok : map_Forall session_ok (session_run CONFIG ops ∅)).
  { unfold session_run.
    generalize (map_Forall_empty (M := gmap jsstring) session_ok).
    generalize (∅ : gmap jsstring Session.t).
    induction ops as [|op ops IH]; intros m Hm; [done|].
    simpl. apply IH. by apply session_ok_step. }
  apply Hok.
Qed.

End InvariantFacts.

(* ----------------------------------------------------------------- *)
(** ** A claim followed by its report *)

Section RoundFacts.
Context {platform : Platform} (CONFIG : Config).

(** X19. A station's round, a claim and then the report about the job the
    claim returned (the ids in the queue being pairwise different), leaves
    no trace of the claim: after [printed] the queue is what the pass of the
    claim left, without the job; after [failed] it is what the pass left with
    the job's fail count raised by one and the job unclaimed again, or
    without the job when that count reaches [MAX_FAILS]. *)
Theorem report_settles_claim printQueue now_gc now_claim clientIdParam
    jobId image meta :
  NoDup (Job.id <$> printQueue) ->
  (claimNext CONFIG now_gc now_claim clientIdParam printQueue).1.1
  = RespJob jobId image meta ->
  let swept := (cleanupQueue CONFIG now_gc printQueue).1 in
  let claimed := (claimNext CONFIG now_gc now_claim clientIdParam printQueue).1.2 in
  exists i job clientId,
    clientId_of clientIdParam = Some clientId
    /\ swept !! i = Some job /\ Job.id job = jobId /\ unclaimed job
    /\ claimed = <[i := with_claim job now_claim clientId]> swept
    /\ (reportOutcome jobId (JString (str "printed")) claimed).1
       = (RespOk, delete i swept)
    /\ (reportOutcome jobId (JString (str "failed")) claimed).1
       = (RespOk,
          if decide (Job.failCount job + 1 >= MAX_FAILS)%Z
          then delete i swept
          else <[i := record_failure job]> swept).
Proof.
  intros Hnd Hresp swept claimed. subst swept claimed.
  rewrite cleanupQueue_spec. simpl.
  rewrite claimNext_unfold in Hresp |- *.
  destruct (clientId_of clientIdParam) as [clientId|]; [|discriminate].
  destruct (list_find unclaimed _) as [[i job]|] eqn:Hfind; [|discriminate].
  apply list_find_Some in Hfind as (Hi & Hun & _). simpl in *.
  injection Hresp as Hid _ _.
  set (swept := sweep CONFIG now_gc printQueue) in *.
  set (job' := with_claim job now_claim clientId).
  assert (Hd : designates jobId (<[i := job']> swept) i job').
  { split_and!.
    - apply list_lookup_insert_eq. by apply lookup_lt_Some in Hi.
    - done.
    - intros k job0 Hk Hlt Hid0.
      rewrite list_lookup_insert_ne in Hk by lia.
      assert (Hnd' : NoDup (Job.id <$> swept))
        by (apply (sublist_NoDup _ _ Hnd), sweep_ids_sublist).
      assert (i = k); [|lia].
      apply (NoDup_lookup _ i k jobId Hnd'); rewrite list_lookup_fmap.
      + by rewrite Hi; simpl; f_equal.
      + by rewrite Hk; simpl; f_equal. }
  exists i, job, clientId. split_and!; [done..| |].
  - rewrite (reportOutcome_unfold _ _ _ _ _ Hd). simpl.
    by rewrite delete_insert_same.
  - rewrite (reportOutcome_unfold _ _ _ _ _ Hd). simpl.
    destruct (decide _).
    + by rewrite delete_insert_same.
    + by rewrite list_insert_insert_eq.
Qed.

End RoundFacts.

(* ================================================================= *)
(** * Worked examples

    Each property above is applied to sample data under the reference
    platform and the default configuration. *)

Section Examples.
#[local] Existing Instance Ref.platform.
Import Demo.
Import Samples.

(** C1, counterexample. With the default configuration: A enqueued at 1000
    and B at 200000, a claim at 301500 finds A evicted (its age is 300500)
    and returns B; and on the queue of the single job A, claimed by stationA
    at 2000, a claim by stationB at 70000, with no outcome reported, finds
    the claim 68000 old, releases it and returns A again. *)
Lemma claimNext_lease_expiry :
  (claimNext defaultConfig 301500 301500 (JString (str "stationA"))
     (enqueuePrintJob (str "B") 200000 (str "iVBORw0KGgo=") (JObject [])
        (enqueuePrintJob (str "A") 1000 (str "iVBORw0KGgo=") (JObject []) []).1.2).1.2).1.1
  = RespJob (str "B") (str "iVBORw0KGgo=") (JObject [])
  /\ (claimNext defaultConfig 2000 2000 (JString (str "stationA")) [job "A" 1000]).1
     = (RespJob (str "A") (str "iVBORw0KGgo=") (JObject []),
        [with_claim (job "A" 1000) 2000 (str "stationA")])
  /\ (claimNext defaultConfig 70000 70000 (JString (str "stationB"))
        [with_claim (job "A" 1000) 2000 (str "stationA")]).1
     = (RespJob (str "A") (str "iVBORw0KGgo=") (JObject []),
        [with_claim (job "A" 1000) 70000 (str "stationB")]).
Proof. by vm_compute. Qed.

(** C1, instances: A then B enqueued, a claim two seconds later returns A;
    a second claim 48 seconds after the first returns "no content". *)
Lemma claimNext_first_unclaimed_witness :
  (claimNext defaultConfig 3000 3000 (JString (str "stationA"))
     (enqueuePrintJob (str "B") 2000 (str "iVBORw0KGgo=") (JObject [])
        (enqueuePrintJob (str "A") 1000 (str "iVBORw0KGgo=") (JObject []) []).1.2).1.2).1.1
  = RespJob (str "A") (str "iVBORw0KGgo=") (JObject [])
  /\ (claimNext defaultConfig 50000 50000 (JString (str "stationB"))
        (claimNext defaultConfig 2000 2000 (JString (str "stationA"))
           [job "A" 1000]).1.2).1.1
     = RespNoContent.
Proof.
  destruct (claimNext_first_unclaimed defaultConfig)
    as (_ & _ & _ & HAB & Hsecond).
  split.
  - apply (HAB [] (str "A") 1000%Z (str "iVBORw0KGgo=") (JObject [])
               (str "B") 2000%Z (str "iVBORw0KGgo=") (JObject [])
               3000%Z 3000%Z (JString (str "stationA")) (str "stationA"));
      [by vm_compute | | by vm_compute].
    intros job0 Hin. by apply not_elem_of_nil in Hin.
  - apply (Hsecond (job "A" 1000) 2000%Z 2000%Z (JString (str "stationA"))
                   50000%Z 50000%Z (JString (str "stationB")) (str "stationB"));
      by vm_compute.
Defined.

(** C2, instances: a third failure removes the job; an unknown status
    changes nothing. *)
Lemma reportOutcome_cases_witness :
  reportOutcome (str "A") (JString (str "failed"))
    [job "B" 500; record_failure (record_failure (job "A" 1000))]
  = (RespOk, [job "B" 500], [print_queue_update 1])
  /\ reportOutcome (str "A") (JString (str "cancelled"))
       [job "B" 500; record_failure (record_failure (job "A" 1000))]
     = (RespError 400 INVALID_STATUS,
        [job "B" 500; record_failure (record_failure (job "A" 1000))], []).
Proof.
  assert (Hd : designates (str "A")
                 [job "B" 500; record_failure (record_failure (job "A" 1000))]
                 1 (record_failure (record_failure (job "A" 1000)))).
  { split_and!; [done..|]. intros [|k] job0 Hk Hlt; [|lia].
    injection Hk as <-. by vm_compute. }
  split.
  - destruct (reportOutcome_cases (str "A") (JString (str "failed"))
                [job "B" 500; record_failure (record_failure (job "A" 1000))])
      as (Hfound & _).
    destruct (Hfound _ _ Hd) as (_ & _ & Hcap & _).
    apply Hcap; by vm_compute.
  - destruct (reportOutcome_cases (str "A") (JString (str "cancelled"))
                [job "B" 500; record_failure (record_failure (job "A" 1000))])
      as (Hfound & _).
    destruct (Hfound _ _ Hd) as (_ & _ & _ & Hother).
    apply Hother; by vm_compute.
Defined.

(** C3, instance: a pass at 301000 evicts a job created at 500, keeps the
    job created at 1000 and clears its claim taken at 2000. *)
Lemma cleanupQueue_retention_witness :
  release_if_stale defaultConfig 301000 (with_claim (job "A" 1000) 2000 (str "stationA"))
    ∈ (cleanupQueue defaultConfig 301000
         [job "old" 500; with_claim (job "A" 1000) 2000 (str "stationA")]).1
  /\ Job.claimedAt
       (release_if_stale defaultConfig 301000
          (with_claim (job "A" 1000) 2000 (str "stationA"))) = None.
Proof.
  destruct (cleanupQueue_retention defaultConfig 301000
              [job "old" 500; with_claim (job "A" 1000) 2000 (str "stationA")])
    as (Hkeep & _ & Hjob & _).
  split.
  - apply Hkeep; [by apply elem_of_cons; right; apply elem_of_cons; left|].
    by vm_compute.
  - destruct (Hjob (with_claim (job "A" 1000) 2000 (str "stationA")))
      as (_ & _ & _ & Hrel).
    apply (Hrel 2000%Z); by vm_compute.
Defined.

(** C4, instances: a backend that fails twice and then answers is asked
    three times and the card, or the question set, is returned; one that
    fails three times makes the call fail with the third error, its fourth
    reply unused. The three attempts of the first are a request that throws,
    a reply whose text is no JSON and has no brace span, and a reply whose
    text is parsed and validated. *)
Lemma generation_retries_witness :
  generateCardData flaky_backend 0 = (inr card, 3)
  /\ generateQuestions flaky_questions_backend 0 = (inr question_set, 3)
  /\ generateCardData dead_backend 0
     = (inl (mkError (str "Schema validation failed")), 3)
  /\ cardAttempt flaky_backend 0 = (inl (mkError (str "fetch failed")), 1)
  /\ questionsAttempt flaky_questions_backend 1
     = (inl (mkError (str "Invalid Ollama response")), 2)
  /\ cardAttempt flaky_backend 2 = (cardFromText prose_wrapped, 3).
Proof.
  split_and!.
  - destruct (generation_retries flaky_backend 0) as ((_ & Hfirst & _) & _).
    apply (Hfirst 2 card); [lia | | by vm_compute].
    intros [|[|j]] Hj; [by vm_compute; eexists.. | lia].
  - destruct (generation_retries flaky_questions_backend 0)
      as (_ & (_ & Hfirst & _) & _).
    apply (Hfirst 2 question_set); [lia | | by vm_compute].
    intros [|[|j]] Hj; [by vm_compute; eexists.. | lia].
  - destruct (generation_retries dead_backend 0) as ((_ & _ & Hall & _) & _).
    apply Hall; [|by vm_compute].
    intros [|[|[|j]]] Hj; [by vm_compute; eexists.. | lia].
  - destruct (generation_retries flaky_backend 0)
      as (_ & _ & _ & _ & Hthrown & _).
    by destruct (Hthrown 0 (mkError (str "fetch failed")) eq_refl).
  - destruct (generation_retries flaky_questions_backend 0)
      as (_ & _ & _ & _ & _ & _ & Hnone).
    by destruct (Hnone 1 (JObject [(str "done", JBool true)]) eq_refl).
  - destruct (generation_retries flaky_backend 0)
      as (_ & _ & _ & _ & _ & Hbody & _).
    by destruct (Hbody 2 _ prose_wrapped eq_refl eq_refl).
Defined.

(** C5, instance: the reply whose text is [here is your json: {...}] makes
    an attempt that succeeds: the text does not parse as a whole, its brace
    span does, and the card is accepted. *)
Lemma prose_wrapped_accepted :
  cardAttempt flaky_backend 2 = (inr card, 3)
  /\ cardFromText prose_wrapped = inr card.
Proof.
  destruct (attempt_parses_then_extracts prose_wrapped)
    as (Hreply & _ & Hparse).
  assert (Htext : cardFromText prose_wrapped = inr card).
  { destruct Hparse as (_ & _ & Hcard & _); [by vm_compute|].
    destruct (Hcard (str "Unexpected token")) as (_ & Hspan & _);
      [by vm_compute|].
    apply (Hspan card_json
             match JSON_parse card_json with inr v => v | inl _ => JNull end).
    - exists (str "here is your json: "),
        (take (length card_json - 2) (drop 1 card_json)), [].
      split_and!; [by vm_compute | compute_done | compute_done | by vm_compute].
    - by vm_compute.
    - by vm_compute. }
  split; [|exact Htext].
  destruct (Hreply flaky_backend 2 _ eq_refl eq_refl) as [Hattempt _].
  by rewrite Hattempt, Htext.
Defined.

(** C6, counterexample. A candidate whose [sense] is the boolean [true]
    and whose [logic] is the string ["50"] is accepted, with the stats 1 and
    50. *)
Lemma loosely_typed_stats_accepted :
  rawStat loosely_typed_card (str "sense") = JBool true
  /\ rawStat loosely_typed_card (str "logic") = JString (str "50")
  /\ normalizeCardData loosely_typed_card
     = Some (Some {| name := str "Nova"; class := str "Echo Rider";
                     stats := {| sense := num_of_Z 1; logic := num_of_Z 50;
                                 luck := num_of_Z 100; charm := num_of_Z 7;
                                 vibe := num_of_Z 91 |};
                     skill := str "Photon Step";
                     description := str "Reads the room fast." |}).
Proof. by vm_compute. Qed.

(** C6, instances: the candidate above is accepted; one with the stat 3.5
    is refused. *)
Lemma normalizeCardData_stats_witness :
  normalizeCardData loosely_typed_card
  = Some (Some {| name := str "Nova"; class := str "Echo Rider";
                  stats := {| sense := num_of_Z 1; logic := num_of_Z 50;
                              luck := num_of_Z 100; charm := num_of_Z 7;
                              vibe := num_of_Z 91 |};
                  skill := str "Photon Step";
                  description := str "Reads the room fast." |})
  /\ refused
       (normalizeCardData
          (JObject [(str "name", JString (str "Nova"));
                    (str "class", JString (str "Echo Rider"));
                    (str "skill", JString (str "Photon Step"));
                    (str "description", JString (str "Reads the room fast."));
                    (str "stats",
                     JObject [(str "sense", JNumber (num_of_Z 80));
                              (str "logic", JNumber (Finite (Q2Qc (7 # 2))));
                              (str "luck", JNumber (num_of_Z 40));
                              (str "charm", JNumber (num_of_Z 65));
                              (str "vibe", JNumber (num_of_Z 91))])])).
Proof.
  split.
  - destruct (normalizeCardData_stats loosely_typed_card)
      as (_ & _ & _ & _ & _ & Hacc).
    apply Hacc; try by vm_compute.
    apply forallb_stat_ok. by vm_compute.
  - match goal with |- refused (normalizeCardData ?raw) =>
      destruct (normalizeCardData_stats raw) as (_ & _ & Hrej & _) end.
    apply (Hrej (str "logic") (Finite (Q2Qc (7 # 2))));
      [unfold stat_keys; by repeat first [ apply list_elem_of_here
                                         | apply list_elem_of_further ]
      | by vm_compute | auto].
Defined.

(** C7, counterexample. A candidate with the ids 1, 1, 2, 3 and a text of
    42 code units is accepted, both entries with the id 1 kept and the long
    text cut to its first 30 code units. *)
Lemma repeated_ids_accepted :
  normalizeQuestions repeated_ids
  = Some (Some
      {| sessionId := str "8b0f7c2e";
         questions :=
           [ {| Question.id := num_of_Z 1; Question.text := str "Coffee or tea?" |};
             {| Question.id := num_of_Z 1; Question.text := str "Stairs or lift?" |};
             {| Question.id := num_of_Z 2;
                Question.text := str "Which app did you open first t" |};
             {| Question.id := num_of_Z 3; Question.text := str "Window or aisle?" |} ] |})
  /\ get (question 2 "Which app did you open first this morning?") (str "text")
     = JString (str "Which app did you open first this morning?").
Proof. by vm_compute. Qed.

(** C7, instance: the same candidate passes every test that is made, and
    what is returned is well formed. *)
Lemma questions_validation_witness :
  exists qs, normalizeQuestions repeated_ids = Some (Some qs)
             /\ map Question.id (questions qs)
                = [num_of_Z 1; num_of_Z 1; num_of_Z 2; num_of_Z 3]
             /\ well_formed_questions qs.
Proof.
  destruct (questions_validation repeated_ids)
    as (Hwf & _ & _ & _ & _ & _ & _ & Hacc).
  destruct (Hacc [question 1 "Coffee or tea?"; question 1 "Stairs or lift?";
                  question 2 "Which app did you open first this morning?";
                  question 3 "Window or aisle?"] (str "8b0f7c2e"))
    as (qs & Hqs & Hnorm);
    [by vm_compute | by vm_compute | by vm_compute | simpl; lia
    | by vm_compute | by vm_compute | |].
  - repeat (apply Forall_cons; split); [..|apply Forall_nil_2];
      (split_and!; [by vm_compute | by vm_compute | |
                    eexists; split; [by vm_compute | done]]).
    + exists 1%Z. by vm_compute.
    + exists 1%Z. by vm_compute.
    + exists 2%Z. by vm_compute.
    + exists 3%Z. by vm_compute.
  - eexists. split_and!; [exact Hnorm | | by apply Hwf].
    vm_compute in Hqs. injection Hqs as <-. by vm_compute.
Defined.



(** C9, instances: the answer does not depend on who holds which claim, and
    a job nobody claimed is removed by a [printed] report. *)
Lemma reportOutcome_ignores_claims_witness :
  (reportOutcome (str "A") (JString (str "printed"))
     [with_claim (job "A" 1000) 2000 (str "stationA"); job "B" 1500]).1.1
  = (reportOutcome (str "A") (JString (str "printed"))
       [job "A" 1000; with_claim (job "B" 1500) 1700 (str "stationB")]).1.1
  /\ (reportOutcome (str "A") (JString (str "printed"))
        ([] ++ job "A" 1000 :: [job "B" 1500])).1
     = (RespOk, [] ++ [job "B" 1500]).
Proof.
  destruct reportOutcome_ignores_claims as (Hsame & Hany).
  split.
  - apply Hsame. reflexivity.
  - apply (Hany (str "A") (str "iVBORw0KGgo=") (JObject []) 1000%Z None None 0%Z
             [] [job "B" 1500]).
    intros job0 Hin. by apply not_elem_of_nil in Hin.
Defined.

(** C10, instances: a job and a session whose ages are exactly their times
    to live are kept. *)
Lemma expiry_is_strict_witness :
  release_if_stale defaultConfig 301000 (job "A" 1000)
    ∈ (cleanupQueue defaultConfig 301000
         (queue_run defaultConfig
            [OpEnqueue (str "A") 1000
               (JObject [(str "image", JString (str "iVBORw0KGgo="))])] [])).1
  /\ getInputSession defaultConfig 601000 (str "tok-1") sessions
     = (Some session, sessions).
Proof.
  destruct (expiry_is_strict defaultConfig) as (Hjob & _ & _ & Hsession).
  split.
  - apply Hjob; [|by vm_compute].
    vm_compute. apply elem_of_cons. by left.
  - destruct (Hsession 601000%Z (str "tok-1") sessions session) as (Hkeep & _);
      [apply lookup_singleton_eq|].
    apply Hkeep. by vm_compute.
Defined.

(* ----------------------------------------------------------------- *)
(** ** Instances of the further properties *)

(** X2, instance: the string and the number 7 are escaped to the same text,
    and have the same text. *)
Lemma escapeXml_injective_witness :
  escapeXml (JString (str "7")) = escapeXml (JNumber (num_of_Z 7))
  /\ ToString (JString (str "7")) = ToString (JNumber (num_of_Z 7)).
Proof.
  assert (H : escapeXml (JString (str "7")) = escapeXml (JNumber (num_of_Z 7)))
    by by vm_compute.
  split; [exact H|]. exact (escapeXml_injective _ _ H).
Defined.

(** X4, instance: a session created at 1000 is read at 601000 and gone at
    601001. *)
Lemma session_lives_until_expiresAt_witness :
  let sessions' := <[str "tok-9" := pending_session]> (∅ : gmap jsstring Session.t) in
  startSession defaultConfig questions_backend 0 (str "tok-9") 1000 ∅
  = (RespSession (str "tok-9") 601000, sessions', 1)
  /\ sessionQuestions defaultConfig 601000 (str "tok-9") sessions'
     = (QuestionsOk (sessionId question_set) (questions question_set), sessions')
  /\ sessionStatus defaultConfig 601001 (str "tok-9") sessions'
     = (StatusError 404 NOT_FOUND, delete (str "tok-9") sessions').
Proof.
  intros sessions'.
  assert (Hgen : generateQuestions questions_backend 0 = (inr question_set, 1))
    by by vm_compute.
  assert (Hstart : startSession defaultConfig questions_backend 0 (str "tok-9")
                     1000 ∅
                   = (RespSession (str "tok-9") 601000, sessions', 1)).
  { unfold startSession. by rewrite Hgen. }
  destruct (session_lives_until_expiresAt defaultConfig _ _ _ _ _ _ _ _ _ Hstart)
    as (_ & _ & payload & Hgen' & Hlive & Hgone).
  rewrite Hgen in Hgen'. injection Hgen' as <-.
  split_and!.
  - exact Hstart.
  - by apply Hlive.
  - by apply (Hgone 601001%Z 0%Z JNull).
Defined.

(** X5, instance: once the answers are in, the status route reports the
    keywords and the questions route refuses. *)
Lemma answers_are_reported_witness :
  let sessions' :=
    (submitAnswers defaultConfig 2000 2500 (str "tok-1") (answers "stairs")
       sessions).2 in
  exists keywords,
    keywords <> []
    /\ sessionStatus defaultConfig 3000 (str "tok-1") sessions'
       = (StatusAnswered keywords, sessions')
    /\ sessionQuestions defaultConfig 3000 (str "tok-1") sessions'
       = (QuestionsError 409 ALREADY_USED, sessions').
Proof.
  intros sessions'.
  destruct (answers_are_reported defaultConfig 2000 2500 (str "tok-1")
              (answers "stairs") sessions)
    as (s & keywords & Hs & _ & Hne & Hlater); [by vm_compute | done |].
  exists keywords. split; [done|].
  apply Hlater.
  assert (Hs' : sessions !! str "tok-1" = Some session) by apply lookup_singleton_eq.
  rewrite Hs' in Hs. injection Hs as <-. by vm_compute.
Defined.

(** X6, instance: answering under one token leaves what is under another
    token as it was. *)
Lemma sessions_are_isolated_witness :
  (submitAnswers defaultConfig 2000 2500 (str "tok-1") (answers "stairs")
     sessions).2 !! str "tok-2"
  = sessions !! str "tok-2".
Proof.
  assert (Hne : str "tok-1" <> str "tok-2") by by vm_compute.
  destruct (sessions_are_isolated defaultConfig _ _ Hne) as (_ & Hsubmit & _).
  apply Hsubmit.
Defined.

(** X8, instance: a sweep at 700000 does not change what a status request
    at 700001 is answered. *)
Lemma sweep_is_unobservable_witness :
  (sessionStatus defaultConfig 700001 (str "tok-1")
     (cleanupInputSessions defaultConfig 700000 sessions).2).1
  = (sessionStatus defaultConfig 700001 (str "tok-1") sessions).1.
Proof.
  destruct (sweep_is_unobservable defaultConfig 700000 700001 0 (str "tok-1")
              JNull sessions) as (_ & Hstatus & _); [by vm_compute|].
  exact Hstatus.
Defined.

(** X9, instance: a pass at 100000 before a claim at 400000 changes neither
    the answer nor the queue the claim leaves. *)
Lemma cleanupQueue_absorbs_witness :
  (claimNext defaultConfig 400000 400000 (JString (str "stationA"))
     (cleanupQueue defaultConfig 100000
        (two_jobs ++ [job "C" 350000])).1).1
  = (claimNext defaultConfig 400000 400000 (JString (str "stationA"))
       (two_jobs ++ [job "C" 350000])).1.
Proof.
  destruct (cleanupQueue_absorbs defaultConfig 100000 400000
              (two_jobs ++ [job "C" 350000])) as (_ & _ & Hclaim);
    [by vm_compute|].
  apply Hclaim.
Defined.

(** X12, instance: station A claims job A at 3000; a print request, a pass
    and a report about job B later, station B's claim at 50000 gets job B. *)
Lemma claim_is_exclusive_witness :
  let ops := [OpEnqueue (str "C") 10000 print_request;
              OpCleanup 20000;
              OpReportOutcome (str "B") (JString (str "failed"))] in
  let first := claimNext defaultConfig 3000 3000 (JString (str "stationA"))
                 two_jobs in
  first.1.1 = RespJob (str "A") (str "iVBORw0KGgo=") (JObject [])
  /\ (claimNext defaultConfig 50000 50000 (JString (str "stationB"))
        (queue_run defaultConfig ops first.1.2)).1.1
     = RespJob (str "B") (str "iVBORw0KGgo=") (JObject [])
  /\ str "B" <> str "A".
Proof.
  intros ops first.
  assert (H1 : first.1.1 = RespJob (str "A") (str "iVBORw0KGgo=") (JObject []))
    by by vm_compute.
  assert (H2 : (claimNext defaultConfig 50000 50000 (JString (str "stationB"))
                  (queue_run defaultConfig ops first.1.2)).1.1
               = RespJob (str "B") (str "iVBORw0KGgo=") (JObject []))
    by by vm_compute.
  split_and!; [exact H1 | exact H2 |].
  apply (claim_is_exclusive defaultConfig two_jobs 3000 3000
           (JString (str "stationA")) ops 50000 50000 (JString (str "stationB"))
           (str "A") (str "iVBORw0KGgo=") (JObject [])
           (str "B") (str "iVBORw0KGgo=") (JObject []));
    [| exact H1 | done | | by vm_compute | exact H2].
  - apply (bool_decide_unpack _). by vm_compute.
  - repeat constructor; by vm_compute.
Defined.

(** X14, instance: job A is reported printed; after a claim and a print
    request for another job, a second report about A is answered
    NOT_FOUND. *)
Lemma printed_job_is_gone_witness :
  let ops := [OpClaimNext 3000 3000 (JString (str "stationA"));
              OpEnqueue (str "C") 10000 print_request] in
  let later :=
    queue_run defaultConfig ops
      (reportOutcome (str "A") (JString (str "printed")) two_jobs).1.2 in
  reportOutcome (str "A") (JString (str "printed")) later
  = (RespError 404 NOT_FOUND, later, []).
Proof.
  intros ops later.
  destruct (printed_job_is_gone defaultConfig (str "A") two_jobs ops)
    as (_ & Hreport & _).
  - apply (bool_decide_unpack _). by vm_compute.
  - by vm_compute.
  - intros now body Hin. subst ops.
    repeat (apply elem_of_cons in Hin as [Hin|Hin]; [discriminate Hin|]).
    by apply not_elem_of_nil in Hin.
  - apply Hreport.
Defined.

(** X18, instance: the session that a request has created and a sweep has
    passed over. *)
Lemma sessions_are_ok_witness :
  session_run defaultConfig
    [OpStartSession questions_backend 0 (str "tok-9") 1000; OpSweep 5000] ∅
    !! str "tok-9" = Some pending_session
  /\ session_ok (str "tok-9") pending_session.
Proof.
  assert (Hgen : generateQuestions questions_backend 0 = (inr question_set, 1))
    by by vm_compute.
  assert (Hrun : session_run defaultConfig
                   [OpStartSession questions_backend 0 (str "tok-9") 1000;
                    OpSweep 5000] ∅
                 !! str "tok-9" = Some pending_session).
  { unfold session_run. cbn [fold_left session_step].
    rewrite cleanupInputSessions_lookup.
    unfold startSession. rewrite Hgen. cbn [fst snd].
    rewrite lookup_insert_eq. by rewrite decide_False by by vm_compute. }
  split; [exact Hrun|].
  exact (sessions_are_ok defaultConfig _ _ _ Hrun).
Defined.

(** X19, instance: station A claims job A and reports it failed; the job is
    back, unclaimed, with one failure. *)
Lemma report_settles_claim_witness :
  (reportOutcome (str "A") (JString (str "failed"))
     (claimNext defaultConfig 3000 3000 (JString (str "stationA")) two_jobs).1.2).1
  = (RespOk, [record_failure (job "A" 1000); job "B" 2000]).
Proof.
  destruct (report_settles_claim defaultConfig two_jobs 3000 3000
              (JString (str "stationA")) (str "A") (str "iVBORw0KGgo=")
              (JObject []))
    as (i & job0 & clientId & _ & Hi & Hid & _ & _ & _ & Hfailed).
  - apply (bool_decide_unpack _). by vm_compute.
  - by vm_compute.
  - rewrite Hfailed.
    assert (Hswept : (cleanupQueue defaultConfig 3000 two_jobs).1 = two_jobs)
      by by vm_compute.
    rewrite Hswept in Hi |- *.
    destruct i as [|[|i]]; simpl in Hi; [| |done].
    + injection Hi as <-. by vm_compute.
    + injection Hi as <-. by vm_compute in Hid.
Defined.

End Examples.
